(** * Find by Media: similarity scoring, hash cache and library indexer

    A shallow embedding of [js/similarity.js], [js/cache.js], [js/hasher.js]
    and [js/indexer.js], of the cosine of [js/embedder.js], and of the
    search of [js/main.js].

    Modelling conventions.
    - A JavaScript number that holds a score, a weight or a vector component
      is a real number ([R]): the rounding, NaN and the infinities of IEEE
      doubles are outside the model, and the properties stated of such
      numbers are signs, orders and equalities of values computed alike.
      The cells of the colour histogram are the exception: a cell is the
      quotient of two counts, and it is rounded as the division in doubles
      and the store into the [Float32Array] round it.  Numbers the code
      only counts with (bit distances, pixel counts, lengths) are integers.
    - A JavaScript string is a [string], one character per code unit (code
      units above 255 are outside the model); [undefined]/[null] is [None].
    - A plain object used as a dictionary is an insertion-ordered association
      list of its own properties ([JsObject.t]), enumerated by [Object.keys]
      in list order (item ids are not array indices, which [Object.keys]
      would list first).  A read [o[k]] also sees what [Object.prototype]
      holds under [k] ([JsObject.read]); an assignment to the key
      ['__proto__'] is outside the model.
    - Module-level mutable state ([Cache._data], ...) is passed explicitly.
    - Work done behind an [await] (image decoding, the embedding model) is a
      parameter of the section that uses it; a rejected promise is [None]. *)

From Stdlib Require Import ZArith List String Ascii Bool Reals Lra Lia Sorted.
From Stdlib Require Strings.Byte.
Import ListNotations.

Set Implicit Arguments.

(* ------------------------------------------------------------------ *)
(** ** JavaScript values *)

Module Js.

(** [!s] for a string-or-undefined value: [undefined] and the empty string
    are falsy. *)
Definition falsy_string (s : option string) : bool :=
  match s with
  | None => true
  | Some EmptyString => true
  | Some (String _ _) => false
  end.

(** [!a] for an array-or-undefined value: every array is truthy, the empty
    one too. *)
Definition falsy_array (A : Type) (a : option (list A)) : bool :=
  match a with
  | None => true
  | Some _ => false
  end.

(** [s.length] of a string, 0 for a missing one. *)
Definition string_length (s : option string) : nat :=
  match s with
  | None => 0%nat
  | Some s => String.length s
  end.

(** [a.length !== b.length] for two arrays that are both present. *)
Definition length_differs (A : Type) (a b : list A) : bool :=
  negb (List.length a =? List.length b)%nat.

(** [x ^ y] operands: ToInt32 sends NaN to 0 and leaves a hex digit value. *)
Definition ToInt32 (n : option Z) : Z :=
  match n with
  | Some z => z
  | None => 0%Z
  end.

(** [parseInt(c, 16)] on a one-character string; [None] is NaN. *)
Definition parseInt16 (c : ascii) : option Z :=
  let n := Z.of_N (N_of_ascii c) in
  if ((48 <=? n) && (n <=? 57))%Z then Some (n - 48)%Z
  else if ((97 <=? n) && (n <=? 102))%Z then Some (n - 87)%Z
  else if ((65 <=? n) && (n <=? 70))%Z then Some (n - 55)%Z
  else None.

(** [s.toLowerCase()] on ASCII text. *)
Definition toLowerCase_char (c : ascii) : ascii :=
  let n := N_of_ascii c in
  if ((65 <=? n) && (n <=? 90))%N then ascii_of_N (n + 32) else c.

Fixpoint toLowerCase (s : string) : string :=
  match s with
  | EmptyString => EmptyString
  | String c s' => String (toLowerCase_char c) (toLowerCase s')
  end.

(** [arr.slice(0, end)] for an integer [end]: a negative [end] counts from
    the back of the array. *)
Definition slice0 (A : Type) (l : list A) (end_ : Z) : list A :=
  if (end_ <? 0)%Z
  then firstn (Z.to_nat (Z.max (Z.of_nat (List.length l) + end_) 0)) l
  else firstn (Z.to_nat end_) l.

(** [arr.slice(i, i + n)] for natural [i] and [n]. *)
Definition slice (A : Type) (l : list A) (i n : nat) : list A :=
  firstn n (skipn i l).

(** [arr.sort(comparefn)]: the sort is stable, and [x] ends up behind [y]
    exactly when [comparefn(x, y) > 0]. *)
Section Sort.
Variable A : Type.
Variable comparefn : A -> A -> R.

Fixpoint sort_insert (x : A) (l : list A) : list A :=
  match l with
  | [] => [x]
  | y :: l' =>
      if Rlt_dec 0 (comparefn x y) then y :: sort_insert x l'
      else x :: y :: l'
  end.

Fixpoint sort (l : list A) : list A :=
  match l with
  | [] => []
  | x :: l' => sort_insert x (sort l')
  end.
End Sort.

(** The property names every plain object inherits from
    [Object.prototype]: for such a key [o[k]] is never [undefined]. *)
Definition prototype_names : list string :=
  ["__proto__"; "constructor"; "hasOwnProperty"; "isPrototypeOf";
   "propertyIsEnumerable"; "toLocaleString"; "toString"; "valueOf";
   "__defineGetter__"; "__defineSetter__"; "__lookupGetter__";
   "__lookupSetter__"]%string.

Definition inherited (k : string) : bool :=
  existsb (String.eqb k) prototype_names.

(** A typed array cell update [arr[i] = f(arr[i])]; an index outside the
    array writes nothing. *)
Fixpoint update_at (A : Type) (f : A -> A) (i : nat) (arr : list A) : list A :=
  match arr, i with
  | [], _ => []
  | x :: arr', O => f x :: arr'
  | x :: arr', S i' => x :: update_at f i' arr'
  end.

(** The integer nearest to [x / y], a tie going to the even one, for
    [0 <= x] and [0 < y]. *)
Definition round_half_even (x y : Z) : Z :=
  let q := (x / y)%Z in
  let r := (x mod y)%Z in
  if (2 * r <? y)%Z then q
  else if (y <? 2 * r)%Z then (q + 1)%Z
  else if Z.even q then q else (q + 1)%Z.

(** IEEE rounding (to nearest, ties to even) of the quotient [a / b] of two
    integers with [0 <= a <= b] and [0 < b] to a significand of [prec]
    bits: the result is [m / 2^k], returned as [(m, k)].  The quotient is 0
    or at least [1 / b], so for [b < 2^126] the exponent range binds in
    neither the float32 nor the float64 format. *)
Definition round_quotient (prec a b : Z) : Z * Z :=
  if (a =? 0)%Z then (0%Z, 0%Z)
  else
    let k0 := (prec - 1 + Z.log2 b - Z.log2 a)%Z in
    let k :=
      if (b * 2 ^ (prec - 1) <=? a * 2 ^ k0)%Z then k0 else (k0 + 1)%Z in
    (round_half_even (a * 2 ^ k) b, k).

(** [cell++] on a [Float32Array] cell that holds the count [count]: exact
    below 2^24; at 2^24 the odd [2^24 + 1] is not a float32 and the store
    rounds it back to the even 2^24, so the cell stays. *)
Definition float32_succ (count : Z) : Z :=
  if (count <? 2 ^ 24)%Z then (count + 1)%Z else count.

(** The number [m / 2^k]. *)
Definition dyadic (mk : Z * Z) : R := (IZR (fst mk) / IZR (2 ^ snd mk))%R.

(** [cell /= b] on a [Float32Array] cell that holds the integer [a]: the
    division is done in doubles (53 bits), and the store rounds its result
    to float32 (24 bits). *)
Definition float32_quotient (a b : Z) : R :=
  let '(m, k) := round_quotient 53 a b in
  dyadic (round_quotient 24 m (2 ^ k)).

End Js.

(* ------------------------------------------------------------------ *)
(** ** Plain objects used as dictionaries *)

Module JsObject.
Section Obj.
Variable V : Type.

Definition t := list (string * V).

Definition empty : t := [].

(** The own property [k] of [o]: what [o[k]] reads for a key that
    [Object.keys(o)] lists. *)
Fixpoint get (k : string) (o : t) : option V :=
  match o with
  | [] => None
  | (k', v) :: o' => if String.eqb k k' then Some v else get k o'
  end.

(** [o[k]]: the own property, or else the value [k] names on
    [Object.prototype]; [inherited] stands for such a value. *)
Definition read (inherited : V) (k : string) (o : t) : option V :=
  match get k o with
  | Some v => Some v
  | None => if Js.inherited k then Some inherited else None
  end.

(** [o[k] = v] for a key other than ['__proto__'] (that assignment would
    replace the prototype of [o] and add no key): an existing key keeps its
    place, a new one goes last. *)
Fixpoint set (k : string) (v : V) (o : t) : t :=
  match o with
  | [] => [(k, v)]
  | (k', v') :: o' =>
      if String.eqb k k' then (k, v) :: o' else (k', v') :: set k v o'
  end.

(** [delete o[k]] *)
Fixpoint delete (k : string) (o : t) : t :=
  match o with
  | [] => []
  | (k', v') :: o' =>
      if String.eqb k k' then delete k o' else (k', v') :: delete k o'
  end.

(** [Object.keys(o)] *)
Definition keys (o : t) : list string := map fst o.
End Obj.

Arguments empty {V}.
End JsObject.

(* ------------------------------------------------------------------ *)
(** ** Records *)

(** The record cached for one item, also the shape of a query:
    [{ pHash, colorHistogram, embedding, ext }], every field optional. *)
Module HashData.
Record t := mk {
  pHash : option string;
  colorHistogram : option (list R);
  embedding : option (list R);
  ext : option string
}.

(** The object literal [{}]. *)
Definition empty : t := mk None None None None.

(** What the program can see of a value read through the prototype of the
    items object (a function, or [Object.prototype] itself): a truthy value
    on which [pHash], [colorHistogram], [embedding] and [ext] are all
    undefined, and whose spread adds none of them. *)
Definition inherited : t := mk None None None None.
End HashData.

(** A library item as the host application lists it. *)
Module Item.
Record t := mk {
  id : string;
  ext : option string;
  thumbnailPath : option string;
  filePath : option string
}.
End Item.

(* ------------------------------------------------------------------ *)
(** ** similarity.js *)

Module Similarity.
Local Open Scope R_scope.

Definition MODE_PHASH : string := "phash".
Definition MODE_CLIP : string := "clip".
Definition MODE_HYBRID : string := "hybrid".

Definition PHASH_WEIGHT : R := 0.25.
Definition COLOR_WEIGHT : R := 0.15.
Definition CLIP_WEIGHT : R := 0.60.

Definition MAX_HAMMING_BITS : Z := 256.

(** [while (xor) { distance += xor & 1; xor >>= 1; }] on a 32-bit value. *)
Fixpoint while_xor (fuel : nat) (xor distance : Z) : Z :=
  match fuel with
  | O => distance
  | S fuel' =>
      if (xor =? 0)%Z then distance
      else while_xor fuel' (Z.shiftr xor 1) (distance + Z.land xor 1)%Z
  end.

(** The [for] loop of [hammingDistance] over two strings of equal length. *)
Fixpoint hamming_loop (hash1 hash2 : string) (distance : Z) : Z :=
  match hash1, hash2 with
  | String c1 rest1, String c2 rest2 =>
      let n1 := Js.parseInt16 c1 in
      let n2 := Js.parseInt16 c2 in
      let xor := Z.lxor (Js.ToInt32 n1) (Js.ToInt32 n2) in
      hamming_loop rest1 rest2 (while_xor 32 xor distance)
  | _, _ => distance
  end.

Definition hammingDistance (hash1 hash2 : option string) : Z :=
  match hash1, hash2 with
  | Some s1, Some s2 =>
      if Js.falsy_string hash1 || Js.falsy_string hash2
         || negb (String.length s1 =? String.length s2)%nat
      then MAX_HAMMING_BITS
      else hamming_loop s1 s2 0
  | _, _ => MAX_HAMMING_BITS
  end.

Definition pHashScore (hash1 hash2 : option string) : R :=
  let dist := hammingDistance hash1 hash2 in
  1 - (IZR dist / IZR MAX_HAMMING_BITS).

(** The loop of [histogramSimilarity]; the accumulator is
    [(dot, mag1, mag2)]. *)
Fixpoint histogram_loop (hist1 hist2 : list R) (acc : R * R * R) : R * R * R :=
  match hist1, hist2 with
  | x :: rest1, y :: rest2 =>
      let '(dot, mag1, mag2) := acc in
      histogram_loop rest1 rest2 (dot + x * y, mag1 + x * x, mag2 + y * y)
  | _, _ => acc
  end.

Definition histogramSimilarity (hist1 hist2 : option (list R)) : R :=
  match hist1, hist2 with
  | Some h1, Some h2 =>
      if Js.length_differs h1 h2 then 0
      else
        let '(dot, mag1, mag2) := histogram_loop h1 h2 (0, 0, 0) in
        let mag1 := sqrt mag1 in
        let mag2 := sqrt mag2 in
        if Req_dec_T mag1 0 then 0
        else if Req_dec_T mag2 0 then 0
        else dot / (mag1 * mag2)
  | _, _ => 0
  end.

(** The loop of [clipSimilarity]. *)
Fixpoint clip_loop (emb1 emb2 : list R) (dot : R) : R :=
  match emb1, emb2 with
  | x :: rest1, y :: rest2 => clip_loop rest1 rest2 (dot + x * y)
  | _, _ => dot
  end.

Definition clipSimilarity (emb1 emb2 : option (list R)) : R :=
  match emb1, emb2 with
  | Some e1, Some e2 =>
      if Js.length_differs e1 e2 then 0
      else
        let dot := clip_loop e1 e2 0 in
        (Rmax (-1) (Rmin 1 dot) + 1) / 2
  | _, _ => 0
  end.

(** [mode === s] for a mode that may be [undefined]. *)
Definition mode_is (mode : option string) (s : string) : bool :=
  match mode with
  | Some m => String.eqb m s
  | None => false
  end.

Definition combinedScore (queryData candidateData : HashData.t)
    (mode : option string) : R :=
  if mode_is mode MODE_CLIP then
    if Js.falsy_array (HashData.embedding queryData)
       || Js.falsy_array (HashData.embedding candidateData)
    then 0
    else clipSimilarity (HashData.embedding queryData)
                        (HashData.embedding candidateData)
  else if mode_is mode MODE_PHASH then
    let pScore := pHashScore (HashData.pHash queryData)
                             (HashData.pHash candidateData) in
    let cScore := histogramSimilarity (HashData.colorHistogram queryData)
                                      (HashData.colorHistogram candidateData) in
    0.6 * pScore + 0.4 * cScore
  else
    let pScore :=
      if negb (Js.falsy_string (HashData.pHash queryData))
         && negb (Js.falsy_string (HashData.pHash candidateData))
      then pHashScore (HashData.pHash queryData) (HashData.pHash candidateData)
      else 0 in
    let cScore :=
      if negb (Js.falsy_array (HashData.colorHistogram queryData))
         && negb (Js.falsy_array (HashData.colorHistogram candidateData))
      then histogramSimilarity (HashData.colorHistogram queryData)
                               (HashData.colorHistogram candidateData)
      else 0 in
    let eScore :=
      if negb (Js.falsy_array (HashData.embedding queryData))
         && negb (Js.falsy_array (HashData.embedding candidateData))
      then clipSimilarity (HashData.embedding queryData)
                          (HashData.embedding candidateData)
      else 0 in
    if Js.falsy_array (HashData.embedding queryData)
       || Js.falsy_array (HashData.embedding candidateData)
    then 0.6 * pScore + 0.4 * cScore
    else PHASH_WEIGHT * pScore + COLOR_WEIGHT * cScore + CLIP_WEIGHT * eScore.

(** One entry [{ id, score }] of a result list. *)
Record ScoredResult := mkResult {
  id : string;
  score : R
}.

(** [id === excludeId]; the caller passes [null] when nothing is excluded. *)
Definition is_excluded (id : string) (excludeId : option string) : bool :=
  match excludeId with
  | Some e => String.eqb id e
  | None => false
  end.

(** The [for] loop of [findSimilar] over [Object.keys(cacheItems)]: every
    [id] it reads is an own key, so [cacheItems[id]] is the own property;
    [results.push] appends. *)
Fixpoint findSimilar_loop (queryData : HashData.t)
    (cacheItems : JsObject.t HashData.t) (thresholdNorm : R)
    (excludeId : option string) (searchMode : string)
    (ids : list string) (results : list ScoredResult) : list ScoredResult :=
  match ids with
  | [] => results
  | id :: ids' =>
      let continue :=
        findSimilar_loop queryData cacheItems thresholdNorm excludeId
                         searchMode ids' in
      if is_excluded id excludeId then continue results
      else
        match JsObject.get id cacheItems with
        | None => continue results
        | Some candidate =>
            if String.eqb searchMode MODE_CLIP
               && Js.falsy_array (HashData.embedding candidate)
            then continue results
            else if String.eqb searchMode MODE_PHASH
                    && Js.falsy_string (HashData.pHash candidate)
            then continue results
            else
              let score := combinedScore queryData candidate (Some searchMode) in
              if Rle_dec thresholdNorm score
              then continue (results ++ [mkResult id score])
              else continue results
        end
  end.

Definition findSimilar (queryData : HashData.t)
    (cacheItems : JsObject.t HashData.t) (threshold : R) (maxResults : Z)
    (excludeId : option string) (mode : option string) : list ScoredResult :=
  let thresholdNorm := threshold / 100 in
  (* mode || Similarity.MODE_PHASH *)
  let searchMode :=
    match mode with
    | Some (String c m) => String c m
    | _ => MODE_PHASH
    end in
  let ids := JsObject.keys cacheItems in
  let results :=
    findSimilar_loop queryData cacheItems thresholdNorm excludeId searchMode
                     ids [] in
  let results := Js.sort (fun a b => score b - score a) results in
  Js.slice0 results maxResults.

(** A well-formed perceptual hash: 64 hexadecimal characters. *)
Fixpoint all_hex (s : string) : bool :=
  match s with
  | EmptyString => true
  | String c s' =>
      match Js.parseInt16 c with
      | Some _ => all_hex s'
      | None => false
      end
  end.

Definition well_formed_hash (s : string) : Prop :=
  String.length s = 64%nat /\ all_hex s = true.

(** The magnitude of a vector, [Math.sqrt] of the sum of its squares. *)
Definition sum_squares (v : list R) : R :=
  fold_right (fun x acc => x * x + acc) 0 v.

Definition magnitude (v : list R) : R := sqrt (sum_squares v).

(** A vector that is missing, or differs in length from the other one. *)
Definition missing (A : Type) (v : option A) : Prop := v = None.

Definition lengths_differ (a b : option (list R)) : Prop :=
  exists v w, a = Some v /\ b = Some w /\ List.length v <> List.length w.

Definition zero_magnitude (a : option (list R)) : Prop :=
  exists v, a = Some v /\ magnitude v = 0.

Definition all_zero (v : list R) : Prop := Forall (fun x => x = 0) v.

End Similarity.

(* ------------------------------------------------------------------ *)
(** ** hasher.js *)

Module Hasher.
Local Open Scope R_scope.

Definition PHASH_SIZE : nat := 32.
Definition PHASH_BITS : nat := 16.
Definition HIST_SIZE : nat := 64.
Definition BINS_PER_CHANNEL : Z := 4.

(** One cell of [imageData.data], a [Uint8ClampedArray], as a number. *)
Definition byte_value (v : Byte.byte) : Z := Z.of_N (Byte.to_N v).

(** [Math.min(Math.floor(v / 64), 3)] *)
Definition channel_bin (v : Byte.byte) : Z :=
  Z.min (byte_value v / 64) 3.

(** [histogram[binIndex]++; pixelCount++;].  While the loop runs the cells
    of the [Float32Array] hold counts, integers up to 2^24; [pixelCount] is
    a number of its own. *)
Definition count_pixel (r g b : Byte.byte) (histogram : list Z)
    (pixelCount : Z) : list Z * Z :=
  let rBin := channel_bin r in
  let gBin := channel_bin g in
  let bBin := channel_bin b in
  let binIndex := (rBin * 16 + gBin * 4 + bBin)%Z in
  (Js.update_at Js.float32_succ (Z.to_nat binIndex) histogram,
   (pixelCount + 1)%Z).

(** The pixel loop of [computeColorHistogram], four cells per step.  A
    buffer from [getImageData] always holds whole RGBA pixels; for a
    trailing partial group the reads past the end are [undefined]:
    [undefined < 128] is false, so the group is counted, and a missing
    colour channel makes the bin index NaN, which writes no cell. *)
Fixpoint histogram_loop (data : list Byte.byte) (histogram : list Z)
    (pixelCount : Z) : list Z * Z :=
  match data with
  | r :: g :: b :: alpha :: rest =>
      if (byte_value alpha <? 128)%Z
      then histogram_loop rest histogram pixelCount
      else
        let '(histogram', pixelCount') :=
          count_pixel r g b histogram pixelCount in
        histogram_loop rest histogram' pixelCount'
  | [r; g; b] => count_pixel r g b histogram pixelCount
  | [_; _] => (histogram, (pixelCount + 1)%Z)
  | [_] => (histogram, (pixelCount + 1)%Z)
  | [] => (histogram, pixelCount)
  end.

(** [computeColorHistogram] on the decoded [imageData.data]: the
    normalisation divides each cell of the [Float32Array] in place, and
    [Array.from] returns the cells as numbers. *)
Definition computeColorHistogram (data : list Byte.byte) : list R :=
  let totalBins := Z.to_nat (BINS_PER_CHANNEL ^ 3) in
  let '(histogram, pixelCount) :=
    histogram_loop data (repeat 0%Z totalBins) 0%Z in
  if (0 <? pixelCount)%Z
  then map (fun count => Js.float32_quotient count pixelCount) histogram
  else map IZR histogram.

(** [computeHashes]: both hashes or a rejected promise.  [loadImage] is the
    canvas decoder at a requested size and [bmvbhash] the blockhash
    library. *)
Section Hashes.
Variable loadImage : string -> nat -> option (list Byte.byte).
Variable bmvbhash : list Byte.byte -> nat -> string.

Definition computePHash (filePath : string) : option string :=
  match loadImage filePath PHASH_SIZE with
  | Some data => Some (bmvbhash data PHASH_BITS)
  | None => None
  end.

Definition computeHashes (filePath : string) : option (string * list R) :=
  match computePHash filePath, loadImage filePath HIST_SIZE with
  | Some pHash, Some data => Some (pHash, computeColorHistogram data)
  | _, _ => None
  end.
End Hashes.

(** The sum of a histogram. *)
Definition total (histogram : list R) : R :=
  fold_right Rplus 0 histogram.



End Hasher.

(* ------------------------------------------------------------------ *)
(** ** cache.js *)

Module Cache.

Definition CACHE_VERSION : Z := 3.

(** The document kept in [Cache._data] and written to the cache file. *)
Record CacheDocument := mkDoc {
  version : Z;
  libraryPath : string;
  items : JsObject.t HashData.t
}.

(** What [JSON.parse] makes of the cache file: it throws, or it yields a
    document. *)
Inductive FileContent :=
| Unparsable
| Json (parsed : CacheDocument).

(** The module state and the part of the file system it touches: [file] is
    the file at [Cache._cacheFile] ([None] when it does not exist) and
    [writable] tells whether [fs.writeFileSync] succeeds. *)
Record State := mkState {
  _data : option CacheDocument;
  _saveTimer : bool;
  _dirty : bool;
  file : option FileContent;
  writable : bool
}.

Definition with_data (st : State) (d : option CacheDocument) : State :=
  mkState d (_saveTimer st) (_dirty st) (file st) (writable st).

Definition with_items (d : CacheDocument) (o : JsObject.t HashData.t)
    : CacheDocument :=
  mkDoc (version d) (libraryPath d) o.

Definition _load (libraryPath' : string) (st : State) : State :=
  let fresh := mkDoc CACHE_VERSION libraryPath' JsObject.empty in
  match file st with
  | Some (Json parsed) =>
      if (version parsed =? CACHE_VERSION)%Z
         && String.eqb (libraryPath parsed) libraryPath'
      then with_data st (Some parsed)
      else with_data st (Some fresh)
  | Some Unparsable => with_data st (Some fresh)
  | None => with_data st (Some fresh)
  end.

Definition _doSave (st : State) : State :=
  (* clearTimeout *)
  let st := mkState (_data st) false (_dirty st) (file st) (writable st) in
  match _data st with
  | None => st
  | Some d =>
      if negb (_dirty st) then st
      else if writable st
      then mkState (_data st) (_saveTimer st) false (Some (Json d)) (writable st)
      else st
  end.

Definition save (immediate : bool) (st : State) : State :=
  let st := mkState (_data st) (_saveTimer st) true (file st) (writable st) in
  if immediate then _doSave st
  else mkState (_data st) true (_dirty st) (file st) (writable st).

(** The debounce timer set by [save] fires. *)
Definition timer_fires (st : State) : State :=
  if _saveTimer st then _doSave st else st.

(** [Cache._data.items[itemId]] *)
Definition lookup (itemId : string) (d : CacheDocument) : option HashData.t :=
  JsObject.read HashData.inherited itemId (items d).

Definition getHash (itemId : string) (st : State) : option HashData.t :=
  match _data st with
  | None => None
  | Some d => lookup itemId d
  end.

Definition hasValidHash (itemId : string) (st : State) : bool :=
  match _data st with
  | None => false
  | Some d =>
      match lookup itemId d with
      | None => false
      | Some cached =>
          negb (Js.falsy_string (HashData.pHash cached))
          && match HashData.colorHistogram cached with
             | Some h => (0 <? List.length h)%nat
             | None => false
             end
      end
  end.

Definition setHash (itemId : string) (hashData : HashData.t) (st : State)
    : State :=
  match _data st with
  | None => st
  | Some d =>
      save false
        (with_data st (Some (with_items d (JsObject.set itemId hashData (items d)))))
  end.

Definition getAllItems (st : State) : JsObject.t HashData.t :=
  match _data st with
  | None => JsObject.empty
  | Some d => items d
  end.

(** [validSet.has(id)] for [validSet = new Set(validIds)]. *)
Definition has (validSet : list string) (id : string) : bool :=
  existsb (String.eqb id) validSet.

(** The loop of [removeOrphans] over the keys taken before it starts. *)
Fixpoint removeOrphans_loop (validSet : list string) (cacheIds : list string)
    (o : JsObject.t HashData.t) (removed : Z) : JsObject.t HashData.t * Z :=
  match cacheIds with
  | [] => (o, removed)
  | id :: cacheIds' =>
      if negb (has validSet id)
      then removeOrphans_loop validSet cacheIds' (JsObject.delete id o)
                              (removed + 1)%Z
      else removeOrphans_loop validSet cacheIds' o removed
  end.

Definition removeOrphans (validIds : list string) (st : State) : State :=
  match _data st with
  | None => st
  | Some d =>
      let cacheIds := JsObject.keys (items d) in
      let '(o, removed) := removeOrphans_loop validIds cacheIds (items d) 0%Z in
      let st := with_data st (Some (with_items d o)) in
      if (0 <? removed)%Z then save false st else st
  end.

Definition getCachedCount (st : State) : nat :=
  match _data st with
  | None => 0%nat
  | Some d => List.length (JsObject.keys (items d))
  end.

Definition clear (st : State) : State :=
  match _data st with
  | None => st
  | Some d => save true (with_data st (Some (with_items d JsObject.empty)))
  end.

Definition flush (st : State) : State := _doSave st.





End Cache.

(* ------------------------------------------------------------------ *)
(** ** indexer.js *)

Module Indexer.

Definition IMAGE_EXTENSIONS : list string :=
  ["jpg"; "jpeg"; "png"; "gif"; "bmp"; "webp"; "svg";
   "tiff"; "tif"; "ico"; "avif"]%string.

Definition CHUNK_SIZE : nat := 10.
Definition EMBED_CHUNK_SIZE : nat := 1.

Definition isImageType (ext : option string) : bool :=
  if Js.falsy_string ext then false
  else
    match ext with
    | Some e => existsb (String.eqb (Js.toLowerCase e)) IMAGE_EXTENSIONS
    | None => false
    end.

Definition getHashPath (item : Item.t) : option string :=
  if negb (Js.falsy_string (Item.thumbnailPath item))
  then Item.thumbnailPath item
  else if negb (Js.falsy_string (Item.filePath item))
  then Item.filePath item
  else None.

(** One call [onProgress(processed, total, phase)]. *)
Record Progress := mkProgress {
  processed : Z;
  total : Z;
  phase : string
}.

Section Run.

(** [Hasher.computeHashes(path)], [None] when it rejects. *)
Variable computeHashes : string -> option (string * list R).

(** [Embedder.isReady()] and [Embedder.computeEmbedding(path)]. *)
Variable Embedder_isReady : bool.
Variable computeEmbedding : string -> option (list R).

(** [Indexer._shouldStop] as the loop of the given phase reads it at index
    [i]: [Indexer.stop()] may run while the indexer awaits. *)
Variable _shouldStop : string -> nat -> bool.

(** The body of the [chunk.map] callback of [_indexPhash]. *)
Definition phash_item (st : Cache.State) (item : Item.t) : Cache.State :=
  match getHashPath item with
  | None => st
  | Some hashPath =>
      match computeHashes hashPath with
      | None => st
      | Some (pHash, colorHistogram) =>
          Cache.setHash (Item.id item)
            (HashData.mk (Some pHash) (Some colorHistogram) None (Item.ext item))
            st
      end
  end.

(** The chunk loop of [_indexPhash], from index [i]; [alreadyCached] and
    [totalImages] only feed the progress reports. *)
Fixpoint phash_loop (fuel : nat) (toIndex : list Item.t)
    (alreadyCached totalImages : Z) (i : nat) (processed : Z)
    (st : Cache.State) (log : list Progress) : Cache.State * list Progress :=
  match fuel with
  | O => (st, log)
  | S fuel' =>
      if negb (i <? List.length toIndex)%nat then (st, log)
      else if _shouldStop "phash" i then (st, log)
      else
        let chunk := Js.slice toIndex i CHUNK_SIZE in
        let st := fold_left phash_item chunk st in
        let processed := (processed + Z.of_nat (List.length chunk))%Z in
        let log :=
          log ++ [mkProgress (alreadyCached + processed) totalImages "phash"] in
        phash_loop fuel' toIndex alreadyCached totalImages
                   (i + CHUNK_SIZE) processed st log
  end.

Definition _indexPhash (items : list Item.t) (st : Cache.State)
    : Cache.State * list Progress :=
  let toIndex :=
    filter (fun item =>
              if negb (isImageType (Item.ext item)) then false
              else negb (Cache.hasValidHash (Item.id item) st)) items in
  let totalImages :=
    Z.of_nat (List.length (filter (fun item => isImageType (Item.ext item)) items)) in
  match toIndex with
  | [] => (st, [])
  | _ :: _ =>
      let validIds := map Item.id items in
      let st := Cache.removeOrphans validIds st in
      let alreadyCached := (totalImages - Z.of_nat (List.length toIndex))%Z in
      let log := [mkProgress alreadyCached totalImages "phash"] in
      let '(st, log) :=
        phash_loop (List.length toIndex) toIndex alreadyCached totalImages
                   0 0%Z st log in
      (Cache.flush st, log)
  end.

(** The write of [_indexClip]: [{ ...existing, embedding: embedding }]. *)
Definition with_embedding (existing : HashData.t) (embedding : list R)
    : HashData.t :=
  HashData.mk (HashData.pHash existing) (HashData.colorHistogram existing)
              (Some embedding) (HashData.ext existing).

(** The item loop of [_indexClip] over the items left from index [i].  An
    item without a path leaves the iteration by [continue], before the
    progress report. *)
Fixpoint clip_loop (toEmbed : list Item.t) (alreadyEmbedded totalImages : Z)
    (i : nat) (processed : Z) (st : Cache.State) (log : list Progress)
    : Cache.State * list Progress :=
  match toEmbed with
  | [] => (st, log)
  | item :: toEmbed' =>
      if _shouldStop "clip" i then (st, log)
      else
        match getHashPath item with
        | None =>
            clip_loop toEmbed' alreadyEmbedded totalImages
                      (i + EMBED_CHUNK_SIZE) processed st log
        | Some hashPath =>
            let st :=
              match computeEmbedding hashPath with
              | None => st
              | Some embedding =>
                  let existing :=
                    match Cache.getHash (Item.id item) st with
                    | Some r => r
                    | None => HashData.empty
                    end in
                  Cache.setHash (Item.id item)
                                (with_embedding existing embedding) st
              end in
            let processed := (processed + 1)%Z in
            let log :=
              log ++ [mkProgress (alreadyEmbedded + processed) totalImages "clip"] in
            clip_loop toEmbed' alreadyEmbedded totalImages
                      (i + EMBED_CHUNK_SIZE) processed st log
        end
  end.

Definition _indexClip (items : list Item.t) (st : Cache.State)
    : Cache.State * list Progress :=
  if negb Embedder_isReady then (st, [])
  else
    let toEmbed :=
      filter (fun item =>
                if negb (isImageType (Item.ext item)) then false
                else
                  match Cache.getHash (Item.id item) st with
                  | Some cached => Js.falsy_array (HashData.embedding cached)
                  | None => false
                  end) items in
    let totalImages :=
      Z.of_nat (List.length (filter (fun item => isImageType (Item.ext item)) items)) in
    match toEmbed with
    | [] => (st, [])
    | _ :: _ =>
        let alreadyEmbedded := (totalImages - Z.of_nat (List.length toEmbed))%Z in
        let log := [mkProgress alreadyEmbedded totalImages "clip"] in
        let '(st, log) :=
          clip_loop toEmbed alreadyEmbedded totalImages 0 0%Z st log in
        (Cache.flush st, log)
    end.

(** The indexer's own flags. *)
Record Flags := mkFlags {
  _isRunning : bool;
  _phase : option string
}.

(** [indexLibrary]: both phases, unless a run is active.  [_shouldStop] is
    read once between the phases. *)
Definition indexLibrary (ix : Flags) (items : list Item.t) (st : Cache.State)
    : Flags * Cache.State * list Progress :=
  if _isRunning ix then (ix, st, [])
  else
    let '(st, log1) := _indexPhash items st in
    let '(st, log2) :=
      if negb (_shouldStop "indexLibrary" 0) then _indexClip items st
      else (st, []) in
    (mkFlags false None, st, log1 ++ log2).

End Run.

(** [r'] carries the fingerprint of [r], and an embedding if [r] has one. *)
Definition keeps_fingerprint (r r' : HashData.t) : Prop :=
  HashData.pHash r' = HashData.pHash r /\
  HashData.colorHistogram r' = HashData.colorHistogram r /\
  HashData.ext r' = HashData.ext r /\
  (HashData.embedding r <> None -> HashData.embedding r' <> None).

(** Every record of [st] is still in [st'] with its fingerprint. *)
Definition preserves (st st' : Cache.State) : Prop :=
  forall k r, Cache.getHash k st = Some r ->
              exists r', Cache.getHash k st' = Some r' /\ keeps_fingerprint r r'.

(** A record as the fingerprint phase writes it: a fingerprint and no
    embedding. *)
Definition fingerprint_only (r : HashData.t) : Prop :=
  HashData.pHash r <> None /\ HashData.colorHistogram r <> None
  /\ HashData.embedding r = None.

(** The record of [k] in [st'] is the one of [st], or one written by the
    fingerprint phase for an item of [toIndex]. *)
Definition kept_or_written (k : string) (toIndex : list Item.t)
    (st st' : Cache.State) : Prop :=
  Cache.getHash k st' = Cache.getHash k st
  \/ ((exists item, In item toIndex /\ Item.id item = k)
      /\ exists r', Cache.getHash k st' = Some r' /\ fingerprint_only r').

(** A cache record is an orphan when its id is not an id of the library. *)
Definition orphan (items : list Item.t) (itemId : string) : Prop :=
  ~ In itemId (map Item.id items).

End Indexer.

(* ------------------------------------------------------------------ *)
(** ** embedder.js *)

(** The Transformers.js variant of embedder.js. *)
Module ClipEmbedder.
Local Open Scope R_scope.

Definition EMBEDDING_DIM : nat := 512.


End ClipEmbedder.

(* ------------------------------------------------------------------ *)
(** ** main.js *)

Module App.



Section Search.

(** [Hasher.computeHashes] and [Embedder.computeEmbedding], [None] when
    they reject. *)
Variable computeHashes : string -> option (string * list R).
Variable computeEmbedding : string -> option (list R).


End Search.

End App.

(* ------------------------------------------------------------------ *)
(** ** Reference notions for the properties *)

Module Spec.
Local Open Scope R_scope.

(** The value the distance loop sees in a character: its hexadecimal digit,
    0 for any other character. *)
Definition digit (c : ascii) : Z := Js.ToInt32 (Js.parseInt16 c).

Definition digits (s : string) : list Z := map digit (list_ascii_of_string s).

(** The number of positions, among the four low bits, where [x] and [y]
    differ. *)
Definition bit_diff (x y : Z) : Z :=
  (Z.b2z (xorb (Z.testbit x 0) (Z.testbit y 0))
   + Z.b2z (xorb (Z.testbit x 1) (Z.testbit y 1))
   + Z.b2z (xorb (Z.testbit x 2) (Z.testbit y 2))
   + Z.b2z (xorb (Z.testbit x 3) (Z.testbit y 3)))%Z.

Fixpoint bits_apart (xs ys : list Z) : Z :=
  match xs, ys with
  | x :: xs', y :: ys' => (bit_diff x y + bits_apart xs' ys')%Z
  | _, _ => 0%Z
  end.

(** The dot product of two vectors, over their common prefix. *)
Fixpoint dot (a b : list R) : R :=
  match a, b with
  | x :: a', y :: b' => x * y + dot a' b'
  | _, _ => 0
  end.

(** A record as the indexer writes them: a hash of at most 64 characters
    and a histogram with every entry between 0 and 1. *)
Definition well_formed (r : HashData.t) : Prop :=
  (Js.string_length (HashData.pHash r) <= 64)%nat /\
  (forall h, HashData.colorHistogram r = Some h ->
             Forall (fun x => 0 <= x <= 1) h).

(** The mode [findSimilar] searches in: [mode || MODE_PHASH]. *)
Definition search_mode (mode : option string) : string :=
  match mode with
  | Some (String c m) => String c m
  | _ => Similarity.MODE_PHASH
  end.

(** The pool entry [k] passes every test of the [findSimilar] loop. *)
Definition qualifies (queryData : HashData.t)
    (cacheItems : JsObject.t HashData.t) (threshold : R)
    (excludeId : option string) (mode : option string)
    (k : string) (candidate : HashData.t) : Prop :=
  JsObject.get k cacheItems = Some candidate /\
  Some k <> excludeId /\
  (search_mode mode = Similarity.MODE_CLIP ->
   HashData.embedding candidate <> None) /\
  (search_mode mode = Similarity.MODE_PHASH ->
   Js.falsy_string (HashData.pHash candidate) = false) /\
  threshold / 100
  <= Similarity.combinedScore queryData candidate (Some (search_mode mode)).

(** The result [r] has exactly the score [s]. *)
Definition has_score (s : R) (r : Similarity.ScoredResult) : bool :=
  if Req_dec_T (Similarity.score r) s then true else false.

(** The images of the library: the items [isImageType] accepts. *)
Definition images (items : list Item.t) : list Item.t :=
  filter (fun item => Indexer.isImageType (Item.ext item)) items.

(** Every answer of the hasher is a usable fingerprint: a hash and a
    histogram that are not empty. *)
Definition hasher_sound
    (computeHashes : string -> option (string * list R)) : Prop :=
  forall path pHash colorHistogram,
    computeHashes path = Some (pHash, colorHistogram) ->
    pHash <> EmptyString /\ colorHistogram <> [].

(** The item has a path, and [f] resolves for it. *)
Definition resolves (A : Type) (f : string -> option A) (item : Item.t)
    : Prop :=
  exists path, Indexer.getHashPath item = Some path /\ f path <> None.

(** The item has a path to hash: a thumbnail or a file. *)
Definition has_path (item : Item.t) : bool :=
  match Indexer.getHashPath item with
  | Some _ => true
  | None => false
  end.

End Spec.

(* ================================================================== *)
(** * Properties *)

Unset Implicit Arguments.

(* ------------------------------------------------------------------ *)
(** ** Hamming distance and pHash score *)

Section HammingFacts.
Import Similarity.
Local Open Scope Z_scope.

Lemma parseInt16_range (c : ascii) :
  0 <= Js.ToInt32 (Js.parseInt16 c) < 2 ^ 4.
Proof.
  unfold Js.parseInt16.
  set (n := Z.of_N (N_of_ascii c)).
  destruct ((48 <=? n) && (n <=? 57)) eqn:E1.
  - apply andb_prop in E1 as [? ?]. simpl. lia.
  - destruct ((97 <=? n) && (n <=? 102)) eqn:E2.
    + apply andb_prop in E2 as [? ?]. simpl. lia.
    + destruct ((65 <=? n) && (n <=? 70)) eqn:E3.
      * apply andb_prop in E3 as [? ?]. simpl. lia.
      * simpl. lia.
Qed.

Lemma lxor_range (k a b : Z) :
  0 <= k -> 0 <= a < 2 ^ k -> 0 <= b < 2 ^ k -> 0 <= Z.lxor a b < 2 ^ k.
Proof.
  intros Hk Ha Hb.
  assert (Hnn : 0 <= Z.lxor a b) by (apply Z.lxor_nonneg; lia).
  split; [exact Hnn|].
  destruct (Z.eq_dec (Z.lxor a b) 0) as [E|E].
  - rewrite E. apply Z.pow_pos_nonneg; lia.
  - assert (Hk' : 0 < k).
    { destruct (Z.eq_dec k 0) as [->|]; [|lia].
      simpl in Ha, Hb. assert (a = 0) by lia. assert (b = 0) by lia.
      subst. simpl in E. lia. }
    apply Z.log2_lt_pow2; [lia|].
    eapply Z.le_lt_trans; [apply Z.log2_lxor; lia|].
    apply Z.max_lub_lt.
    + destruct (Z.eq_dec a 0) as [->|]; [simpl; lia|].
      apply Z.log2_lt_pow2; lia.
    + destruct (Z.eq_dec b 0) as [->|]; [simpl; lia|].
      apply Z.log2_lt_pow2; lia.
Qed.

(** The bit loop adds at most one per bit of [xor]. *)
Lemma while_xor_range (k fuel : nat) :
  forall xor distance,
    0 <= xor < 2 ^ Z.of_nat k ->
    distance <= while_xor fuel xor distance <= distance + Z.of_nat k.
Proof.
  revert k. induction fuel as [|fuel IH]; intros k xor distance Hx; simpl.
  - lia.
  - destruct (xor =? 0) eqn:E; [lia|].
    apply Z.eqb_neq in E.
    destruct k as [|k].
    + simpl in Hx. lia.
    + assert (Hs : 0 <= Z.shiftr xor 1 < 2 ^ Z.of_nat k).
      { rewrite Z.shiftr_div_pow2 by lia. change (2 ^ 1) with 2.
        rewrite Nat2Z.inj_succ, Z.pow_succ_r in Hx by lia.
        split; [apply Z.div_pos; lia|].
        apply Z.div_lt_upper_bound; lia. }
      assert (Hl : 0 <= Z.land xor 1 <= 1).
      { assert (El : Z.land xor 1 = xor mod 2).
        { change 1 with (Z.ones 1). rewrite Z.land_ones by lia. reflexivity. }
        rewrite El. pose proof (Z.mod_pos_bound xor 2). lia. }
      specialize (IH k (Z.shiftr xor 1) (distance + Z.land xor 1) Hs).
      lia.
Qed.

(** The fuel of the bit loop is never the reason it stops: with as many
    steps as [xor] has bits the loop has reached [xor = 0]. *)
Lemma while_xor_fuel (k : nat) :
  forall xor distance extra,
    0 <= xor < 2 ^ Z.of_nat k ->
    while_xor (k + extra) xor distance = while_xor k xor distance.
Proof.
  induction k as [|k IH]; intros xor distance extra Hx.
  - simpl in Hx. assert (xor = 0) by lia. subst.
    destruct extra; reflexivity.
  - simpl. destruct (xor =? 0) eqn:E; [reflexivity|].
    apply IH. rewrite Z.shiftr_div_pow2 by lia. change (2 ^ 1) with 2.
    rewrite Nat2Z.inj_succ, Z.pow_succ_r in Hx by lia.
    split; [apply Z.div_pos; lia|].
    apply Z.div_lt_upper_bound; lia.
Qed.

Lemma hamming_loop_range (hash1 : string) :
  forall hash2 distance,
    distance <= hamming_loop hash1 hash2 distance
             <= distance + 4 * Z.of_nat (String.length hash1).
Proof.
  induction hash1 as [|c1 rest1 IH]; intros hash2 distance.
  - simpl. lia.
  - destruct hash2 as [|c2 rest2].
    + simpl hamming_loop. lia.
    + cbn [hamming_loop String.length].
      set (xor := Z.lxor _ _).
      assert (Hx : 0 <= xor < 2 ^ Z.of_nat 4).
      { apply lxor_range; [lia| apply parseInt16_range ..]. }
      pose proof (while_xor_range 4 32 xor distance Hx) as Hw.
      specialize (IH rest2 (while_xor 32 xor distance)).
      lia.
Qed.

Lemma hamming_loop_self (hash : string) :
  forall distance, hamming_loop hash hash distance = distance.
Proof.
  induction hash as [|c rest IH]; intros distance.
  - reflexivity.
  - cbn [hamming_loop]. rewrite Z.lxor_nilpotent.
    change (while_xor 32 0 distance) with distance. apply IH.
Qed.

Lemma hamming_loop_sym (hash1 : string) :
  forall hash2 distance,
    hamming_loop hash1 hash2 distance = hamming_loop hash2 hash1 distance.
Proof.
  induction hash1 as [|c1 rest1 IH]; intros [|c2 rest2] distance;
    cbn [hamming_loop]; try reflexivity.
  rewrite (Z.lxor_comm (Js.ToInt32 (Js.parseInt16 c2))). apply IH.
Qed.

Lemma hammingDistance_sym (a b : option string) :
  hammingDistance a b = hammingDistance b a.
Proof.
  destruct a as [s1|], b as [s2|]; try reflexivity.
  unfold hammingDistance.
  rewrite (Nat.eqb_sym (String.length s2)).
  rewrite (orb_comm (Js.falsy_string (Some s2))).
  destruct (_ || _ || _); [reflexivity|apply hamming_loop_sym].
Qed.

Lemma hammingDistance_range (a b : option string) :
  0 <= hammingDistance a b
    <= Z.max MAX_HAMMING_BITS (4 * Z.of_nat (Js.string_length a)).
Proof.
  unfold hammingDistance, MAX_HAMMING_BITS.
  destruct a as [s1|], b as [s2|]; simpl Js.string_length; try lia.
  destruct (_ || _ || _); [lia|].
  pose proof (hamming_loop_range s1 s2 0). lia.
Qed.

End HammingFacts.

Section PHashScoreFacts.
Import Similarity.

Example hammingDistance_example :
  hammingDistance (Some "f0a1"%string) (Some "0fA3"%string) = 9%Z.
Proof. reflexivity. Qed.

Example hammingDistance_not_hex :
  hammingDistance (Some "zz"%string) (Some "1g"%string) = 1%Z.
Proof. reflexivity. Qed.

(** C8. [hammingDistance(h, h)] is 0 for every well-formed hash [h] of 64
    hexadecimal characters; [hammingDistance] is symmetric on all inputs;
    and it is the maximum distance, 256, whenever the two strings differ in
    length or one of them is missing (undefined or empty). *)
Theorem hammingDistance_self_symmetric_max (h : string) (a b : option string) :
  (well_formed_hash h -> hammingDistance (Some h) (Some h) = 0%Z) /\
  hammingDistance a b = hammingDistance b a /\
  (Js.string_length a <> Js.string_length b
   \/ Js.falsy_string a = true \/ Js.falsy_string b = true ->
   hammingDistance a b = 256%Z).
Proof.
  split; [|split].
  - intros [Hlen _]. unfold hammingDistance.
    destruct h as [|c h']; [discriminate Hlen|].
    rewrite Nat.eqb_refl. cbn [Js.falsy_string orb negb].
    apply hamming_loop_self.
  - apply hammingDistance_sym.
  - intros H. unfold hammingDistance, MAX_HAMMING_BITS.
    destruct a as [s1|], b as [s2|]; try reflexivity.
    destruct H as [H|[H|H]].
    + simpl in H. apply Nat.eqb_neq in H. rewrite H.
      rewrite !orb_true_r. reflexivity.
    + rewrite H. reflexivity.
    + rewrite H, orb_true_r. reflexivity.
Qed.

Lemma hammingDistance_self_symmetric_max_witness :
  hammingDistance
    (Some "00ff00ff00ff00ff0123456789abcdefABCDEF00000000001111111122222222"%string)
    (Some "00ff00ff00ff00ff0123456789abcdefABCDEF00000000001111111122222222"%string)
  = 0%Z
  /\ hammingDistance (Some "abc"%string) None = 256%Z.
Proof.
  split.
  - apply (proj1 (hammingDistance_self_symmetric_max
                    "00ff00ff00ff00ff0123456789abcdefABCDEF00000000001111111122222222"
                    None None)).
    split; reflexivity.
  - apply (proj2 (proj2 (hammingDistance_self_symmetric_max
                           EmptyString (Some "abc"%string) None))).
    right. right. reflexivity.
Defined.

Local Open Scope R_scope.

(** C7. For hash strings of the 256-bit format (at most 64 characters),
    [pHashScore(h1, h2) = 1 - hammingDistance(h1, h2) / 256] lies in [0, 1],
    and a larger Hamming distance always gives a strictly smaller score. *)
Theorem pHashScore_bounded_decreasing (h1 h2 h3 h4 : option string) :
  (Js.string_length h1 <= 64)%nat ->
  pHashScore h1 h2 = 1 - IZR (hammingDistance h1 h2) / 256 /\
  0 <= pHashScore h1 h2 <= 1 /\
  ((hammingDistance h1 h2 < hammingDistance h3 h4)%Z ->
   pHashScore h3 h4 < pHashScore h1 h2).
Proof.
  intros Hlen. unfold pHashScore, MAX_HAMMING_BITS.
  pose proof (hammingDistance_range h1 h2) as [Hlo Hhi].
  unfold MAX_HAMMING_BITS in Hhi.
  assert (Hd : (hammingDistance h1 h2 <= 256)%Z) by lia.
  apply IZR_le in Hlo, Hd.
  split; [reflexivity|]. split; [lra|].
  intros Hlt. apply IZR_lt in Hlt. lra.
Qed.

Lemma pHashScore_bounded_decreasing_witness :
  0 <= pHashScore (Some "f0"%string) (Some "0f"%string) <= 1 /\
  pHashScore (Some "f0"%string) (Some "0f"%string)
  < pHashScore (Some "f0"%string) (Some "f1"%string).
Proof.
  split.
  - apply (pHashScore_bounded_decreasing
             (Some "f0"%string) (Some "0f"%string) None None).
    simpl. lia.
  - apply (pHashScore_bounded_decreasing
             (Some "f0"%string) (Some "f1"%string)
             (Some "f0"%string) (Some "0f"%string)).
    + simpl. lia.
    + vm_compute. reflexivity.
Defined.

(** The length bound is needed: [MAX_HAMMING_BITS] is fixed at 256, so a
    pair of strings longer than 64 characters can be further apart. *)
Example pHashScore_long_strings :
  pHashScore
    (Some "fffffffffffffffffffffffffffffffffffffffffffffffffffffffffffffffff"%string)
    (Some "00000000000000000000000000000000000000000000000000000000000000000"%string)
  < 0.
Proof.
  unfold pHashScore.
  replace (hammingDistance _ _) with 260%Z by (vm_compute; reflexivity).
  unfold MAX_HAMMING_BITS. lra.
Qed.

End PHashScoreFacts.

(* ------------------------------------------------------------------ *)
(** ** Histogram and embedding similarity *)

Section VectorFacts.
Import Similarity.
Local Open Scope R_scope.

Lemma length_differs_sym {A : Type} (a b : list A) :
  Js.length_differs a b = Js.length_differs b a.
Proof. unfold Js.length_differs. now rewrite Nat.eqb_sym. Qed.

Lemma length_differs_true {A : Type} (a b : list A) :
  List.length a <> List.length b -> Js.length_differs a b = true.
Proof.
  intros H. unfold Js.length_differs.
  apply Nat.eqb_neq in H. now rewrite H.
Qed.

Lemma length_differs_false {A : Type} (a b : list A) :
  Js.length_differs a b = false -> List.length a = List.length b.
Proof.
  unfold Js.length_differs. intros H.
  apply negb_false_iff in H. now apply Nat.eqb_eq.
Qed.

(** Swapping the two histograms swaps the two magnitudes and keeps the dot
    product. *)
Lemma histogram_loop_swap (hist1 : list R) :
  forall hist2 dot mag1 mag2,
    histogram_loop hist2 hist1 (dot, mag2, mag1) =
    let '(dot', mag1', mag2') := histogram_loop hist1 hist2 (dot, mag1, mag2) in
    (dot', mag2', mag1').
Proof.
  induction hist1 as [|x rest1 IH]; intros [|y rest2] dot mag1 mag2;
    try reflexivity.
  cbn [histogram_loop]. rewrite (Rmult_comm y x). apply IH.
Qed.

(** On equal lengths the loop adds the squares of each vector. *)
Lemma histogram_loop_magnitudes (hist1 : list R) :
  forall hist2 dot mag1 mag2,
    List.length hist1 = List.length hist2 ->
    exists dot',
      histogram_loop hist1 hist2 (dot, mag1, mag2) =
      (dot', mag1 + sum_squares hist1, mag2 + sum_squares hist2).
Proof.
  induction hist1 as [|x rest1 IH]; intros [|y rest2] dot mag1 mag2 Hlen;
    try discriminate Hlen.
  - exists dot. simpl. now rewrite !Rplus_0_r.
  - injection Hlen as Hlen. cbn [histogram_loop].
    destruct (IH rest2 (dot + x * y) (mag1 + x * x) (mag2 + y * y) Hlen)
      as [dot' E].
    exists dot'. rewrite E. simpl. f_equal; [f_equal|]; ring.
Qed.

Lemma histogramSimilarity_sym (a b : option (list R)) :
  histogramSimilarity a b = histogramSimilarity b a.
Proof.
  destruct a as [h1|], b as [h2|]; try reflexivity.
  unfold histogramSimilarity.
  rewrite (length_differs_sym h2 h1).
  destruct (Js.length_differs h1 h2); [reflexivity|].
  rewrite (histogram_loop_swap h1 h2 0 0 0).
  destruct (histogram_loop h1 h2 (0, 0, 0)) as [[dot mag1] mag2].
  destruct (Req_dec_T (sqrt mag1) 0), (Req_dec_T (sqrt mag2) 0);
    try reflexivity.
  now rewrite (Rmult_comm (sqrt mag2)).
Qed.

Lemma histogramSimilarity_zero_magnitude (h1 h2 : list R) :
  magnitude h1 = 0 \/ magnitude h2 = 0 ->
  histogramSimilarity (Some h1) (Some h2) = 0.
Proof.
  intros H. unfold histogramSimilarity.
  destruct (Js.length_differs h1 h2) eqn:E; [reflexivity|].
  apply length_differs_false in E.
  destruct (histogram_loop_magnitudes h1 h2 0 0 0 E) as [dot ->].
  rewrite !Rplus_0_l. fold (magnitude h1) (magnitude h2).
  destruct (Req_dec_T (magnitude h1) 0); [reflexivity|].
  destruct (Req_dec_T (magnitude h2) 0); [reflexivity|].
  destruct H; contradiction.
Qed.

Lemma all_zero_magnitude (v : list R) : all_zero v -> magnitude v = 0.
Proof.
  intros H. unfold magnitude.
  replace (sum_squares v) with 0; [apply sqrt_0|].
  induction H as [|x v' Hx _ IH]; simpl; [reflexivity|].
  rewrite <- IH, Hx. ring.
Qed.

(** C9. [histogramSimilarity] is symmetric, and it is 0 whenever a vector
    has zero magnitude (so whenever one is all-zero), a vector is missing,
    or the two lengths differ. *)
Theorem histogramSimilarity_symmetric_zero (a b : option (list R)) :
  histogramSimilarity a b = histogramSimilarity b a /\
  (zero_magnitude a \/ zero_magnitude b \/ missing a \/ missing b
   \/ lengths_differ a b ->
   histogramSimilarity a b = 0) /\
  (forall v, a = Some v \/ b = Some v -> all_zero v ->
             histogramSimilarity a b = 0).
Proof.
  assert (Hzero : zero_magnitude a \/ zero_magnitude b ->
                  histogramSimilarity a b = 0).
  { intros H. destruct a as [h1|], b as [h2|]; try reflexivity.
    apply histogramSimilarity_zero_magnitude.
    destruct H as [[v [E Hv]]|[v [E Hv]]]; injection E as ->; auto. }
  split; [apply histogramSimilarity_sym|]. split.
  - intros [H|[H|[H|[H|H]]]]; auto.
    + rewrite H. reflexivity.
    + rewrite H. destruct a; reflexivity.
    + destruct H as [v [w [-> [-> Hlen]]]]. unfold histogramSimilarity.
      now rewrite (length_differs_true _ _ Hlen).
  - intros v Hv Hall. apply Hzero.
    destruct Hv as [->| ->]; [left|right]; exists v;
      auto using all_zero_magnitude.
Qed.

Lemma histogramSimilarity_symmetric_zero_witness :
  histogramSimilarity (Some [0; 0; 0]) (Some [0.5; 0.25; 0.25]) = 0 /\
  histogramSimilarity (Some [0.5; 0.5]) (Some [0.5; 0.25; 0.25]) = 0.
Proof.
  split.
  - apply (proj2 (proj2 (histogramSimilarity_symmetric_zero
                           (Some [0; 0; 0]) (Some [0.5; 0.25; 0.25])))
             [0; 0; 0]).
    + left. reflexivity.
    + repeat constructor.
  - apply (proj1 (proj2 (histogramSimilarity_symmetric_zero
                           (Some [0.5; 0.5]) (Some [0.5; 0.25; 0.25])))).
    right. right. right. right.
    exists [0.5; 0.5], [0.5; 0.25; 0.25].
    split; [reflexivity|]. split; [reflexivity|]. simpl. lia.
Defined.

Lemma histogramSimilarity_unit : histogramSimilarity (Some [1]) (Some [1]) = 1.
Proof.
  unfold histogramSimilarity. simpl.
  replace (0 + 1 * 1) with 1 by ring.
  rewrite sqrt_1.
  destruct (Req_dec_T 1 0); [lra|]. field.
Qed.

Example histogramSimilarity_same_bin :
  histogramSimilarity (Some [1; 0]) (Some [1; 0]) = 1.
Proof.
  unfold histogramSimilarity. simpl.
  replace (0 + 1 * 1 + 0 * 0) with 1 by ring.
  rewrite sqrt_1.
  destruct (Req_dec_T 1 0); [lra|]. field.
Qed.

Example histogramSimilarity_disjoint_bins :
  histogramSimilarity (Some [1; 0]) (Some [0; 1]) = 0.
Proof.
  unfold histogramSimilarity. simpl.
  replace (0 + 1 * 1 + 0 * 0) with 1 by ring.
  replace (0 + 0 * 0 + 1 * 1) with 1 by ring.
  replace (0 + 1 * 0 + 0 * 1) with 0 by ring.
  rewrite sqrt_1.
  destruct (Req_dec_T 1 0); [lra|]. field.
Qed.

Lemma clipSimilarity_mismatch (e1 e2 : option (list R)) :
  missing e1 \/ missing e2 \/ lengths_differ e1 e2 ->
  clipSimilarity e1 e2 = 0.
Proof.
  intros [H|[H|H]].
  - rewrite H. reflexivity.
  - rewrite H. destruct e1; reflexivity.
  - destruct H as [v [w [-> [-> Hlen]]]]. unfold clipSimilarity.
    now rewrite (length_differs_true _ _ Hlen).
Qed.

Lemma pHashScore_falsy (a b : option string) :
  Js.falsy_string a = true \/ Js.falsy_string b = true -> pHashScore a b = 0.
Proof.
  intros H. unfold pHashScore.
  replace (hammingDistance a b) with MAX_HAMMING_BITS.
  - unfold MAX_HAMMING_BITS. lra.
  - unfold hammingDistance.
    destruct a as [s1|], b as [s2|]; try reflexivity.
    destruct H as [H|H]; rewrite H; [|rewrite orb_true_r]; reflexivity.
Qed.

(** In hybrid mode the guarded pHash and histogram scores are the plain
    ones: a missing side already scores 0. *)
Lemma hybrid_pScore (a b : option string) :
  (if negb (Js.falsy_string a) && negb (Js.falsy_string b)
   then pHashScore a b else 0) = pHashScore a b.
Proof.
  destruct (Js.falsy_string a) eqn:Ea; simpl.
  - symmetry. apply pHashScore_falsy. now left.
  - destruct (Js.falsy_string b) eqn:Eb; simpl; [|reflexivity].
    symmetry. apply pHashScore_falsy. now right.
Qed.

Lemma hybrid_cScore (a b : option (list R)) :
  (if negb (Js.falsy_array a) && negb (Js.falsy_array b)
   then histogramSimilarity a b else 0) = histogramSimilarity a b.
Proof. destruct a, b; reflexivity. Qed.

Lemma hybrid_eScore (a b : option (list R)) :
  (if negb (Js.falsy_array a) && negb (Js.falsy_array b)
   then clipSimilarity a b else 0) = clipSimilarity a b.
Proof. destruct a, b; reflexivity. Qed.

Lemma combinedScore_hybrid_unfold (q c : HashData.t) :
  combinedScore q c (Some MODE_HYBRID) =
  if Js.falsy_array (HashData.embedding q)
     || Js.falsy_array (HashData.embedding c)
  then 0.6 * pHashScore (HashData.pHash q) (HashData.pHash c)
       + 0.4 * histogramSimilarity (HashData.colorHistogram q)
                                   (HashData.colorHistogram c)
  else PHASH_WEIGHT * pHashScore (HashData.pHash q) (HashData.pHash c)
       + COLOR_WEIGHT * histogramSimilarity (HashData.colorHistogram q)
                                            (HashData.colorHistogram c)
       + CLIP_WEIGHT * clipSimilarity (HashData.embedding q)
                                      (HashData.embedding c).
Proof.
  unfold combinedScore.
  change (mode_is (Some MODE_HYBRID) MODE_CLIP) with false.
  change (mode_is (Some MODE_HYBRID) MODE_PHASH) with false.
  cbv iota. now rewrite hybrid_pScore, hybrid_cScore, hybrid_eScore.
Qed.

End VectorFacts.

Section CombinedScoreFacts.
Import Similarity.
Local Open Scope R_scope.

(** C10. For two embeddings of different lengths, and whenever one of them
    is missing, the embedding similarity is 0 and nothing fails: in the
    embedding-only mode the combined score is 0, and in hybrid mode the
    embedding term contributes 0 (different lengths) or the score falls back
    to the pixel formula (a missing embedding). *)
Theorem clipSimilarity_mismatch_is_zero (q c : HashData.t) :
  let p := pHashScore (HashData.pHash q) (HashData.pHash c) in
  let h := histogramSimilarity (HashData.colorHistogram q)
                               (HashData.colorHistogram c) in
  missing (HashData.embedding q) \/ missing (HashData.embedding c)
  \/ lengths_differ (HashData.embedding q) (HashData.embedding c) ->
  clipSimilarity (HashData.embedding q) (HashData.embedding c) = 0 /\
  combinedScore q c (Some MODE_CLIP) = 0 /\
  (lengths_differ (HashData.embedding q) (HashData.embedding c) ->
   combinedScore q c (Some MODE_HYBRID) = 0.25 * p + 0.15 * h + 0.60 * 0) /\
  (missing (HashData.embedding q) \/ missing (HashData.embedding c) ->
   combinedScore q c (Some MODE_HYBRID) = 0.6 * p + 0.4 * h).
Proof.
  intros p h H.
  pose proof (clipSimilarity_mismatch _ _ H) as Hclip.
  split; [exact Hclip|]. split; [|split].
  - unfold combinedScore.
    change (mode_is (Some MODE_CLIP) MODE_CLIP) with true. cbv iota.
    destruct (_ || _); [reflexivity|exact Hclip].
  - intros [v [w [Ev [Ew _]]]].
    rewrite combinedScore_hybrid_unfold, Hclip, Ev, Ew. reflexivity.
  - intros Hm. rewrite combinedScore_hybrid_unfold.
    destruct Hm as [-> | ->]; [reflexivity|].
    rewrite orb_true_r. reflexivity.
Qed.

Lemma clipSimilarity_mismatch_is_zero_witness :
  clipSimilarity (Some (repeat 0 512)) (Some (repeat 0 1000)) = 0 /\
  combinedScore (HashData.mk None None (Some (repeat 0 512)) None)
                (HashData.mk None None (Some (repeat 0 1000)) None)
                (Some MODE_HYBRID)
  = 0.25 * pHashScore None None + 0.15 * histogramSimilarity None None
    + 0.60 * 0 /\
  combinedScore (HashData.mk None None (Some [1]) None) HashData.empty
                (Some MODE_CLIP) = 0.
Proof.
  assert (Hdiff : lengths_differ (Some (repeat 0 512)) (Some (repeat 0 1000))).
  { exists (repeat 0 512), (repeat 0 1000).
    split; [reflexivity|]. split; [reflexivity|].
    rewrite !repeat_length. lia. }
  split; [|split].
  - apply (clipSimilarity_mismatch_is_zero
             (HashData.mk None None (Some (repeat 0 512)) None)
             (HashData.mk None None (Some (repeat 0 1000)) None)).
    right. right. exact Hdiff.
  - apply (clipSimilarity_mismatch_is_zero
             (HashData.mk None None (Some (repeat 0 512)) None)
             (HashData.mk None None (Some (repeat 0 1000)) None)).
    + right. right. exact Hdiff.
    + exact Hdiff.
  - apply (clipSimilarity_mismatch_is_zero
             (HashData.mk None None (Some [1]) None) HashData.empty).
    right. left. reflexivity.
Defined.

(** C2. In hybrid mode, when the query or the candidate has no embedding the
    combined score is the pixel-mode formula
    [0.6 * pHashScore + 0.4 * histogramScore] on the same pHash and histogram
    pair, so it is the pixel-mode score and not a constant zero; when both
    have an embedding it is
    [0.25 * pHashScore + 0.15 * histogramScore + 0.60 * embeddingScore]. *)
Theorem combinedScore_hybrid_fallback (q c : HashData.t) :
  let p := pHashScore (HashData.pHash q) (HashData.pHash c) in
  let h := histogramSimilarity (HashData.colorHistogram q)
                               (HashData.colorHistogram c) in
  let e := clipSimilarity (HashData.embedding q) (HashData.embedding c) in
  (HashData.embedding q = None \/ HashData.embedding c = None ->
   combinedScore q c (Some MODE_HYBRID) = 0.6 * p + 0.4 * h /\
   combinedScore q c (Some MODE_HYBRID) = combinedScore q c (Some MODE_PHASH)) /\
  (HashData.embedding q <> None /\ HashData.embedding c <> None ->
   combinedScore q c (Some MODE_HYBRID) = 0.25 * p + 0.15 * h + 0.60 * e) /\
  (exists q' c',
     HashData.embedding q' <> None /\ HashData.embedding c' = None /\
     combinedScore q' c' (Some MODE_HYBRID) = 0.6).
Proof.
  intros p h e. split; [|split].
  - intros H.
    assert (E : combinedScore q c (Some MODE_HYBRID) = 0.6 * p + 0.4 * h).
    { rewrite combinedScore_hybrid_unfold.
      destruct H as [-> | ->]; [reflexivity|].
      rewrite orb_true_r. reflexivity. }
    split; [exact E|]. rewrite E. reflexivity.
  - intros [Hq Hc]. rewrite combinedScore_hybrid_unfold.
    destruct (HashData.embedding q); [|contradiction].
    destruct (HashData.embedding c); [|contradiction].
    reflexivity.
  - exists (HashData.mk (Some "ab"%string) None (Some [1]) None),
           (HashData.mk (Some "ab"%string) None None None).
    split; [discriminate|]. split; [reflexivity|].
    rewrite combinedScore_hybrid_unfold. cbn [HashData.embedding
      HashData.pHash HashData.colorHistogram Js.falsy_array orb].
    unfold pHashScore.
    replace (hammingDistance _ _) with 0%Z by reflexivity.
    unfold MAX_HAMMING_BITS, histogramSimilarity. lra.
Qed.

Lemma combinedScore_hybrid_fallback_witness :
  combinedScore (HashData.mk (Some "ab"%string) (Some [1]) (Some [1]) None)
                (HashData.mk (Some "ab"%string) (Some [1]) None None)
                (Some MODE_HYBRID)
  = combinedScore (HashData.mk (Some "ab"%string) (Some [1]) (Some [1]) None)
                  (HashData.mk (Some "ab"%string) (Some [1]) None None)
                  (Some MODE_PHASH) /\
  combinedScore (HashData.mk (Some "ab"%string) (Some [1]) (Some [1]) None)
                (HashData.mk (Some "ab"%string) (Some [1]) (Some [1]) None)
                (Some MODE_HYBRID)
  = 0.25 * pHashScore (Some "ab"%string) (Some "ab"%string)
    + 0.15 * histogramSimilarity (Some [1]) (Some [1])
    + 0.60 * clipSimilarity (Some [1]) (Some [1]).
Proof.
  split.
  - apply (proj1 (combinedScore_hybrid_fallback
                    (HashData.mk (Some "ab"%string) (Some [1]) (Some [1]) None)
                    (HashData.mk (Some "ab"%string) (Some [1]) None None))).
    right. reflexivity.
  - apply (proj1 (proj2 (combinedScore_hybrid_fallback
                    (HashData.mk (Some "ab"%string) (Some [1]) (Some [1]) None)
                    (HashData.mk (Some "ab"%string) (Some [1]) (Some [1]) None)))).
    split; discriminate.
Defined.

End CombinedScoreFacts.

(* ------------------------------------------------------------------ *)
(** ** Ranking *)

Section SortFacts.
Variable A : Type.
Variable key : A -> R.

(** The comparator of [findSimilar] is [(a, b) => b.score - a.score]; the
    facts below hold for any key in place of the score. *)
Local Open Scope R_scope.

Lemma sort_insert_In (x r : A) (l : list A) :
  In r (Js.sort_insert (fun a b => key b - key a) x l) <-> r = x \/ In r l.
Proof.
  induction l as [|y l' IH]; simpl.
  - intuition.
  - destruct (Rlt_dec 0 (key y - key x)); simpl; rewrite ?IH; intuition.
Qed.

Lemma sort_In (r : A) (l : list A) :
  In r (Js.sort (fun a b => key b - key a) l) <-> In r l.
Proof.
  induction l as [|x l' IH]; simpl; [reflexivity|].
  rewrite sort_insert_In, IH. intuition.
Qed.

Lemma sort_insert_sorted (x : A) (l : list A) :
  StronglySorted (fun a b => key b <= key a) l ->
  StronglySorted (fun a b => key b <= key a)
                 (Js.sort_insert (fun a b => key b - key a) x l).
Proof.
  induction 1 as [|y l' Hs IH Hy]; simpl.
  - constructor; constructor.
  - destruct (Rlt_dec 0 (key y - key x)) as [Hlt|Hge].
    + constructor; [exact IH|].
      apply Forall_forall. intros r Hr.
      apply sort_insert_In in Hr as [->|Hr].
      * lra.
      * rewrite Forall_forall in Hy. now apply Hy.
    + constructor; [constructor; assumption|].
      constructor; [lra|].
      eapply Forall_impl; [|exact Hy].
      cbv beta. intros r Hr. lra.
Qed.

Lemma sort_sorted (l : list A) :
  StronglySorted (fun a b => key b <= key a)
                 (Js.sort (fun a b => key b - key a) l).
Proof.
  induction l as [|x l' IH]; simpl; [constructor|].
  now apply sort_insert_sorted.
Qed.

End SortFacts.

Section SliceFacts.
Variable A : Type.

Lemma firstn_subset (n : nat) (l : list A) (x : A) :
  In x (firstn n l) -> In x l.
Proof.
  revert l. induction n as [|n IH]; intros [|y l] H; simpl in *;
    try contradiction.
  destruct H as [H|H]; [now left|right; now apply IH].
Qed.

Lemma firstn_sorted (R : A -> A -> Prop) (n : nat) (l : list A) :
  StronglySorted R l -> StronglySorted R (firstn n l).
Proof.
  intros H. revert n. induction H as [|y l Hs IH Hy]; intros [|n]; simpl;
    try constructor.
  - apply IH.
  - apply Forall_forall. intros x Hx. apply firstn_subset in Hx.
    rewrite Forall_forall in Hy. now apply Hy.
Qed.

Lemma slice0_nonneg (l : list A) (end_ : Z) :
  (0 <= end_)%Z -> Js.slice0 l end_ = firstn (Z.to_nat end_) l.
Proof.
  intros H. unfold Js.slice0.
  destruct (end_ <? 0)%Z eqn:E; [|reflexivity].
  apply Z.ltb_lt in E. lia.
Qed.

End SliceFacts.

(** A negative [end] keeps all but the last entries. *)
Example slice0_negative_end : Js.slice0 [1; 2; 3]%Z (-1) = [1; 2]%Z.
Proof. reflexivity. Qed.

Section FindSimilarFacts.
Import Similarity.
Local Open Scope R_scope.

Lemma is_excluded_false (i : string) (excludeId : option string) :
  is_excluded i excludeId = false -> Some i <> excludeId.
Proof.
  destruct excludeId as [e|]; simpl; [|discriminate].
  intros H E. injection E as ->. now rewrite String.eqb_refl in H.
Qed.

(** Every entry pushed by the loop is not the excluded id and passed the
    threshold test. *)
Lemma findSimilar_loop_kept (queryData : HashData.t)
    (cacheItems : JsObject.t HashData.t) (thresholdNorm : R)
    (excludeId : option string) (searchMode : string) (ids : list string) :
  forall results,
    Forall (fun r => Some (id r) <> excludeId /\ thresholdNorm <= score r)
           results ->
    Forall (fun r => Some (id r) <> excludeId /\ thresholdNorm <= score r)
           (findSimilar_loop queryData cacheItems thresholdNorm excludeId
                             searchMode ids results).
Proof.
  induction ids as [|i ids' IH]; intros results Hres; cbn [findSimilar_loop].
  - exact Hres.
  - destruct (is_excluded i excludeId) eqn:Ex; [now apply IH|].
    destruct (JsObject.get i cacheItems) as [candidate|]; [|now apply IH].
    destruct (_ && _); [now apply IH|].
    destruct (_ && _); [now apply IH|].
    destruct (Rle_dec _ _) as [Hle|_]; [|now apply IH].
    apply IH. apply Forall_app. split; [exact Hres|].
    constructor; [|constructor]. simpl.
    split; [now apply is_excluded_false|exact Hle].
Qed.

(** C1. For a result limit [maxResults >= 0], the list [findSimilar] returns
    has no entry whose id is [excludeId], is sorted by descending score, has
    at most [maxResults] entries, and every score in it is at least
    [threshold / 100]. *)
Theorem findSimilar_excludes_sorted_bounded (queryData : HashData.t)
    (cacheItems : JsObject.t HashData.t) (threshold : R) (maxResults : Z)
    (excludeId : option string) (mode : option string) :
  (0 <= maxResults)%Z ->
  let results :=
    findSimilar queryData cacheItems threshold maxResults excludeId mode in
  (forall r, In r results -> Some (id r) <> excludeId) /\
  StronglySorted (fun a b => score b <= score a) results /\
  (Z.of_nat (List.length results) <= maxResults)%Z /\
  (forall r, In r results -> threshold / 100 <= score r).
Proof.
  intros Hmax results. unfold findSimilar in results.
  set (searchMode := match mode with
                     | Some (String c m) => String c m
                     | _ => MODE_PHASH
                     end) in results.
  set (pushed := findSimilar_loop queryData cacheItems (threshold / 100)
                                  excludeId searchMode
                                  (JsObject.keys cacheItems) []) in results.
  assert (Hkept : forall r, In r results ->
                            Some (id r) <> excludeId /\ threshold / 100 <= score r).
  { intros r Hr. unfold results in Hr.
    rewrite slice0_nonneg in Hr by exact Hmax.
    apply firstn_subset, sort_In in Hr.
    pose proof (findSimilar_loop_kept queryData cacheItems (threshold / 100)
                  excludeId searchMode (JsObject.keys cacheItems) []
                  (Forall_nil _)) as Hall.
    rewrite Forall_forall in Hall. now apply Hall. }
  split; [intros r Hr; now apply Hkept|].
  split; [|split; [|intros r Hr; now apply Hkept]].
  - unfold results. rewrite slice0_nonneg by exact Hmax.
    apply firstn_sorted. apply (sort_sorted ScoredResult score).
  - unfold results. rewrite slice0_nonneg by exact Hmax.
    pose proof (firstn_le_length (Z.to_nat maxResults)
                  (Js.sort (fun a b => score b - score a) pushed)).
    lia.
Qed.

Lemma findSimilar_excludes_sorted_bounded_witness :
  Z.le
    (Z.of_nat (List.length
       (findSimilar (HashData.mk (Some "ab"%string) (Some [1]) None None)
          [("x"%string, HashData.mk (Some "ab"%string) (Some [1]) None None);
           ("y"%string, HashData.mk (Some "a0"%string) (Some [1]) None None)]
          70 1 (Some "x"%string) None)))
    1.
Proof.
  apply (findSimilar_excludes_sorted_bounded
           (HashData.mk (Some "ab"%string) (Some [1]) None None)
           [("x"%string, HashData.mk (Some "ab"%string) (Some [1]) None None);
            ("y"%string, HashData.mk (Some "a0"%string) (Some [1]) None None)]
           70 1 (Some "x"%string) None).
  lia.
Defined.

(** A run in pixel mode at threshold 98: [x] is the excluded item, [n] has
    no pHash and is skipped, [f] has no histogram and scores 0.6, under the
    threshold; [z] and [y] pass and come out by descending score. *)
Example findSimilar_example :
  let q := HashData.mk (Some "ab"%string) (Some [1]) None None in
  let pool :=
    [("x"%string, HashData.mk (Some "ab"%string) (Some [1]) None None);
     ("z"%string, HashData.mk (Some "00"%string) (Some [1]) None None);
     ("n"%string, HashData.mk None (Some [1]) None None);
     ("f"%string, HashData.mk (Some "ab"%string) None None None);
     ("y"%string, HashData.mk (Some "a0"%string) (Some [1]) None None)] in
  map id (findSimilar q pool 98 10 (Some "x"%string) None)
  = ["y"%string; "z"%string].
Proof.
  intros q pool.
  assert (Sz : combinedScore q
                 (HashData.mk (Some "00"%string) (Some [1]) None None)
                 (Some MODE_PHASH)
               = 0.6 * (1 - 5 / 256) + 0.4 * 1).
  { unfold combinedScore.
    change (mode_is (Some MODE_PHASH) MODE_CLIP) with false.
    change (mode_is (Some MODE_PHASH) MODE_PHASH) with true. cbv iota.
    cbn [HashData.pHash HashData.colorHistogram q].
    rewrite histogramSimilarity_unit. unfold pHashScore.
    replace (hammingDistance _ _) with 5%Z by reflexivity. reflexivity. }
  assert (Sy : combinedScore q
                 (HashData.mk (Some "a0"%string) (Some [1]) None None)
                 (Some MODE_PHASH)
               = 0.6 * (1 - 3 / 256) + 0.4 * 1).
  { unfold combinedScore.
    change (mode_is (Some MODE_PHASH) MODE_CLIP) with false.
    change (mode_is (Some MODE_PHASH) MODE_PHASH) with true. cbv iota.
    cbn [HashData.pHash HashData.colorHistogram q].
    rewrite histogramSimilarity_unit. unfold pHashScore.
    replace (hammingDistance _ _) with 3%Z by reflexivity. reflexivity. }
  assert (Sf : combinedScore q
                 (HashData.mk (Some "ab"%string) None None None)
                 (Some MODE_PHASH)
               = 0.6 * (1 - 0 / 256) + 0.4 * 0).
  { unfold combinedScore.
    change (mode_is (Some MODE_PHASH) MODE_CLIP) with false.
    change (mode_is (Some MODE_PHASH) MODE_PHASH) with true. cbv iota.
    cbn [HashData.pHash HashData.colorHistogram q].
    unfold pHashScore.
    replace (hammingDistance _ _) with 0%Z by reflexivity. reflexivity. }
  unfold findSimilar, pool. cbn [JsObject.keys map fst].
  cbn [findSimilar_loop].
  repeat match goal with
  | |- context [is_excluded ?a ?b] =>
      let v := eval vm_compute in (is_excluded a b) in
      change (is_excluded a b) with v
  end.
  cbv iota. simpl JsObject.get. cbv iota.
  change (String.eqb MODE_PHASH MODE_CLIP) with false.
  change (String.eqb MODE_PHASH MODE_PHASH) with true.
  cbn [andb HashData.pHash Js.falsy_string].
  fold q. rewrite Sz, Sy, Sf.
  destruct (Rle_dec (98 / 100) (0.6 * (1 - 5 / 256) + 0.4 * 1)); [|lra].
  destruct (Rle_dec (98 / 100) (0.6 * (1 - 0 / 256) + 0.4 * 0)); [lra|].
  destruct (Rle_dec (98 / 100) (0.6 * (1 - 3 / 256) + 0.4 * 1)); [|lra].
  cbn [app Js.sort Js.sort_insert score].
  destruct (Rlt_dec 0 _); [|lra].
  reflexivity.
Qed.

End FindSimilarFacts.

(* ------------------------------------------------------------------ *)
(** ** Rounding of a quotient *)

Section RoundingFacts.
Local Open Scope Z_scope.




End RoundingFacts.

Section RoundingReal.
Local Open Scope R_scope.





End RoundingReal.

(* ------------------------------------------------------------------ *)
(** ** Colour histogram *)

Section HistogramFacts.
Import Hasher.
Local Open Scope R_scope.
















End HistogramFacts.


(* ------------------------------------------------------------------ *)
(** ** Dictionary objects *)

Section ObjectFacts.
Variable V : Type.

Lemma get_set_same (k : string) (v : V) (o : JsObject.t V) :
  JsObject.get k (JsObject.set k v o) = Some v.
Proof.
  induction o as [|[k' v'] o' IH]; simpl.
  - now rewrite String.eqb_refl.
  - destruct (String.eqb k k') eqn:E; simpl; rewrite ?E.
    + now rewrite String.eqb_refl.
    + exact IH.
Qed.

Lemma get_set_other (k k0 : string) (v : V) (o : JsObject.t V) :
  k0 <> k -> JsObject.get k0 (JsObject.set k v o) = JsObject.get k0 o.
Proof.
  intros Hne. induction o as [|[k' v'] o' IH]; simpl.
  - apply String.eqb_neq in Hne. now rewrite Hne.
  - destruct (String.eqb k k') eqn:E; simpl.
    + apply String.eqb_eq in E. subst k'.
      apply String.eqb_neq in Hne. now rewrite Hne.
    + now rewrite IH.
Qed.

Lemma get_delete_same (k : string) (o : JsObject.t V) :
  JsObject.get k (JsObject.delete k o) = None.
Proof.
  induction o as [|[k' v'] o' IH]; simpl; [reflexivity|].
  destruct (String.eqb k k') eqn:E; simpl; rewrite ?E; exact IH.
Qed.

Lemma get_delete_other (k k0 : string) (o : JsObject.t V) :
  k0 <> k -> JsObject.get k0 (JsObject.delete k o) = JsObject.get k0 o.
Proof.
  intros Hne. induction o as [|[k' v'] o' IH]; simpl; [reflexivity|].
  destruct (String.eqb k k') eqn:E; simpl.
  - apply String.eqb_eq in E. subst k'.
    apply String.eqb_neq in Hne. now rewrite Hne.
  - now rewrite IH.
Qed.

Lemma get_in_keys (k : string) (o : JsObject.t V) :
  JsObject.get k o <> None -> In k (JsObject.keys o).
Proof.
  induction o as [|[k' v'] o' IH]; simpl; [congruence|].
  destruct (String.eqb k k') eqn:E.
  - apply String.eqb_eq in E. auto.
  - auto.
Qed.

End ObjectFacts.

(* ------------------------------------------------------------------ *)
(** ** Cache *)

Section CacheFacts.
Import Cache.

Lemma getHash_setHash_same (itemId : string) (r : HashData.t) (st : State) :
  _data st <> None -> getHash itemId (setHash itemId r st) = Some r.
Proof.
  intros Hopen. unfold setHash, getHash, lookup, JsObject.read.
  destruct (_data st) as [d|]; [|contradiction].
  simpl. now rewrite get_set_same.
Qed.

Lemma getHash_setHash_other (itemId k : string) (r : HashData.t) (st : State) :
  k <> itemId -> getHash k (setHash itemId r st) = getHash k st.
Proof.
  intros Hne. unfold setHash, getHash, lookup, JsObject.read.
  destruct (_data st) as [d|] eqn:E; simpl; [|now rewrite E].
  now rewrite get_set_other.
Qed.

Lemma getHash_doSave (k : string) (st : State) :
  getHash k (_doSave st) = getHash k st.
Proof.
  unfold _doSave, getHash. simpl.
  destruct (_data st) as [d|]; [|reflexivity].
  destruct (negb (_dirty st)); [reflexivity|].
  destruct (writable st); reflexivity.
Qed.

Lemma load_opens (libraryPath' : string) (st : State) :
  exists d, _data (_load libraryPath' st) = Some d
            /\ libraryPath d = libraryPath'
            /\ version d = CACHE_VERSION.
Proof.
  unfold _load.
  destruct (file st) as [[|parsed]|]; simpl; eauto.
  destruct ((version parsed =? CACHE_VERSION)%Z
            && String.eqb (libraryPath parsed) libraryPath') eqn:E;
    simpl; eauto.
  apply andb_prop in E as [Ev El].
  apply Z.eqb_eq in Ev. apply String.eqb_eq in El. eauto.
Qed.

(** A persisted document of another version or another library is dropped
    whole: the opened document is the empty one. *)
Lemma load_mismatch (libraryPath' : string) (st : State)
    (persisted : CacheDocument) :
  file st = Some (Json persisted) ->
  version persisted <> CACHE_VERSION \/ libraryPath persisted <> libraryPath' ->
  _data (_load libraryPath' st)
  = Some (mkDoc CACHE_VERSION libraryPath' JsObject.empty).
Proof.
  intros Hfile Hmis. unfold _load. rewrite Hfile.
  destruct ((version persisted =? CACHE_VERSION)%Z
            && String.eqb (libraryPath persisted) libraryPath') eqn:E;
    [|reflexivity].
  apply andb_prop in E as [Ev El].
  apply Z.eqb_eq in Ev. apply String.eqb_eq in El.
  destruct Hmis; contradiction.
Qed.

(** An empty items object answers with what it inherits only. *)
Lemma getHash_empty (k : string) (st : State) (v : Z) (p : string) :
  _data st = Some (mkDoc v p JsObject.empty) ->
  getHash k st = if Js.inherited k then Some HashData.inherited else None.
Proof. intros H. unfold getHash. now rewrite H. Qed.

(** Under a key that is not inherited, [getHash] reads the own record. *)
Lemma getHash_own (k : string) (st : State) :
  Js.inherited k = false -> getHash k st = JsObject.get k (getAllItems st).
Proof.
  intros Hk. unfold getHash, getAllItems, lookup, JsObject.read.
  destruct (_data st) as [d|]; [|reflexivity].
  rewrite Hk. now destruct (JsObject.get k (items d)).
Qed.

(** An own record is what [getHash] returns. *)
Lemma getHash_of_own (k : string) (st : State) (r : HashData.t) :
  JsObject.get k (getAllItems st) = Some r -> getHash k st = Some r.
Proof.
  unfold getHash, getAllItems, lookup, JsObject.read.
  destruct (_data st) as [d|]; [|discriminate].
  now intros ->.
Qed.

(** After a put the flush writes the open document to the cache file. *)
Lemma flush_setHash_file (itemId : string) (r : HashData.t) (st : State)
    (d : CacheDocument) :
  _data st = Some d -> writable st = true ->
  file (flush (setHash itemId r st))
  = Some (Json (with_items d (JsObject.set itemId r (items d)))).
Proof.
  intros Hd Hw. unfold flush, setHash. rewrite Hd.
  unfold save, _doSave. simpl. rewrite Hw. reflexivity.
Qed.

(** The reset of [_load] does not make every read answer nothing: under a
    name that every object inherits, [getHash] returns the inherited value
    of the empty items object. *)
Lemma reopen_reads_inherited_name :
  let record :=
    HashData.mk (Some "ab"%string) (Some [1%R]) None (Some "png"%string) in
  let opened := _load "/library/A" (mkState None false false None true) in
  _data (_load "/library/B" (flush (setHash "constructor" record opened)))
  = Some (mkDoc CACHE_VERSION "/library/B" JsObject.empty) /\
  getHash "constructor"
          (_load "/library/B" (flush (setHash "constructor" record opened)))
  = Some HashData.inherited /\
  getHash "constructor"
          (_load "/library/B" (flush (setHash "constructor" record opened)))
  <> None.
Proof.
  intros record opened. split; [reflexivity|]. split; [reflexivity|].
  discriminate.
Qed.

(** C5, amended. In an opened cache, [get(id)] after [put(id, r)] returns
    [r], for every id.  Re-opening drops the whole persisted document when
    its schema version or its library path differs from the requested one:
    the opened document is the empty one, and [get] returns nothing for
    every id that is not a property name inherited from [Object.prototype];
    in particular after a put, a flush and a re-open with a library path
    other than the one the cache was open on. *)
Theorem cache_put_get_and_reopen (st : State) (d : CacheDocument)
    (lp' : string) (itemId : string) (r : HashData.t) :
  _data st = Some d ->
  getHash itemId (setHash itemId r st) = Some r /\
  (forall st0 persisted k,
     file st0 = Some (Json persisted) ->
     version persisted <> CACHE_VERSION \/ libraryPath persisted <> lp' ->
     Js.inherited k = false ->
     _data (_load lp' st0) = Some (mkDoc CACHE_VERSION lp' JsObject.empty) /\
     getHash k (_load lp' st0) = None) /\
  (writable st = true ->
   version d <> CACHE_VERSION \/ libraryPath d <> lp' ->
   forall k,
     Js.inherited k = false ->
     _data (_load lp' (flush (setHash itemId r st)))
     = Some (mkDoc CACHE_VERSION lp' JsObject.empty) /\
     getHash k (_load lp' (flush (setHash itemId r st))) = None).
Proof.
  intros Hd. split; [|split].
  - apply getHash_setHash_same. rewrite Hd. discriminate.
  - intros st0 persisted k Hfile Hmis Hk.
    pose proof (load_mismatch lp' st0 persisted Hfile Hmis) as E.
    split; [exact E|]. rewrite (getHash_empty k _ _ _ E). now rewrite Hk.
  - intros Hw Hmis k Hk.
    pose proof (flush_setHash_file itemId r st d Hd Hw) as Hfile.
    assert (E : _data (_load lp' (flush (setHash itemId r st)))
                = Some (mkDoc CACHE_VERSION lp' JsObject.empty)).
    { eapply load_mismatch; [exact Hfile|]. exact Hmis. }
    split; [exact E|]. rewrite (getHash_empty k _ _ _ E). now rewrite Hk.
Qed.

Lemma cache_put_get_and_reopen_witness :
  let record :=
    HashData.mk (Some "ab"%string) (Some [1%R]) None (Some "png"%string) in
  let opened := _load "/library/A" (mkState None false false None true) in
  let old :=
    mkState None false false
            (Some (Json (mkDoc 2 "/library/A" [("item1"%string, record)])))
            true in
  getHash "item1" (setHash "item1" record opened) = Some record /\
  getHash "item1" (_load "/library/B" (flush (setHash "item1" record opened)))
  = None /\
  getHash "item1" (_load "/library/A" old) = None.
Proof.
  intros record opened old.
  pose proof (cache_put_get_and_reopen opened
                (mkDoc CACHE_VERSION "/library/A" JsObject.empty)
                "/library/B" "item1" record eq_refl) as [Hget [_ Hreopen]].
  pose proof (cache_put_get_and_reopen opened
                (mkDoc CACHE_VERSION "/library/A" JsObject.empty)
                "/library/A" "item1" record eq_refl) as [_ [Hload _]].
  split; [exact Hget|]. split.
  - apply Hreopen; [reflexivity| |reflexivity]. right. discriminate.
  - apply (Hload old (mkDoc 2 "/library/A" [("item1"%string, record)]));
      [reflexivity| |reflexivity]. left. discriminate.
Defined.

End CacheFacts.

(* ------------------------------------------------------------------ *)
(** ** Indexer *)

Section OrphanFacts.
Import Cache.

Lemma has_true_iff (validSet : list string) (k : string) :
  has validSet k = true <-> In k validSet.
Proof.
  unfold has. rewrite existsb_exists. split.
  - intros [x [Hin E]]. apply String.eqb_eq in E. now subst.
  - intros Hin. exists k. split; [exact Hin|apply String.eqb_refl].
Qed.

Lemma removeOrphans_loop_get (validSet : list string) (k : string)
    (cacheIds : list string) :
  forall o removed,
    JsObject.get k (fst (removeOrphans_loop validSet cacheIds o removed)) =
    if existsb (String.eqb k) cacheIds && negb (has validSet k)
    then None else JsObject.get k o.
Proof.
  induction cacheIds as [|i ids IH]; intros o removed; cbn [removeOrphans_loop].
  - reflexivity.
  - cbn [existsb]. destruct (String.eqb k i) eqn:E.
    + apply String.eqb_eq in E. subst i.
      destruct (has validSet k) eqn:Hk; cbn [negb orb andb].
      * rewrite IH, andb_false_r. reflexivity.
      * rewrite IH. destruct (existsb _ ids); cbn [andb negb];
          [reflexivity|apply get_delete_same].
    + apply String.eqb_neq in E. cbn [orb].
      destruct (has validSet i); cbn [negb]; rewrite IH; [reflexivity|].
      now rewrite get_delete_other.
Qed.

(** [removeOrphans] removes exactly the own records whose id is not
    valid. *)
Lemma own_removeOrphans (validIds : list string) (k : string) (st : State) :
  JsObject.get k (getAllItems (removeOrphans validIds st)) =
  if has validIds k then JsObject.get k (getAllItems st) else None.
Proof.
  unfold removeOrphans, getAllItems.
  destruct (_data st) as [d|] eqn:Hd.
  - pose proof (removeOrphans_loop_get validIds k (JsObject.keys (items d))
                  (items d) 0) as H.
    destruct (removeOrphans_loop validIds (JsObject.keys (items d)) (items d) 0)
      as [o removed].
    simpl in H.
    assert (E : match _data (if (0 <? removed)%Z
                             then save false (with_data st (Some (with_items d o)))
                             else with_data st (Some (with_items d o))) with
                | Some d' => items d'
                | None => JsObject.empty
                end = o).
    { destruct (0 <? removed)%Z; reflexivity. }
    rewrite E, H.
    destruct (has validIds k); cbn [negb]; [now rewrite andb_false_r|].
    rewrite andb_true_r.
    destruct (existsb (String.eqb k) (JsObject.keys (items d))) eqn:Ex;
      [reflexivity|].
    destruct (JsObject.get k (items d)) eqn:G; [|reflexivity].
    assert (Hin : In k (JsObject.keys (items d))).
    { apply get_in_keys. rewrite G. discriminate. }
    assert (Ht : existsb (String.eqb k) (JsObject.keys (items d)) = true).
    { apply existsb_exists. exists k. split; [exact Hin|apply String.eqb_refl]. }
    congruence.
  - rewrite Hd. now destruct (has validIds k).
Qed.

Lemma removeOrphans_data (validIds : list string) (st : State) :
  _data (removeOrphans validIds st) = None <-> _data st = None.
Proof.
  unfold removeOrphans. destruct (_data st) as [d|] eqn:Hd.
  - destruct (removeOrphans_loop validIds _ _ _) as [o removed].
    destruct (0 <? removed)%Z; simpl; split; discriminate.
  - now rewrite Hd.
Qed.

(** [getHash] in terms of the own records. *)
Lemma getHash_unfold (k : string) (st : State) :
  getHash k st =
  match _data st with
  | None => None
  | Some _ =>
      match JsObject.get k (getAllItems st) with
      | Some r => Some r
      | None => if Js.inherited k then Some HashData.inherited else None
      end
  end.
Proof.
  unfold getHash, getAllItems, lookup, JsObject.read.
  now destruct (_data st).
Qed.

(** After [removeOrphans] a valid id reads as before; any other id reads
    what the items object inherits, if anything. *)
Lemma getHash_removeOrphans (validIds : list string) (k : string)
    (st : State) :
  getHash k (removeOrphans validIds st) =
  if has validIds k then getHash k st
  else
    match _data st with
    | None => None
    | Some _ => if Js.inherited k then Some HashData.inherited else None
    end.
Proof.
  rewrite (getHash_unfold k (removeOrphans validIds st)), own_removeOrphans.
  rewrite (getHash_unfold k st).
  pose proof (removeOrphans_data validIds st) as Hdata.
  destruct (_data (removeOrphans validIds st)) as [d'|],
           (_data st) as [d|].
  - now destruct (has validIds k).
  - destruct Hdata as [_ H]. discriminate (H eq_refl).
  - destruct Hdata as [H _]. discriminate (H eq_refl).
  - now destruct (has validIds k).
Qed.

Lemma getHash_removeOrphans_valid (validIds : list string) (k : string)
    (st : State) :
  has validIds k = true ->
  getHash k (removeOrphans validIds st) = getHash k st.
Proof. intros H. now rewrite getHash_removeOrphans, H. Qed.

End OrphanFacts.

Section IndexerFacts.
Import Cache Indexer.

Variable computeHashes : string -> option (string * list R).
Variable Embedder_isReady : bool.
Variable computeEmbedding : string -> option (list R).
Variable _shouldStop : string -> nat -> bool.

Lemma filter_nil {A : Type} (f : A -> bool) (l : list A) :
  (forall x, In x l -> f x = false) -> filter f l = [].
Proof.
  induction l as [|x l' IH]; intros H; simpl; [reflexivity|].
  rewrite (H x (or_introl eq_refl)). apply IH. intros y Hy. apply H. now right.
Qed.

(** With every image already fingerprinted, [_indexPhash] returns before it
    reaches [removeOrphans]: the cache is left as it is. *)
Lemma indexPhash_all_indexed (items : list Item.t) (st : State) :
  (forall item, In item items -> isImageType (Item.ext item) = true ->
                hasValidHash (Item.id item) st = true) ->
  _indexPhash computeHashes _shouldStop items st = (st, []).
Proof.
  intros H. unfold _indexPhash. rewrite filter_nil; [reflexivity|].
  intros item Hin.
  destruct (isImageType (Item.ext item)) eqn:E; [|reflexivity].
  simpl. now rewrite (H item Hin E).
Qed.

Lemma phash_item_other (k : string) (st : State) (item : Item.t) :
  Item.id item <> k ->
  getHash k (phash_item computeHashes st item) = getHash k st.
Proof.
  intros Hne. unfold phash_item.
  destruct (getHashPath item) as [hashPath|]; [|reflexivity].
  destruct (computeHashes hashPath) as [[pHash colorHistogram]|];
    [|reflexivity].
  apply getHash_setHash_other. congruence.
Qed.

Lemma phash_chunk_other (k : string) (chunk : list Item.t) :
  forall st,
    (forall item, In item chunk -> Item.id item <> k) ->
    getHash k (fold_left (phash_item computeHashes) chunk st) = getHash k st.
Proof.
  induction chunk as [|item chunk' IH]; intros st H; simpl; [reflexivity|].
  rewrite IH by (intros i Hi; apply H; now right).
  apply phash_item_other. apply H. now left.
Qed.

Lemma slice_subset {A : Type} (l : list A) (i n : nat) (x : A) :
  In x (Js.slice l i n) -> In x l.
Proof.
  unfold Js.slice. intros H.
  apply firstn_subset in H. revert l H.
  induction i as [|i IH]; intros [|y l] H; simpl in *; auto.
Qed.

(** The chunk loop writes records of the items to index only. *)
Lemma phash_loop_other (k : string) (toIndex : list Item.t)
    (alreadyCached totalImages : Z) (fuel : nat) :
  forall i processed st log,
    (forall item, In item toIndex -> Item.id item <> k) ->
    getHash k (fst (phash_loop computeHashes _shouldStop fuel toIndex
                               alreadyCached totalImages i processed st log))
    = getHash k st.
Proof.
  induction fuel as [|fuel IH]; intros i processed st log H;
    cbn [phash_loop]; [reflexivity|].
  destruct (negb (i <? List.length toIndex)%nat); [reflexivity|].
  destruct (_shouldStop "phash" i); [reflexivity|].
  rewrite IH by exact H. apply phash_chunk_other.
  intros item Hin. apply H. eapply slice_subset, Hin.
Qed.

(** When some image still needs its fingerprint, the run prunes: afterwards
    no orphaned record is left. *)
Lemma indexPhash_prunes (items : list Item.t) (st : State) (k : string) :
  (exists item, In item items /\ isImageType (Item.ext item) = true
                /\ hasValidHash (Item.id item) st = false) ->
  orphan items k ->
  _data st <> None ->
  getHash k (fst (_indexPhash computeHashes _shouldStop items st))
  = if Js.inherited k then Some HashData.inherited else None.
Proof.
  intros [item0 [Hin0 [Himg0 Hval0]]] Horphan Hopen. unfold _indexPhash.
  set (toIndex := filter _ items).
  assert (Hsub : forall item, In item toIndex -> In item items).
  { intros item Hi. unfold toIndex in Hi. now apply filter_In in Hi. }
  assert (Hin : In item0 toIndex).
  { unfold toIndex. apply filter_In. split; [exact Hin0|].
    now rewrite Himg0, Hval0. }
  destruct toIndex as [|item1 rest] eqn:E; [contradiction|].
  rewrite <- E in *.
  set (st1 := removeOrphans (map Item.id items) st).
  destruct (phash_loop computeHashes _shouldStop (List.length toIndex) toIndex
              _ _ 0 0 st1 _) as [st2 log2] eqn:L.
  cbn [fst]. unfold flush. rewrite getHash_doSave.
  change st2 with (fst (st2, log2)). rewrite <- L.
  rewrite phash_loop_other.
  - unfold st1. rewrite getHash_removeOrphans.
    destruct (has (map Item.id items) k) eqn:Hk.
    + apply has_true_iff in Hk. contradiction.
    + destruct (_data st); [reflexivity|contradiction].
  - intros item Hi Eid. apply Horphan. subst k.
    apply in_map. now apply Hsub.
Qed.

Lemma phash_item_cases (k : string) (toIndex : list Item.t)
    (st0 st : State) (item : Item.t) :
  In item toIndex ->
  kept_or_written k toIndex st0 st ->
  kept_or_written k toIndex st0 (phash_item computeHashes st item).
Proof.
  intros Hin Hst. unfold phash_item.
  destruct (getHashPath item) as [hashPath|]; [|exact Hst].
  destruct (computeHashes hashPath) as [[pHash colorHistogram]|];
    [|exact Hst].
  destruct (String.eqb k (Item.id item)) eqn:E.
  - apply String.eqb_eq in E. subst k.
    destruct (_data st) as [d|] eqn:Hd.
    + right. split; [now exists item|].
      eexists. split.
      * apply getHash_setHash_same. rewrite Hd. discriminate.
      * repeat split; discriminate.
    + unfold setHash. rewrite Hd. exact Hst.
  - apply String.eqb_neq in E.
    unfold kept_or_written. rewrite getHash_setHash_other by exact E.
    exact Hst.
Qed.

Lemma phash_chunk_cases (k : string) (toIndex : list Item.t) (st0 : State)
    (chunk : list Item.t) :
  forall st,
    (forall item, In item chunk -> In item toIndex) ->
    kept_or_written k toIndex st0 st ->
    kept_or_written k toIndex st0
                    (fold_left (phash_item computeHashes) chunk st).
Proof.
  induction chunk as [|item chunk' IH]; intros st Hsub Hst; simpl;
    [exact Hst|].
  apply IH; [intros i Hi; apply Hsub; now right|].
  apply phash_item_cases; [apply Hsub; now left|exact Hst].
Qed.

Lemma phash_loop_cases (k : string) (toIndex : list Item.t) (st0 : State)
    (alreadyCached totalImages : Z) (fuel : nat) :
  forall i processed st log,
    kept_or_written k toIndex st0 st ->
    kept_or_written k toIndex st0
      (fst (phash_loop computeHashes _shouldStop fuel toIndex
                       alreadyCached totalImages i processed st log)).
Proof.
  induction fuel as [|fuel IH]; intros i processed st log Hst;
    cbn [phash_loop]; [exact Hst|].
  destruct (negb (i <? List.length toIndex)%nat); [exact Hst|].
  destruct (_shouldStop "phash" i); [exact Hst|].
  apply IH. apply phash_chunk_cases; [|exact Hst].
  intros item Hin. eapply slice_subset, Hin.
Qed.

(** After the fingerprint phase a record is the one from before, or it was
    pruned as an orphan, or it was written whole for an item that was not
    fingerprint-complete. *)
Lemma indexPhash_cases (items : list Item.t) (st : State) (k : string) :
  _data st <> None ->
  getHash k (fst (_indexPhash computeHashes _shouldStop items st))
  = getHash k st
  \/ (orphan items k /\
      getHash k (fst (_indexPhash computeHashes _shouldStop items st))
      = if Js.inherited k then Some HashData.inherited else None)
  \/ (hasValidHash k st = false /\
      exists r',
        getHash k (fst (_indexPhash computeHashes _shouldStop items st))
        = Some r'
        /\ fingerprint_only r').
Proof.
  intros Hopen. unfold _indexPhash.
  set (toIndex := filter _ items).
  assert (Hinvalid : forall item, In item toIndex ->
                                  hasValidHash (Item.id item) st = false).
  { intros item Hi. unfold toIndex in Hi. apply filter_In in Hi as [_ Hf].
    destruct (isImageType (Item.ext item)); [|discriminate Hf].
    simpl in Hf. now apply negb_true_iff in Hf. }
  destruct toIndex as [|item1 rest] eqn:E; [now left|].
  rewrite <- E in *.
  set (st1 := removeOrphans (map Item.id items) st).
  pose proof (phash_loop_cases k toIndex st1
                (Z.of_nat (List.length (filter (fun item => isImageType (Item.ext item)) items))
                 - Z.of_nat (List.length toIndex))
                (Z.of_nat (List.length (filter (fun item => isImageType (Item.ext item)) items)))
                (List.length toIndex) 0 0 st1
                [mkProgress
                   (Z.of_nat (List.length (filter (fun item => isImageType (Item.ext item)) items))
                    - Z.of_nat (List.length toIndex))
                   (Z.of_nat (List.length (filter (fun item => isImageType (Item.ext item)) items)))
                   "phash"]
                (or_introl eq_refl)) as Hloop.
  destruct (phash_loop computeHashes _shouldStop (List.length toIndex) toIndex
              _ _ 0 0 st1 _) as [st2 log2].
  cbn [fst] in *. unfold flush. rewrite getHash_doSave.
  destruct Hloop as [Hkept|[[item [Hin Eid]] Hwritten]].
  - rewrite Hkept. unfold st1. rewrite getHash_removeOrphans.
    destruct (has (map Item.id items) k) eqn:Hk; [now left|].
    right. left. split.
    + intros Hin. apply has_true_iff in Hin. congruence.
    + destruct (_data st); [reflexivity|contradiction].
  - right. right. split; [|exact Hwritten].
    subst k. now apply Hinvalid.
Qed.

(** A record that no item to index names is left alone by the fingerprint
    phase, or pruned as an orphan. *)
Lemma indexPhash_unwritten (items : list Item.t) (st : State) (k : string) :
  _data st <> None ->
  (forall item, In item items -> isImageType (Item.ext item) = true ->
                hasValidHash (Item.id item) st = false -> Item.id item <> k) ->
  getHash k (fst (_indexPhash computeHashes _shouldStop items st))
  = getHash k st
  \/ (orphan items k /\
      getHash k (fst (_indexPhash computeHashes _shouldStop items st))
      = if Js.inherited k then Some HashData.inherited else None).
Proof.
  intros Hopen Hunwritten. unfold _indexPhash.
  set (toIndex := filter _ items).
  assert (Hne : forall item, In item toIndex -> Item.id item <> k).
  { intros item Hi. unfold toIndex in Hi. apply filter_In in Hi as [Hin Hf].
    destruct (isImageType (Item.ext item)) eqn:Himg; [|discriminate Hf].
    simpl in Hf. apply negb_true_iff in Hf. now apply Hunwritten. }
  destruct toIndex as [|item1 rest] eqn:E; [now left|].
  rewrite <- E in *.
  set (st1 := removeOrphans (map Item.id items) st).
  destruct (phash_loop computeHashes _shouldStop (List.length toIndex) toIndex
              _ _ 0 0 st1 _) as [st2 log2] eqn:L.
  cbn [fst]. unfold flush. rewrite getHash_doSave.
  change st2 with (fst (st2, log2)). rewrite <- L.
  rewrite phash_loop_other by exact Hne.
  unfold st1. rewrite getHash_removeOrphans.
  destruct (has (map Item.id items) k) eqn:Hk; [now left|].
  right. split.
  - intros Hin. apply has_true_iff in Hin. congruence.
  - destruct (_data st); [reflexivity|contradiction].
Qed.

(** A fingerprint-complete record is never written by the fingerprint
    phase. *)
Lemma indexPhash_keeps_complete (items : list Item.t) (st : State)
    (k : string) :
  hasValidHash k st = true ->
  getHash k (fst (_indexPhash computeHashes _shouldStop items st))
  = getHash k st
  \/ (orphan items k /\
      getHash k (fst (_indexPhash computeHashes _shouldStop items st))
      = if Js.inherited k then Some HashData.inherited else None).
Proof.
  intros Hvalid. apply indexPhash_unwritten.
  - unfold hasValidHash in Hvalid.
    destruct (_data st); [discriminate|discriminate Hvalid].
  - intros item _ _ Hinvalid Eid. subst k. congruence.
Qed.

End IndexerFacts.

Section IndexerLoopFacts.
Import Cache Indexer.

Variable computeHashes : string -> option (string * list R).
Variable Embedder_isReady : bool.
Variable computeEmbedding : string -> option (list R).
Variable _shouldStop : string -> nat -> bool.

(** The fuel of the chunk loop is never the reason it stops: one unit per
    item left is enough, since every chunk advances the index. *)
Lemma phash_loop_fuel (toIndex : list Item.t) (alreadyCached totalImages : Z)
    (fuel : nat) :
  forall extra i processed st log,
    (List.length toIndex <= i + fuel)%nat ->
    phash_loop computeHashes _shouldStop (fuel + extra) toIndex
               alreadyCached totalImages i processed st log
    = phash_loop computeHashes _shouldStop fuel toIndex
                 alreadyCached totalImages i processed st log.
Proof.
  induction fuel as [|fuel IH]; intros extra i processed st log Hlen.
  - destruct extra as [|extra]; [reflexivity|]. cbn [Nat.add phash_loop].
    assert (E : (i <? List.length toIndex)%nat = false)
      by (apply Nat.ltb_ge; lia).
    now rewrite E.
  - cbn [Nat.add phash_loop].
    destruct (negb (i <? List.length toIndex)%nat); [reflexivity|].
    destruct (_shouldStop "phash" i); [reflexivity|].
    apply IH. unfold CHUNK_SIZE. lia.
Qed.

Lemma preserves_refl (st : State) : preserves st st.
Proof.
  intros k r H. exists r. split; [exact H|]. repeat split; auto.
Qed.

Lemma preserves_trans (st1 st2 st3 : State) :
  preserves st1 st2 -> preserves st2 st3 -> preserves st1 st3.
Proof.
  intros H12 H23 k r H.
  destruct (H12 k r H) as [r2 [G2 (A1 & A2 & A3 & A4)]].
  destruct (H23 k r2 G2) as [r3 [G3 (B1 & B2 & B3 & B4)]].
  exists r3. split; [exact G3|].
  repeat split; try congruence. auto.
Qed.

Lemma preserves_flush (st : State) : preserves st (flush st).
Proof.
  intros k r H. exists r. unfold flush. rewrite getHash_doSave.
  split; [exact H|]. repeat split; auto.
Qed.

(** The write of the embedding phase keeps the fingerprint fields. *)
Lemma preserves_embedding_write (st : State) (itemId : string)
    (embedding : list R) :
  let existing := match getHash itemId st with
                  | Some r => r
                  | None => HashData.empty
                  end in
  preserves st (setHash itemId (with_embedding existing embedding) st).
Proof.
  intros existing k r H.
  destruct (String.eqb k itemId) eqn:E.
  - apply String.eqb_eq in E. subst k.
    exists (with_embedding existing embedding). split.
    + apply getHash_setHash_same. unfold getHash in H.
      destruct (_data st); [discriminate|discriminate H].
    + unfold existing. rewrite H. repeat split. discriminate.
  - apply String.eqb_neq in E. exists r. split.
    + rewrite getHash_setHash_other by exact E. exact H.
    + repeat split; auto.
Qed.

Lemma clip_loop_preserves (toEmbed : list Item.t)
    (alreadyEmbedded totalImages : Z) :
  forall i processed st log,
    preserves st
      (fst (clip_loop computeEmbedding _shouldStop toEmbed alreadyEmbedded
                      totalImages i processed st log)).
Proof.
  induction toEmbed as [|item toEmbed' IH]; intros i processed st log;
    cbn [clip_loop].
  - apply preserves_refl.
  - destruct (_shouldStop "clip" i); [apply preserves_refl|].
    destruct (getHashPath item) as [hashPath|]; [|apply IH].
    eapply preserves_trans; [|apply IH].
    destruct (computeEmbedding hashPath) as [embedding|];
      [apply preserves_embedding_write|apply preserves_refl].
Qed.

(** The embedding phase never erases a fingerprint field, and never an
    embedding, of any record. *)
Lemma indexClip_preserves (items : list Item.t) (st : State) :
  preserves st
    (fst (_indexClip Embedder_isReady computeEmbedding _shouldStop items st)).
Proof.
  unfold _indexClip.
  destruct (negb Embedder_isReady); [apply preserves_refl|].
  destruct (filter _ items) as [|item rest] eqn:E; [apply preserves_refl|].
  destruct (clip_loop computeEmbedding _shouldStop (item :: rest) _ _ 0 0 st _)
    as [st2 log2] eqn:L.
  cbn [fst]. eapply preserves_trans; [|apply preserves_flush].
  change st2 with (fst (st2, log2)). rewrite <- L. apply clip_loop_preserves.
Qed.

End IndexerLoopFacts.

Section IndexerRuns.
Import Cache Indexer.

(** C3. A run of the fingerprint phase does not always prune: when every
    image of the library already has its fingerprint, [_indexPhash] returns
    before [removeOrphans] and the record of a deleted item stays in the
    cache. *)
Theorem indexPhash_all_indexed_keeps_orphan
    (computeHashes : string -> option (string * list R))
    (_shouldStop : string -> nat -> bool) :
  let record :=
    HashData.mk (Some "00ff"%string) (Some [1%R]) None (Some "png"%string) in
  let st :=
    mkState (Some (mkDoc CACHE_VERSION "/library"
                         [("a"%string, record); ("deleted"%string, record)]))
            false false None true in
  let items :=
    [Item.mk "a" (Some "png"%string) None (Some "/library/a.png"%string)] in
  orphan items "deleted" /\
  _indexPhash computeHashes _shouldStop items st = (st, []) /\
  getHash "deleted" (fst (_indexPhash computeHashes _shouldStop items st))
  = Some record.
Proof.
  intros record st items. split; [|split].
  - unfold orphan. simpl. intros [H|[]]. discriminate H.
  - reflexivity.
  - reflexivity.
Qed.

(** The write of the fingerprint phase replaces the whole record: an item
    whose record has an embedding but no fingerprint loses the embedding. *)
Lemma indexPhash_write_drops_embedding :
  let computeHashes := fun _ : string => Some ("00ff"%string, [1%R; 0%R]) in
  let _shouldStop := fun (_ : string) (_ : nat) => false in
  let st :=
    mkState (Some (mkDoc CACHE_VERSION "/library"
                         [("a"%string,
                           HashData.mk None None (Some [1%R]) (Some "png"%string))]))
            false false None true in
  let items :=
    [Item.mk "a" (Some "png"%string) None (Some "/library/a.png"%string)] in
  getHash "a" st
  = Some (HashData.mk None None (Some [1%R]) (Some "png"%string)) /\
  getHash "a" (fst (_indexPhash computeHashes _shouldStop items st))
  = Some (HashData.mk (Some "00ff"%string) (Some [1%R; 0%R]) None
                      (Some "png"%string)).
Proof.
  split; reflexivity.
Qed.

(** C4, amended. On a library without an item of id ['__proto__'] (a write
    under that id would replace the prototype of the items object), no
    Indexer write replaces the present embedding of a fingerprint-complete
    record with an absent one: the fingerprint phase never writes a
    fingerprint-complete record (it leaves it as it is, or prunes it whole
    when its item is gone from the library: reading the id then gives what
    the items object inherits under that name, nothing for any other id);
    the records it does write belong to items that were not
    fingerprint-complete and are replaced whole by a fingerprint without
    embedding; and the embedding phase keeps the pHash, colorHistogram and
    ext of every record and never removes an embedding. *)
Theorem indexer_keeps_complete_records
    (computeHashes : string -> option (string * list R))
    (Embedder_isReady : bool)
    (computeEmbedding : string -> option (list R))
    (_shouldStop : string -> nat -> bool)
    (items : list Item.t) (st : State) (k : string) (r : HashData.t) :
  Forall (fun item => Item.id item <> "__proto__"%string) items ->
  getHash k st = Some r ->
  (hasValidHash k st = true ->
   getHash k (fst (_indexPhash computeHashes _shouldStop items st)) = Some r
   \/ (orphan items k /\
       getHash k (fst (_indexPhash computeHashes _shouldStop items st))
       = if Js.inherited k then Some HashData.inherited else None))
  /\
  (getHash k (fst (_indexPhash computeHashes _shouldStop items st)) = Some r
   \/ (orphan items k /\
       getHash k (fst (_indexPhash computeHashes _shouldStop items st))
       = if Js.inherited k then Some HashData.inherited else None)
   \/ (hasValidHash k st = false /\
       exists r',
         getHash k (fst (_indexPhash computeHashes _shouldStop items st))
         = Some r'
         /\ fingerprint_only r'))
  /\
  (exists r',
     getHash k (fst (_indexClip Embedder_isReady computeEmbedding _shouldStop
                                items st)) = Some r'
     /\ keeps_fingerprint r r').
Proof.
  intros _ Hr.
  assert (Hopen : _data st <> None).
  { unfold getHash in Hr. destruct (_data st); [discriminate|discriminate Hr]. }
  split; [|split].
  - intros Hvalid. rewrite <- Hr.
    now apply indexPhash_keeps_complete.
  - rewrite <- Hr. now apply indexPhash_cases.
  - now apply indexClip_preserves.
Qed.

Lemma indexer_keeps_complete_records_witness :
  let computeHashes := fun _ : string => Some ("aaaa"%string, [0%R; 1%R]) in
  let computeEmbedding := fun _ : string => Some [0.5%R; 0.5%R] in
  let _shouldStop := fun (_ : string) (_ : nat) => false in
  let complete :=
    HashData.mk (Some "00ff"%string) (Some [1%R]) (Some [1%R])
                (Some "png"%string) in
  let st :=
    mkState (Some (mkDoc CACHE_VERSION "/library" [("a"%string, complete)]))
            false false None true in
  let items :=
    [Item.mk "a" (Some "png"%string) None (Some "/library/a.png"%string);
     Item.mk "b" (Some "png"%string) None (Some "/library/b.png"%string)] in
  (getHash "a" (fst (_indexPhash computeHashes _shouldStop items st))
   = Some complete
   \/ (orphan items "a" /\
       getHash "a" (fst (_indexPhash computeHashes _shouldStop items st)) = None))
  /\
  (exists r',
     getHash "a" (fst (_indexClip true computeEmbedding _shouldStop items st))
     = Some r'
     /\ keeps_fingerprint complete r').
Proof.
  intros computeHashes computeEmbedding _shouldStop complete st items.
  assert (Hids : Forall (fun item => Item.id item <> "__proto__"%string)
                         items).
  { repeat constructor; discriminate. }
  pose proof (indexer_keeps_complete_records computeHashes true
                computeEmbedding _shouldStop items st "a" complete Hids
                eq_refl)
    as [Hphash [_ Hclip]].
  split; [apply Hphash; reflexivity|exact Hclip].
Defined.

(** The same record through the embedding phase keeps every field it had. *)
Example indexClip_write_keeps_fingerprint :
  let computeEmbedding := fun _ : string => Some [0.5%R; 0.5%R] in
  let _shouldStop := fun (_ : string) (_ : nat) => false in
  let st :=
    mkState (Some (mkDoc CACHE_VERSION "/library"
                         [("a"%string,
                           HashData.mk (Some "00ff"%string) (Some [1%R]) None
                                       (Some "png"%string))]))
            false false None true in
  let items :=
    [Item.mk "a" (Some "png"%string) None (Some "/library/a.png"%string)] in
  getHash "a" (fst (_indexClip true computeEmbedding _shouldStop items st))
  = Some (HashData.mk (Some "00ff"%string) (Some [1%R])
                      (Some [0.5%R; 0.5%R]) (Some "png"%string)).
Proof. reflexivity. Qed.

End IndexerRuns.

(* ================================================================== *)
(** * Further properties *)

(* ------------------------------------------------------------------ *)
(** ** Hamming distance as a count of bits *)

Section HammingBits.
Import Similarity Spec.
Local Open Scope Z_scope.

Lemma digit_range (c : ascii) : 0 <= digit c < 16.
Proof. apply parseInt16_range. Qed.

Lemma small_cases (x : Z) :
  0 <= x < 16 ->
  x = 0 \/ x = 1 \/ x = 2 \/ x = 3 \/ x = 4 \/ x = 5 \/ x = 6 \/ x = 7 \/
  x = 8 \/ x = 9 \/ x = 10 \/ x = 11 \/ x = 12 \/ x = 13 \/ x = 14 \/ x = 15.
Proof. lia. Qed.

Ltac each_small H :=
  apply small_cases in H;
  repeat (destruct H as [H|H]; [subst|]); [..|subst].

(** On a digit value the bit loop adds its number of one bits. *)
Lemma while_xor_popcount (x distance : Z) :
  0 <= x < 16 ->
  while_xor 32 x distance =
  distance + (Z.b2z (Z.testbit x 0) + Z.b2z (Z.testbit x 1)
              + Z.b2z (Z.testbit x 2) + Z.b2z (Z.testbit x 3)).
Proof.
  intros Hx. each_small Hx; cbn; lia.
Qed.

Lemma lxor_bit_diff (x y : Z) :
  Z.b2z (Z.testbit (Z.lxor x y) 0) + Z.b2z (Z.testbit (Z.lxor x y) 1)
  + Z.b2z (Z.testbit (Z.lxor x y) 2) + Z.b2z (Z.testbit (Z.lxor x y) 3)
  = bit_diff x y.
Proof. unfold bit_diff. now rewrite !Z.lxor_spec. Qed.

Lemma hamming_loop_bits (hash1 : string) :
  forall hash2 distance,
    hamming_loop hash1 hash2 distance =
    distance + bits_apart (digits hash1) (digits hash2).
Proof.
  induction hash1 as [|c1 rest1 IH]; intros [|c2 rest2] distance;
    cbn [hamming_loop digits list_ascii_of_string map bits_apart];
    try lia.
  rewrite IH. fold (digits rest1) (digits rest2) (digit c1) (digit c2).
  rewrite while_xor_popcount
    by (apply (lxor_range 4); [lia|apply digit_range ..]).
  rewrite lxor_bit_diff. lia.
Qed.

Lemma digits_length (s : string) : List.length (digits s) = String.length s.
Proof.
  unfold digits. rewrite length_map.
  induction s as [|c s' IH]; simpl; [reflexivity|now rewrite IH].
Qed.

(** Two present, non-empty strings of one length: the guard of
    [hammingDistance] lets them through. *)
Lemma hammingDistance_comparable (s1 s2 : string) :
  s1 <> EmptyString -> String.length s1 = String.length s2 ->
  hammingDistance (Some s1) (Some s2) = hamming_loop s1 s2 0.
Proof.
  intros Hne Hlen. unfold hammingDistance.
  destruct s1 as [|c1 r1]; [contradiction|].
  destruct s2 as [|c2 r2]; [discriminate Hlen|].
  rewrite Hlen, Nat.eqb_refl. reflexivity.
Qed.

Lemma hammingDistance_incomparable (a b : option string) :
  Js.falsy_string a = true \/ Js.falsy_string b = true
  \/ Js.string_length a <> Js.string_length b ->
  hammingDistance a b = 256.
Proof.
  intros H. unfold hammingDistance, MAX_HAMMING_BITS.
  destruct a as [s1|], b as [s2|]; try reflexivity.
  destruct H as [H|[H|H]].
  - rewrite H. reflexivity.
  - rewrite H, orb_true_r. reflexivity.
  - simpl in H. apply Nat.eqb_neq in H. rewrite H.
    rewrite !orb_true_r. reflexivity.
Qed.

Lemma bit_diff_nonneg (x y : Z) : 0 <= bit_diff x y.
Proof.
  assert (Hb : forall b, 0 <= Z.b2z b) by (intros []; simpl; lia).
  unfold bit_diff.
  pose proof (Hb (xorb (Z.testbit x 0) (Z.testbit y 0))).
  pose proof (Hb (xorb (Z.testbit x 1) (Z.testbit y 1))).
  pose proof (Hb (xorb (Z.testbit x 2) (Z.testbit y 2))).
  pose proof (Hb (xorb (Z.testbit x 3) (Z.testbit y 3))).
  lia.
Qed.

Lemma bit_diff_triangle (x y z : Z) :
  bit_diff x z <= bit_diff x y + bit_diff y z.
Proof.
  unfold bit_diff.
  destruct (Z.testbit x 0), (Z.testbit y 0), (Z.testbit z 0),
           (Z.testbit x 1), (Z.testbit y 1), (Z.testbit z 1),
           (Z.testbit x 2), (Z.testbit y 2), (Z.testbit z 2),
           (Z.testbit x 3), (Z.testbit y 3), (Z.testbit z 3);
    simpl; lia.
Qed.

Lemma bit_diff_zero (x y : Z) :
  0 <= x < 16 -> 0 <= y < 16 -> bit_diff x y = 0 -> x = y.
Proof.
  intros Hx Hy. each_small Hx; each_small Hy; vm_compute; congruence.
Qed.

Lemma bit_diff_same (x : Z) : bit_diff x x = 0.
Proof. unfold bit_diff. now rewrite !xorb_nilpotent. Qed.

Lemma bits_apart_nonneg (xs : list Z) :
  forall ys, 0 <= bits_apart xs ys.
Proof.
  induction xs as [|x xs IH]; intros [|y ys]; simpl; try lia.
  pose proof (bit_diff_nonneg x y). pose proof (IH ys). lia.
Qed.

Lemma bits_apart_triangle (xs : list Z) :
  forall ys zs,
    List.length xs = List.length ys -> List.length ys = List.length zs ->
    bits_apart xs zs <= bits_apart xs ys + bits_apart ys zs.
Proof.
  induction xs as [|x xs IH]; intros [|y ys] [|z zs] H1 H2; simpl in *;
    try lia.
  pose proof (bit_diff_triangle x y z).
  pose proof (IH ys zs ltac:(lia) ltac:(lia)). lia.
Qed.

Lemma bits_apart_zero (xs : list Z) :
  forall ys,
    List.length xs = List.length ys ->
    Forall (fun x => 0 <= x < 16) xs -> Forall (fun y => 0 <= y < 16) ys ->
    (bits_apart xs ys = 0 <-> xs = ys).
Proof.
  induction xs as [|x xs IH]; intros [|y ys] Hlen Hxs Hys; simpl in *;
    try lia; [tauto|].
  inversion Hxs as [|? ? Hx Hxs']; inversion Hys as [|? ? Hy Hys']; subst.
  pose proof (bit_diff_nonneg x y). pose proof (bits_apart_nonneg xs ys).
  split.
  - intros Hz. assert (Hd : bit_diff x y = 0) by lia.
    assert (Hr : bits_apart xs ys = 0) by lia.
    f_equal; [now apply bit_diff_zero|].
    apply IH; [lia|assumption..].
  - intros E. injection E as -> ->.
    rewrite bit_diff_same.
    assert (bits_apart ys ys = 0); [|lia].
    apply IH; auto.
Qed.

Lemma digits_range (s : string) : Forall (fun x => 0 <= x < 16) (digits s).
Proof.
  unfold digits. apply Forall_map.
  apply Forall_forall. intros c _. apply digit_range.
Qed.

(** X1. For two non-empty strings of one length, [hammingDistance] is the
    number of bit positions in which their hexadecimal digit values differ,
    a character that is not a hexadecimal digit counting as 0. *)
Theorem hammingDistance_counts_differing_bits (hash1 hash2 : string) :
  hash1 <> EmptyString -> String.length hash1 = String.length hash2 ->
  hammingDistance (Some hash1) (Some hash2)
  = bits_apart (digits hash1) (digits hash2).
Proof.
  intros Hne Hlen.
  rewrite hammingDistance_comparable, hamming_loop_bits by assumption. lia.
Qed.

Lemma hammingDistance_counts_differing_bits_witness :
  hammingDistance (Some "a5"%string) (Some "0f"%string)
  = bits_apart [10; 5] [0; 15].
Proof.
  apply (hammingDistance_counts_differing_bits "a5" "0f");
    [discriminate|reflexivity].
Defined.

(** X2. For two non-empty strings of one length, [hammingDistance] is 0
    exactly when the two strings have the same digit values position by
    position, whatever the letter case and whatever stands in for a
    non-digit. *)
Theorem hammingDistance_zero_iff_same_digits (hash1 hash2 : string) :
  hash1 <> EmptyString -> String.length hash1 = String.length hash2 ->
  (hammingDistance (Some hash1) (Some hash2) = 0
   <-> digits hash1 = digits hash2).
Proof.
  intros Hne Hlen.
  rewrite hammingDistance_comparable, hamming_loop_bits by assumption.
  rewrite Z.add_0_l.
  apply bits_apart_zero; [|apply digits_range ..].
  now rewrite !digits_length.
Qed.

Lemma hammingDistance_zero_iff_same_digits_witness :
  hammingDistance (Some "aB0z"%string) (Some "Ab0g"%string) = 0.
Proof.
  apply (hammingDistance_zero_iff_same_digits "aB0z" "Ab0g");
    [discriminate|reflexivity|reflexivity].
Defined.

(** X3. On strings of at most 64 characters, missing ones included,
    [hammingDistance] obeys the triangle inequality. *)
Theorem hammingDistance_triangle (a b c : option string) :
  (Js.string_length a <= 64)%nat -> (Js.string_length c <= 64)%nat ->
  hammingDistance a c <= hammingDistance a b + hammingDistance b c.
Proof.
  intros Ha Hc.
  pose proof (hammingDistance_range a c) as Hac.
  pose proof (hammingDistance_range a b) as Hab.
  pose proof (hammingDistance_range b c) as Hbc.
  unfold MAX_HAMMING_BITS in *.
  assert (Hle : hammingDistance a c <= 256) by lia.
  destruct (Js.falsy_string a) eqn:Fa.
  { rewrite (hammingDistance_incomparable a b) by auto. lia. }
  destruct (Js.falsy_string b) eqn:Fb.
  { rewrite (hammingDistance_incomparable a b) by auto. lia. }
  destruct (Js.falsy_string c) eqn:Fc.
  { rewrite (hammingDistance_incomparable b c) by auto. lia. }
  destruct (Nat.eq_dec (Js.string_length a) (Js.string_length b)) as [E1|N1].
  2:{ rewrite (hammingDistance_incomparable a b) by auto. lia. }
  destruct (Nat.eq_dec (Js.string_length b) (Js.string_length c)) as [E2|N2].
  2:{ rewrite (hammingDistance_incomparable b c) by auto. lia. }
  destruct a as [[|a1 ar]|]; try discriminate Fa.
  destruct b as [[|b1 br]|]; try discriminate Fb.
  destruct c as [[|c1 cr]|]; try discriminate Fc.
  cbn [Js.string_length] in E1, E2.
  rewrite !hammingDistance_comparable, !hamming_loop_bits
    by (discriminate || congruence).
  rewrite !Z.add_0_l.
  apply bits_apart_triangle; rewrite !digits_length; assumption.
Qed.

Lemma hammingDistance_triangle_witness :
  hammingDistance (Some "f0"%string) (Some "0f"%string)
  <= hammingDistance (Some "f0"%string) None
     + hammingDistance None (Some "0f"%string).
Proof.
  apply (hammingDistance_triangle (Some "f0"%string) None (Some "0f"%string));
    simpl; lia.
Defined.

Lemma digit_toLowerCase (c : ascii) : digit (Js.toLowerCase_char c) = digit c.
Proof.
  destruct c as [[] [] [] [] [] [] [] []]; reflexivity.
Qed.

Lemma digits_toLowerCase (s : string) : digits (Js.toLowerCase s) = digits s.
Proof.
  unfold digits. induction s as [|c s' IH]; simpl; [reflexivity|].
  fold (digit (Js.toLowerCase_char c)) (digit c).
  now rewrite digit_toLowerCase, IH.
Qed.

Lemma toLowerCase_length (s : string) :
  String.length (Js.toLowerCase s) = String.length s.
Proof. induction s as [|c s' IH]; simpl; [reflexivity|now rewrite IH]. Qed.

(** X4. [hammingDistance] does not depend on the letter case of the
    hexadecimal digits: lower-casing an argument leaves every distance
    unchanged. *)
Theorem hammingDistance_ignores_case (hash1 : string) (hash2 : option string) :
  hammingDistance (Some (Js.toLowerCase hash1)) hash2
  = hammingDistance (Some hash1) hash2.
Proof.
  destruct hash2 as [s2|]; [|reflexivity].
  destruct hash1 as [|c1 r1]; [reflexivity|].
  destruct s2 as [|c2 r2]; [reflexivity|].
  destruct (Nat.eq_dec (String.length (String c1 r1))
                       (String.length (String c2 r2))) as [E|N].
  - rewrite !hammingDistance_comparable, !hamming_loop_bits;
      try discriminate; try assumption.
    + now rewrite digits_toLowerCase.
    + now rewrite toLowerCase_length.
  - rewrite !hammingDistance_incomparable; [reflexivity|..];
      right; right; cbn [Js.string_length]; [|rewrite toLowerCase_length];
      exact N.
Qed.

End HammingBits.

(* ------------------------------------------------------------------ *)
(** ** Ranges of the similarity scores *)

Section ScoreRanges.
Import Similarity Spec.
Local Open Scope R_scope.


Lemma histogram_loop_dot (hist1 : list R) :
  forall hist2 d mag1 mag2,
    List.length hist1 = List.length hist2 ->
    histogram_loop hist1 hist2 (d, mag1, mag2) =
    (d + dot hist1 hist2, mag1 + sum_squares hist1, mag2 + sum_squares hist2).
Proof.
  induction hist1 as [|x rest1 IH]; intros [|y rest2] d mag1 mag2 Hlen;
    try discriminate Hlen.
  - simpl. now rewrite !Rplus_0_r.
  - injection Hlen as Hlen. cbn [histogram_loop].
    rewrite IH by exact Hlen. simpl. f_equal; [f_equal|]; ring.
Qed.

Lemma sum_squares_nonneg (v : list R) : 0 <= sum_squares v.
Proof.
  induction v as [|x v' IH]; simpl; [lra|]. nra.
Qed.



Lemma dot_nonneg (a : list R) :
  forall b,
    Forall (fun x => 0 <= x) a -> Forall (fun x => 0 <= x) b -> 0 <= dot a b.
Proof.
  induction a as [|x a' IH]; intros [|y b'] Ha Hb; simpl; try lra.
  inversion Ha; inversion Hb; subst.
  assert (0 <= x * y) by now apply Rmult_le_pos.
  assert (0 <= dot a' b') by now apply IH.
  lra.
Qed.

(** The Cauchy-Schwarz inequality for the loops' sums. *)
Lemma dot_cauchy_schwarz (a : list R) :
  forall b, dot a b * dot a b <= sum_squares a * sum_squares b.
Proof.
  induction a as [|x a' IH]; intros b.
  - destruct b; simpl; nra.
  - destruct b as [|y b'].
    + simpl. pose proof (sum_squares_nonneg a'). nra.
    + simpl. specialize (IH b').
      pose proof (sum_squares_nonneg a') as HA.
      pose proof (sum_squares_nonneg b') as HB.
      set (d := dot a' b') in *. set (A := sum_squares a') in *.
      set (B := sum_squares b') in *.
      clearbody d A B.
      assert (Hmix : 2 * (x * y * d) <= x * x * B + y * y * A).
      { destruct (Req_dec_T B 0) as [EB|NB].
        - subst B. assert (Hd : d * d <= 0) by lra.
          pose proof (Rle_0_sqr d) as Hs. unfold Rsqr in Hs.
          assert (Hz : d * d = 0) by lra.
          apply Rmult_integral in Hz. assert (d = 0) by tauto. subst d.
          rewrite !Rmult_0_r, Rplus_0_l.
          apply Rmult_le_pos; [apply Rle_0_sqr|exact HA].
        - assert (HBpos : 0 < B) by lra.
          apply Rmult_le_reg_l with B; [exact HBpos|].
          pose proof (Rle_0_sqr (x * B - y * d)) as H1. unfold Rsqr in H1.
          assert (H2 : 0 <= y * y * (A * B - d * d)).
          { apply Rmult_le_pos; [apply Rle_0_sqr|lra]. }
          replace (B * (x * x * B + y * y * A))
            with ((x * B - y * d) * (x * B - y * d)
                  + y * y * (A * B - d * d) + B * (2 * (x * y * d))) by ring.
          lra. }
      replace ((x * y + d) * (x * y + d))
        with (x * x * (y * y) + 2 * (x * y * d) + d * d) by ring.
      replace ((x * x + A) * (y * y + B))
        with (x * x * (y * y) + (x * x * B + y * y * A) + A * B) by ring.
      lra.
Qed.

Lemma dot_le_magnitudes (a b : list R) :
  - (magnitude a * magnitude b) <= dot a b <= magnitude a * magnitude b.
Proof.
  unfold magnitude.
  pose proof (dot_cauchy_schwarz a b) as Hcs.
  pose proof (sum_squares_nonneg a) as HA.
  pose proof (sum_squares_nonneg b) as HB.
  pose proof (sqrt_pos (sum_squares a)) as Hsa.
  pose proof (sqrt_pos (sum_squares b)) as Hsb.
  pose proof (sqrt_sqrt _ HA) as Ea. pose proof (sqrt_sqrt _ HB) as Eb.
  set (p := sqrt (sum_squares a)) in *. set (q := sqrt (sum_squares b)) in *.
  assert (Hp : 0 <= p * q) by now apply Rmult_le_pos.
  assert (Hsq : dot a b * dot a b <= (p * q) * (p * q)).
  { replace ((p * q) * (p * q)) with ((p * p) * (q * q)) by ring.
    now rewrite Ea, Eb. }
  split; nra.
Qed.

(** [histogramSimilarity] of two present vectors of one length, as a
    quotient. *)
Lemma histogramSimilarity_value (h1 h2 : list R) :
  List.length h1 = List.length h2 ->
  magnitude h1 <> 0 -> magnitude h2 <> 0 ->
  histogramSimilarity (Some h1) (Some h2)
  = dot h1 h2 / (magnitude h1 * magnitude h2).
Proof.
  intros Hlen H1 H2. unfold histogramSimilarity.
  assert (E : Js.length_differs h1 h2 = false).
  { unfold Js.length_differs. rewrite Hlen, Nat.eqb_refl. reflexivity. }
  rewrite E, histogram_loop_dot by exact Hlen.
  rewrite !Rplus_0_l. fold (magnitude h1) (magnitude h2).
  destruct (Req_dec_T (magnitude h1) 0); [contradiction|].
  destruct (Req_dec_T (magnitude h2) 0); [contradiction|].
  reflexivity.
Qed.

Lemma magnitude_nonneg (v : list R) : 0 <= magnitude v.
Proof. apply sqrt_pos. Qed.

Lemma quotient_range (d p : R) :
  0 < p -> - p <= d <= p -> -1 <= d / p <= 1.
Proof.
  intros Hp [Hlo Hhi]. unfold Rdiv.
  assert (Hinv : 0 < / p) by now apply Rinv_0_lt_compat.
  assert (E : p * / p = 1) by (apply Rinv_r; lra).
  split.
  - replace (-1) with (- p * / p) by (rewrite Ropp_mult_distr_l_reverse, E; ring).
    apply Rmult_le_compat_r; lra.
  - rewrite <- E. apply Rmult_le_compat_r; lra.
Qed.

Lemma histogramSimilarity_bounds (hist1 hist2 : option (list R)) :
  -1 <= histogramSimilarity hist1 hist2 <= 1 /\
  ((forall h, hist1 = Some h -> Forall (fun x => 0 <= x) h) ->
   (forall h, hist2 = Some h -> Forall (fun x => 0 <= x) h) ->
   0 <= histogramSimilarity hist1 hist2).
Proof.
  destruct hist1 as [h1|], hist2 as [h2|];
    try (simpl; split; [lra|intros; lra]).
  destruct (Nat.eq_dec (List.length h1) (List.length h2)) as [Hlen|Hlen].
  2:{ unfold histogramSimilarity. rewrite (length_differs_true _ _ Hlen).
      split; [lra|intros; lra]. }
  destruct (Req_dec_T (magnitude h1) 0) as [Z1|N1].
  { rewrite histogramSimilarity_zero_magnitude by auto.
    split; [lra|intros; lra]. }
  destruct (Req_dec_T (magnitude h2) 0) as [Z2|N2].
  { rewrite histogramSimilarity_zero_magnitude by auto.
    split; [lra|intros; lra]. }
  rewrite histogramSimilarity_value by assumption.
  pose proof (magnitude_nonneg h1). pose proof (magnitude_nonneg h2).
  assert (Hp : 0 < magnitude h1 * magnitude h2)
    by (apply Rmult_lt_0_compat; lra).
  split.
  - apply quotient_range; [exact Hp|apply dot_le_magnitudes].
  - intros Hn1 Hn2.
    apply Rmult_le_pos; [|left; now apply Rinv_0_lt_compat].
    apply dot_nonneg; [now apply Hn1|now apply Hn2].
Qed.

Lemma unit_entries_nonneg (h : list R) :
  Forall (fun x => 0 <= x <= 1) h -> Forall (fun x => 0 <= x) h.
Proof. apply Forall_impl. intros x Hx. lra. Qed.

(** X5. [histogramSimilarity] is never negative on histograms whose entries
    lie between 0 and 1, as the histograms of [computeColorHistogram] do;
    a missing histogram counts as one without entries. *)
Theorem histogramSimilarity_nonnegative (hist1 hist2 : option (list R)) :
  (forall h, hist1 = Some h -> Forall (fun x => 0 <= x <= 1) h) ->
  (forall h, hist2 = Some h -> Forall (fun x => 0 <= x <= 1) h) ->
  0 <= histogramSimilarity hist1 hist2.
Proof.
  intros H1 H2.
  apply (histogramSimilarity_bounds hist1 hist2).
  - intros h E. apply unit_entries_nonneg. now apply H1.
  - intros h E. apply unit_entries_nonneg. now apply H2.
Qed.

Lemma histogramSimilarity_nonnegative_witness :
  0 <= histogramSimilarity (Some [0.5; 0.5]) (Some [1; 0]).
Proof.
  apply (histogramSimilarity_nonnegative (Some [0.5; 0.5]) (Some [1; 0])).
  - intros h E. injection E as <-. repeat constructor; lra.
  - intros h E. injection E as <-. repeat constructor; lra.
Defined.

Lemma clamp_range (d : R) : -1 <= Rmax (-1) (Rmin 1 d) <= 1.
Proof.
  split; [apply Rmax_l|].
  apply Rmax_lub; [lra|apply Rmin_l].
Qed.


Lemma pHashScore_range (hash1 hash2 : option string) :
  (Js.string_length hash1 <= 64)%nat -> 0 <= pHashScore hash1 hash2 <= 1.
Proof.
  intros Hlen. unfold pHashScore, MAX_HAMMING_BITS.
  pose proof (hammingDistance_range hash1 hash2) as [Hlo Hhi].
  unfold MAX_HAMMING_BITS in Hhi.
  assert (Hd : (hammingDistance hash1 hash2 <= 256)%Z) by lia.
  apply IZR_le in Hlo, Hd. lra.
Qed.

Lemma combinedScore_bounds (queryData candidateData : HashData.t)
    (mode : option string) :
  well_formed queryData -> well_formed candidateData ->
  0 <= combinedScore queryData candidateData mode /\
  (mode_is mode MODE_CLIP = true ->
   combinedScore queryData candidateData mode <= 1).
Proof.
  intros [Hq1 Hq2] [Hc1 Hc2].
  pose proof (pHashScore_range (HashData.pHash queryData)
                (HashData.pHash candidateData) Hq1) as Hp.
  pose proof (histogramSimilarity_bounds (HashData.colorHistogram queryData)
                (HashData.colorHistogram candidateData)) as [Hh1 Hh2].
  assert (Hh : 0 <= histogramSimilarity (HashData.colorHistogram queryData)
                                        (HashData.colorHistogram candidateData)).
  { apply Hh2; intros h E; apply unit_entries_nonneg; auto. }
  assert (He : 0 <= clipSimilarity (HashData.embedding queryData)
                                   (HashData.embedding candidateData) <= 1).
  { destruct (HashData.embedding queryData) as [e1|],
             (HashData.embedding candidateData) as [e2|];
      try (simpl; lra).
    unfold clipSimilarity. destruct (Js.length_differs e1 e2); [lra|].
    pose proof (clamp_range (clip_loop e1 e2 0)). lra. }
  destruct (mode_is mode MODE_CLIP) eqn:Mc.
  - unfold combinedScore. rewrite Mc.
    destruct (_ || _); split; try intros _; lra.
  - split; [|discriminate].
    destruct (mode_is mode MODE_PHASH) eqn:Mp.
    + unfold combinedScore. rewrite Mc, Mp. cbv zeta. lra.
    + unfold combinedScore. rewrite Mc, Mp. cbv zeta.
      rewrite hybrid_pScore, hybrid_cScore, hybrid_eScore.
      unfold PHASH_WEIGHT, COLOR_WEIGHT, CLIP_WEIGHT.
      destruct (_ || _); lra.
Qed.



End ScoreRanges.

(* ------------------------------------------------------------------ *)
(** ** What [findSimilar] returns *)

Section SortMore.
Variable A : Type.
Variable key : A -> R.
Local Open Scope R_scope.

Lemma sort_insert_length (x : A) (l : list A) :
  List.length (Js.sort_insert (fun a b => key b - key a) x l)
  = S (List.length l).
Proof.
  induction l as [|y l' IH]; simpl; [reflexivity|].
  destruct (Rlt_dec 0 (key y - key x)); simpl; [now rewrite IH|reflexivity].
Qed.

Lemma sort_length (l : list A) :
  List.length (Js.sort (fun a b => key b - key a) l) = List.length l.
Proof.
  induction l as [|x l' IH]; simpl; [reflexivity|].
  now rewrite sort_insert_length, IH.
Qed.

(** Elements of one key keep their order through the sort. *)
Lemma sort_insert_filter (p : A -> bool) (x : A) (l : list A) :
  (forall y, p y = true -> key y <= key x) ->
  filter p (Js.sort_insert (fun a b => key b - key a) x l)
  = filter p (x :: l).
Proof.
  intros Hp. induction l as [|y l' IH]; [reflexivity|].
  cbn [Js.sort_insert].
  destruct (Rlt_dec 0 (key y - key x)) as [Hlt|Hge]; [|reflexivity].
  cbn [filter] in *.
  destruct (p y) eqn:Py.
  - specialize (Hp y Py). lra.
  - rewrite IH. reflexivity.
Qed.

Lemma sort_filter_key (s : R) (l : list A) :
  filter (fun a => if Req_dec_T (key a) s then true else false)
         (Js.sort (fun a b => key b - key a) l)
  = filter (fun a => if Req_dec_T (key a) s then true else false) l.
Proof.
  induction l as [|x l' IH]; [reflexivity|].
  cbn [Js.sort].
  destruct (Req_dec_T (key x) s) as [E|N].
  - rewrite sort_insert_filter.
    + cbn [filter]. now rewrite IH.
    + intros y Hy. destruct (Req_dec_T (key y) s); [lra|discriminate].
  - assert (Hskip : forall m,
               filter (fun a => if Req_dec_T (key a) s then true else false)
                      (Js.sort_insert (fun a b => key b - key a) x m)
               = filter (fun a => if Req_dec_T (key a) s then true else false) m).
    { induction m as [|y m' IHm]; cbn [Js.sort_insert filter].
      - destruct (Req_dec_T (key x) s); [contradiction|reflexivity].
      - destruct (Rlt_dec 0 (key y - key x)); cbn [filter].
        + now rewrite IHm.
        + destruct (Req_dec_T (key x) s); [contradiction|reflexivity]. }
    rewrite Hskip, IH. cbn [filter].
    destruct (Req_dec_T (key x) s); [contradiction|reflexivity].
Qed.

Lemma sorted_prefix_dominates (n : nat) (l : list A) (x y : A) :
  StronglySorted (fun a b => key b <= key a) l ->
  In x (firstn n l) -> In y (skipn n l) -> key y <= key x.
Proof.
  intros Hs. revert n. induction Hs as [|z l' Hs IH Hz]; intros n Hx Hy.
  - destruct n; simpl in *; contradiction.
  - destruct n as [|n]; [simpl in Hx; contradiction|].
    simpl in Hx, Hy. destruct Hx as [->|Hx].
    + rewrite Forall_forall in Hz. apply Hz.
      revert Hy. clear. revert l'.
      induction n as [|n IHn]; intros [|w l'] H; simpl in *; auto.
    + now apply (IH n).
Qed.

Lemma in_firstn_or_skipn (n : nat) (l : list A) (x : A) :
  In x l -> In x (firstn n l) \/ In x (skipn n l).
Proof.
  intros H. rewrite <- (firstn_skipn n l) in H.
  now apply in_app_or in H.
Qed.

End SortMore.

Section FindSimilarMore.
Import Similarity Spec.
Local Open Scope R_scope.

Lemma slice0_subset {A : Type} (l : list A) (end_ : Z) (x : A) :
  In x (Js.slice0 l end_) -> In x l.
Proof.
  unfold Js.slice0. destruct (end_ <? 0)%Z; apply firstn_subset.
Qed.

Lemma is_excluded_true_iff (k : string) (excludeId : option string) :
  is_excluded k excludeId = false <-> Some k <> excludeId.
Proof.
  split; [apply is_excluded_false|].
  destruct excludeId as [e|]; simpl; [|reflexivity].
  intros H. apply String.eqb_neq. congruence.
Qed.

(** The tests of one loop iteration, as a proposition. *)
Lemma loop_tests (queryData : HashData.t) (cacheItems : JsObject.t HashData.t)
    (threshold : R) (excludeId mode : option string) (k : string)
    (candidate : HashData.t) :
  JsObject.get k cacheItems = Some candidate ->
  (qualifies queryData cacheItems threshold excludeId mode k candidate <->
   is_excluded k excludeId = false
   /\ String.eqb (search_mode mode) MODE_CLIP
      && Js.falsy_array (HashData.embedding candidate) = false
   /\ String.eqb (search_mode mode) MODE_PHASH
      && Js.falsy_string (HashData.pHash candidate) = false
   /\ threshold / 100
      <= combinedScore queryData candidate (Some (search_mode mode))).
Proof.
  intros Hget. unfold qualifies. rewrite is_excluded_true_iff.
  split.
  - intros (_ & Hex & Hclip & Hphash & Hscore).
    split; [exact Hex|]. split; [|split; [|exact Hscore]].
    + destruct (String.eqb_spec (search_mode mode) MODE_CLIP) as [E|N];
        [|reflexivity].
      specialize (Hclip E).
      destruct (HashData.embedding candidate); [reflexivity|contradiction].
    + destruct (String.eqb_spec (search_mode mode) MODE_PHASH) as [E|N];
        [|reflexivity].
      simpl. now apply Hphash.
  - intros (Hex & Hclip & Hphash & Hscore).
    split; [exact Hget|]. split; [exact Hex|].
    split; [|split; [|exact Hscore]].
    + intros E. rewrite E, String.eqb_refl in Hclip. simpl in Hclip.
      destruct (HashData.embedding candidate); [discriminate|discriminate Hclip].
    + intros E. rewrite E, String.eqb_refl in Hphash. exact Hphash.
Qed.

(** What the loop pushes: for each key in turn, the entry if it
    qualifies. *)
Lemma findSimilar_loop_spec (queryData : HashData.t)
    (cacheItems : JsObject.t HashData.t) (threshold : R)
    (excludeId mode : option string) (ids : list string) :
  forall results r,
    In r (findSimilar_loop queryData cacheItems (threshold / 100) excludeId
                           (search_mode mode) ids results)
    <-> In r results
        \/ (In (id r) ids /\
            exists candidate,
              qualifies queryData cacheItems threshold excludeId mode
                        (id r) candidate
              /\ score r
                 = combinedScore queryData candidate (Some (search_mode mode))).
Proof.
  induction ids as [|k ids' IH]; intros results r; cbn [findSimilar_loop].
  - split; [now left|]. intros [H|[[] _]]. exact H.
  - assert (Hskip :
      (forall candidate,
          ~ qualifies queryData cacheItems threshold excludeId mode k candidate) ->
      (In r results
       \/ In (id r) ids' /\
          (exists candidate,
              qualifies queryData cacheItems threshold excludeId mode
                        (id r) candidate
              /\ score r
                 = combinedScore queryData candidate (Some (search_mode mode))))
      <-> (In r results
           \/ In (id r) (k :: ids') /\
              (exists candidate,
                  qualifies queryData cacheItems threshold excludeId mode
                            (id r) candidate
                  /\ score r
                     = combinedScore queryData candidate
                                     (Some (search_mode mode))))).
    { intros Hno. split.
      - intros [H|[Hin Hq]]; [now left|right]. split; [now right|exact Hq].
      - intros [H|[[E|Hin] Hq]]; [now left| |right; now split].
        destruct Hq as [candidate [Hq _]]. subst k.
        exfalso. now apply (Hno candidate). }
    destruct (JsObject.get k cacheItems) as [candidate|] eqn:Hget.
    2:{ assert (Hno : forall c, ~ qualifies queryData cacheItems threshold
                                  excludeId mode k c).
        { intros c [Hc _]. congruence. }
        destruct (is_excluded k excludeId); rewrite IH; now apply Hskip. }
    pose proof (loop_tests queryData cacheItems threshold excludeId mode k
                  candidate Hget) as Htests.
    assert (Hother : forall c, qualifies queryData cacheItems threshold
                                 excludeId mode k c -> c = candidate).
    { intros c [Hc _]. congruence. }
    destruct (is_excluded k excludeId) eqn:Ex.
    { rewrite IH. apply Hskip. intros c Hq.
      rewrite (Hother c Hq) in Hq. apply Htests in Hq.
      destruct Hq as [Hq _]. discriminate Hq. }
    destruct (String.eqb (search_mode mode) MODE_CLIP
              && Js.falsy_array (HashData.embedding candidate)) eqn:Tc.
    { rewrite IH. apply Hskip. intros c Hq.
      rewrite (Hother c Hq) in Hq. apply Htests in Hq.
      destruct Hq as (_ & Hq & _). discriminate Hq. }
    destruct (String.eqb (search_mode mode) MODE_PHASH
              && Js.falsy_string (HashData.pHash candidate)) eqn:Tp.
    { rewrite IH. apply Hskip. intros c Hq.
      rewrite (Hother c Hq) in Hq. apply Htests in Hq.
      destruct Hq as (_ & _ & Hq & _). discriminate Hq. }
    destruct (Rle_dec (threshold / 100)
                (combinedScore queryData candidate (Some (search_mode mode))))
      as [Hle|Hnle].
    2:{ rewrite IH. apply Hskip. intros c Hq.
        rewrite (Hother c Hq) in Hq. apply Htests in Hq.
        destruct Hq as (_ & _ & _ & Hq). contradiction. }
    assert (Hq : qualifies queryData cacheItems threshold excludeId mode k
                           candidate).
    { apply Htests. auto. }
    rewrite IH. rewrite in_app_iff. split.
    + intros [[H|[E|[]]]|[Hin Hc]].
      * now left.
      * right. subst r. simpl. split; [now left|]. now exists candidate.
      * right. split; [now right|exact Hc].
    + intros [H|[[E|Hin] Hc]].
      * left. now left.
      * destruct Hc as [c [Hc Hs]]. subst k.
        rewrite (Hother c Hc) in Hs.
        left. right. left. destruct r as [rid rscore]. simpl in *.
        now rewrite Hs.
      * right. now split.
Qed.

Lemma findSimilar_loop_length (queryData : HashData.t)
    (cacheItems : JsObject.t HashData.t) (thresholdNorm : R)
    (excludeId : option string) (searchMode : string) (ids : list string) :
  forall results,
    (List.length (findSimilar_loop queryData cacheItems thresholdNorm
                                   excludeId searchMode ids results)
     <= List.length results + List.length ids)%nat.
Proof.
  induction ids as [|k ids' IH]; intros results; cbn [findSimilar_loop];
    [lia|].
  assert (Hskip := IH results).
  destruct (is_excluded k excludeId); [simpl; lia|].
  destruct (JsObject.get k cacheItems) as [candidate|]; [|simpl; lia].
  destruct (_ && _); [simpl; lia|].
  destruct (_ && _); [simpl; lia|].
  destruct (Rle_dec _ _); [|simpl; lia].
  specialize (IH (results
                  ++ [mkResult k (combinedScore queryData candidate
                                                (Some searchMode))])).
  rewrite length_app in IH. simpl in *. lia.
Qed.

Lemma findSimilar_sound (queryData : HashData.t)
    (cacheItems : JsObject.t HashData.t) (threshold : R) (maxResults : Z)
    (excludeId mode : option string) (r : ScoredResult) :
  In r (findSimilar queryData cacheItems threshold maxResults excludeId mode) ->
  In (id r) (JsObject.keys cacheItems) /\
  exists candidate,
    qualifies queryData cacheItems threshold excludeId mode (id r) candidate
    /\ score r = combinedScore queryData candidate (Some (search_mode mode)).
Proof.
  intros Hr. unfold findSimilar in Hr. fold (search_mode mode) in Hr.
  apply slice0_subset, sort_In in Hr.
  apply findSimilar_loop_spec in Hr as [[]|Hr]. exact Hr.
Qed.

(** X9. Whatever the limit, every entry [findSimilar] returns names a key
    of the pool whose record passes the tests of the loop (not the excluded
    id, the field the mode needs, the threshold), and carries the combined
    score of that record in the search mode [mode || 'phash']. *)
Theorem findSimilar_entries_qualify (queryData : HashData.t)
    (cacheItems : JsObject.t HashData.t) (threshold : R) (maxResults : Z)
    (excludeId mode : option string) (r : ScoredResult) :
  In r (findSimilar queryData cacheItems threshold maxResults excludeId mode) ->
  In (id r) (JsObject.keys cacheItems) /\
  exists candidate,
    qualifies queryData cacheItems threshold excludeId mode (id r) candidate
    /\ score r = combinedScore queryData candidate (Some (search_mode mode)).
Proof. apply findSimilar_sound. Qed.

Lemma findSimilar_entries_qualify_witness :
  exists candidate,
    qualifies (HashData.mk (Some "ab"%string) None None None)
              [("y"%string, HashData.mk (Some "ab"%string) None None None)]
              50 None None "y" candidate.
Proof.
  assert (Hin : In (mkResult "y"
                      (combinedScore
                         (HashData.mk (Some "ab"%string) None None None)
                         (HashData.mk (Some "ab"%string) None None None)
                         (Some MODE_PHASH)))
                   (findSimilar (HashData.mk (Some "ab"%string) None None None)
                      [("y"%string,
                        HashData.mk (Some "ab"%string) None None None)]
                      50 5 None None)).
  { unfold findSimilar. cbn [JsObject.keys map fst findSimilar_loop].
    change (is_excluded "y" None) with false. cbv iota.
    simpl JsObject.get. cbv iota.
    change (String.eqb MODE_PHASH MODE_CLIP) with false.
    change (String.eqb MODE_PHASH MODE_PHASH) with true.
    cbn [andb HashData.pHash Js.falsy_string].
    destruct (Rle_dec _ _) as [_|Hn].
    - left. reflexivity.
    - exfalso. apply Hn. unfold combinedScore.
      change (mode_is (Some MODE_PHASH) MODE_CLIP) with false.
      change (mode_is (Some MODE_PHASH) MODE_PHASH) with true. cbv iota.
      cbn [HashData.pHash HashData.colorHistogram].
      unfold pHashScore.
      replace (hammingDistance _ _) with 0%Z by reflexivity.
      unfold MAX_HAMMING_BITS, histogramSimilarity. lra. }
  destruct (findSimilar_entries_qualify _ _ _ _ _ _ _ Hin)
    as [_ [candidate [Hq _]]].
  exists candidate. exact Hq.
Defined.

End FindSimilarMore.

Section FindSimilarRanking.
Import Similarity Spec.
Local Open Scope R_scope.

(** With a limit of at least the pool size nothing is cut off. *)
Lemma findSimilar_uncut (queryData : HashData.t)
    (cacheItems : JsObject.t HashData.t) (threshold : R) (maxResults : Z)
    (excludeId mode : option string) :
  (Z.of_nat (List.length cacheItems) <= maxResults)%Z ->
  findSimilar queryData cacheItems threshold maxResults excludeId mode
  = Js.sort (fun a b => score b - score a)
            (findSimilar_loop queryData cacheItems (threshold / 100) excludeId
                              (search_mode mode) (JsObject.keys cacheItems) []).
Proof.
  intros Hmax. unfold findSimilar. fold (search_mode mode).
  rewrite slice0_nonneg by lia.
  apply firstn_all2. rewrite (sort_length ScoredResult score).
  pose proof (findSimilar_loop_length queryData cacheItems (threshold / 100)
                excludeId (search_mode mode) (JsObject.keys cacheItems) [])
    as Hlen.
  unfold JsObject.keys in Hlen. rewrite length_map in Hlen. simpl in Hlen.
  unfold JsObject.keys. lia.
Qed.

Lemma findSimilar_keeps_qualifying (queryData : HashData.t)
    (cacheItems : JsObject.t HashData.t) (threshold : R) (maxResults : Z)
    (excludeId mode : option string) (k : string) (candidate : HashData.t) :
  (Z.of_nat (List.length cacheItems) <= maxResults)%Z ->
  In k (JsObject.keys cacheItems) ->
  qualifies queryData cacheItems threshold excludeId mode k candidate ->
  In (mkResult k (combinedScore queryData candidate (Some (search_mode mode))))
     (findSimilar queryData cacheItems threshold maxResults excludeId mode).
Proof.
  intros Hmax Hin Hq. rewrite findSimilar_uncut by exact Hmax.
  apply sort_In. apply findSimilar_loop_spec. right.
  split; [exact Hin|]. exists candidate. split; [exact Hq|reflexivity].
Qed.

(** X10. With a limit of at least the pool size, every key of the pool whose
    record passes the tests of the loop is returned with its combined
    score. *)
Theorem findSimilar_complete (queryData : HashData.t)
    (cacheItems : JsObject.t HashData.t) (threshold : R) (maxResults : Z)
    (excludeId mode : option string) (k : string) (candidate : HashData.t) :
  (Z.of_nat (List.length cacheItems) <= maxResults)%Z ->
  In k (JsObject.keys cacheItems) ->
  qualifies queryData cacheItems threshold excludeId mode k candidate ->
  In (mkResult k (combinedScore queryData candidate (Some (search_mode mode))))
     (findSimilar queryData cacheItems threshold maxResults excludeId mode).
Proof. apply findSimilar_keeps_qualifying. Qed.

(** A pool of one record that matches the query in pixel mode. *)
Lemma one_match_qualifies :
  qualifies (HashData.mk (Some "ab"%string) None None None)
            [("y"%string, HashData.mk (Some "ab"%string) None None None)]
            50 None None "y"
            (HashData.mk (Some "ab"%string) None None None).
Proof.
  split; [reflexivity|]. split; [discriminate|].
  split; [discriminate|]. split; [reflexivity|].
  unfold search_mode, combinedScore.
  change (mode_is (Some MODE_PHASH) MODE_CLIP) with false.
  change (mode_is (Some MODE_PHASH) MODE_PHASH) with true. cbv iota.
  cbn [HashData.pHash HashData.colorHistogram].
  unfold pHashScore.
  replace (hammingDistance _ _) with 0%Z by reflexivity.
  unfold MAX_HAMMING_BITS, histogramSimilarity. lra.
Qed.

Lemma findSimilar_complete_witness :
  In (mkResult "y"
        (combinedScore (HashData.mk (Some "ab"%string) None None None)
                       (HashData.mk (Some "ab"%string) None None None)
                       (Some MODE_PHASH)))
     (findSimilar (HashData.mk (Some "ab"%string) None None None)
        [("y"%string, HashData.mk (Some "ab"%string) None None None)]
        50 1 None None).
Proof.
  apply (findSimilar_complete
           (HashData.mk (Some "ab"%string) None None None)
           [("y"%string, HashData.mk (Some "ab"%string) None None None)]
           50 1 None None "y"
           (HashData.mk (Some "ab"%string) None None None)).
  - simpl. lia.
  - left. reflexivity.
  - exact one_match_qualifies.
Defined.

(** A pool in pixel mode where [b] and [a] tie below [c]: the loop pushes
    the entries in key order, and the sort puts [c] first and leaves [b]
    before [a]. *)
Lemma tied_pool_scores :
  combinedScore (HashData.mk (Some "ab"%string) None None None)
                (HashData.mk (Some "a0"%string) None None None)
                (Some MODE_PHASH) = 0.6 * (1 - 3 / 256) + 0.4 * 0 /\
  combinedScore (HashData.mk (Some "ab"%string) None None None)
                (HashData.mk (Some "ab"%string) None None None)
                (Some MODE_PHASH) = 0.6 * (1 - 0 / 256) + 0.4 * 0.
Proof.
  split.
  - unfold combinedScore.
    change (mode_is (Some MODE_PHASH) MODE_CLIP) with false.
    change (mode_is (Some MODE_PHASH) MODE_PHASH) with true. cbv iota.
    cbn [HashData.pHash HashData.colorHistogram]. unfold pHashScore.
    replace (hammingDistance _ _) with 3%Z by reflexivity. reflexivity.
  - unfold combinedScore.
    change (mode_is (Some MODE_PHASH) MODE_CLIP) with false.
    change (mode_is (Some MODE_PHASH) MODE_PHASH) with true. cbv iota.
    cbn [HashData.pHash HashData.colorHistogram]. unfold pHashScore.
    replace (hammingDistance _ _) with 0%Z by reflexivity. reflexivity.
Qed.

Lemma tied_pool_loop :
  findSimilar_loop (HashData.mk (Some "ab"%string) None None None)
    [("b"%string, HashData.mk (Some "a0"%string) None None None);
     ("a"%string, HashData.mk (Some "a0"%string) None None None);
     ("c"%string, HashData.mk (Some "ab"%string) None None None)]
    (0 / 100) None (search_mode None) ["b"; "a"; "c"]%string []
  = [mkResult "b" (0.6 * (1 - 3 / 256) + 0.4 * 0);
     mkResult "a" (0.6 * (1 - 3 / 256) + 0.4 * 0);
     mkResult "c" (0.6 * (1 - 0 / 256) + 0.4 * 0)].
Proof.
  destruct tied_pool_scores as [S3 S0].
  cbn [search_mode findSimilar_loop is_excluded].
  simpl JsObject.get. cbv iota.
  change (String.eqb MODE_PHASH MODE_CLIP) with false.
  change (String.eqb MODE_PHASH MODE_PHASH) with true.
  cbn [andb HashData.pHash Js.falsy_string].
  rewrite S3, S0.
  destruct (Rle_dec (0 / 100) (0.6 * (1 - 3 / 256) + 0.4 * 0)); [|lra].
  destruct (Rle_dec (0 / 100) (0.6 * (1 - 0 / 256) + 0.4 * 0)); [|lra].
  reflexivity.
Qed.

Lemma tied_pool_results (maxResults : Z) :
  (0 <= maxResults)%Z ->
  findSimilar (HashData.mk (Some "ab"%string) None None None)
    [("b"%string, HashData.mk (Some "a0"%string) None None None);
     ("a"%string, HashData.mk (Some "a0"%string) None None None);
     ("c"%string, HashData.mk (Some "ab"%string) None None None)]
    0 maxResults None None
  = firstn (Z.to_nat maxResults)
           [mkResult "c" (0.6 * (1 - 0 / 256) + 0.4 * 0);
            mkResult "b" (0.6 * (1 - 3 / 256) + 0.4 * 0);
            mkResult "a" (0.6 * (1 - 3 / 256) + 0.4 * 0)].
Proof.
  intros Hmax. unfold findSimilar. fold (search_mode None).
  cbn [JsObject.keys map fst].
  rewrite tied_pool_loop. rewrite slice0_nonneg by exact Hmax. f_equal.
  cbn [Js.sort Js.sort_insert score].
  repeat match goal with
  | |- context [Rlt_dec ?x ?y] =>
      destruct (Rlt_dec x y); try lra; cbn [Js.sort_insert score]
  end.
  reflexivity.
Qed.

(** X11. Results for a smaller limit are a prefix of the results for a
    larger one, and an entry left out by the smaller limit never scores
    higher than an entry that was kept. *)
Theorem findSimilar_limit_keeps_best (queryData : HashData.t)
    (cacheItems : JsObject.t HashData.t) (threshold : R)
    (smaller larger : Z) (excludeId mode : option string) :
  (0 <= smaller <= larger)%Z ->
  findSimilar queryData cacheItems threshold smaller excludeId mode
  = firstn (Z.to_nat smaller)
           (findSimilar queryData cacheItems threshold larger excludeId mode)
  /\
  (forall kept dropped,
     In kept (findSimilar queryData cacheItems threshold smaller excludeId mode) ->
     In dropped (findSimilar queryData cacheItems threshold larger excludeId mode) ->
     ~ In dropped
          (findSimilar queryData cacheItems threshold smaller excludeId mode) ->
     score dropped <= score kept).
Proof.
  intros Hk. unfold findSimilar. fold (search_mode mode).
  set (sorted := Js.sort (fun a b => score b - score a) _).
  rewrite !slice0_nonneg by lia.
  assert (Hprefix : firstn (Z.to_nat smaller) sorted
                    = firstn (Z.to_nat smaller)
                             (firstn (Z.to_nat larger) sorted)).
  { rewrite firstn_firstn. f_equal. lia. }
  split; [exact Hprefix|].
  intros kept dropped Hkept Hdropped Hnot.
  apply firstn_subset in Hdropped.
  destruct (in_firstn_or_skipn _ (Z.to_nat smaller) sorted dropped Hdropped)
    as [Hin|Hin]; [contradiction|].
  eapply (sorted_prefix_dominates ScoredResult score); eauto.
  apply sort_sorted.
Qed.

Lemma findSimilar_limit_keeps_best_witness :
  let q := HashData.mk (Some "ab"%string) None None None in
  let pool :=
    [("b"%string, HashData.mk (Some "a0"%string) None None None);
     ("a"%string, HashData.mk (Some "a0"%string) None None None);
     ("c"%string, HashData.mk (Some "ab"%string) None None None)] in
  let best := mkResult "c" (0.6 * (1 - 0 / 256) + 0.4 * 0) in
  let tied1 := mkResult "b" (0.6 * (1 - 3 / 256) + 0.4 * 0) in
  let tied2 := mkResult "a" (0.6 * (1 - 3 / 256) + 0.4 * 0) in
  findSimilar q pool 0 3 None None = [best; tied1; tied2] /\
  findSimilar q pool 0 1 None None = [best] /\
  findSimilar q pool 0 1 None None
  = firstn 1 (findSimilar q pool 0 3 None None) /\
  score tied1 <= score best /\ score tied2 <= score best.
Proof.
  intros q pool best tied1 tied2.
  pose proof (tied_pool_results 3 ltac:(lia)) as R3.
  pose proof (tied_pool_results 1 ltac:(lia)) as R1.
  change (findSimilar q pool 0 3 None None = [best; tied1; tied2]) in R3.
  change (findSimilar q pool 0 1 None None = [best]) in R1.
  destruct (findSimilar_limit_keeps_best q pool 0 1 3 None None ltac:(lia))
    as [Hprefix Hbest].
  split; [exact R3|]. split; [exact R1|]. split; [exact Hprefix|].
  rewrite R1, R3 in Hbest.
  split.
  - apply Hbest.
    + left. reflexivity.
    + right. left. reflexivity.
    + intros [H|[]]. discriminate H.
  - apply Hbest.
    + left. reflexivity.
    + right. right. left. reflexivity.
    + intros [H|[]]. discriminate H.
Defined.

(** X12. Entries of equal score keep the order in which the loop met them,
    the order of [Object.keys]: with a limit of at least the pool size, the
    results that have a given score are the pushed entries with that score,
    in push order. *)
Theorem findSimilar_ties_in_enumeration_order (queryData : HashData.t)
    (cacheItems : JsObject.t HashData.t) (threshold : R) (maxResults : Z)
    (excludeId mode : option string) (s : R) :
  (Z.of_nat (List.length cacheItems) <= maxResults)%Z ->
  filter (has_score s)
         (findSimilar queryData cacheItems threshold maxResults excludeId mode)
  = filter (has_score s)
           (findSimilar_loop queryData cacheItems (threshold / 100) excludeId
                             (search_mode mode) (JsObject.keys cacheItems) []).
Proof.
  intros Hmax. rewrite findSimilar_uncut by exact Hmax.
  apply (sort_filter_key ScoredResult score).
Qed.

Lemma findSimilar_ties_in_enumeration_order_witness :
  let q := HashData.mk (Some "ab"%string) None None None in
  let pool :=
    [("b"%string, HashData.mk (Some "a0"%string) None None None);
     ("a"%string, HashData.mk (Some "a0"%string) None None None);
     ("c"%string, HashData.mk (Some "ab"%string) None None None)] in
  let tie := 0.6 * (1 - 3 / 256) + 0.4 * 0 in
  filter (has_score tie) (findSimilar q pool 0 3 None None)
  = [mkResult "b" tie; mkResult "a" tie].
Proof.
  intros q pool tie.
  rewrite (findSimilar_ties_in_enumeration_order q pool 0 3 None None tie)
    by (simpl; lia).
  subst q pool tie. cbn [JsObject.keys map fst].
  rewrite tied_pool_loop. cbn [filter]. unfold has_score. cbn [score].
  destruct (Req_dec_T (0.6 * (1 - 3 / 256) + 0.4 * 0)
                      (0.6 * (1 - 3 / 256) + 0.4 * 0)) as [_|N];
    [|now contradiction N].
  destruct (Req_dec_T (0.6 * (1 - 0 / 256) + 0.4 * 0)
                      (0.6 * (1 - 3 / 256) + 0.4 * 0)) as [E|_]; [lra|].
  reflexivity.
Defined.

(** X13. When the query and every record of the pool are as the indexer
    stores them, no returned score is negative. *)
Theorem findSimilar_scores_nonnegative (queryData : HashData.t)
    (cacheItems : JsObject.t HashData.t) (threshold : R) (maxResults : Z)
    (excludeId mode : option string) (r : ScoredResult) :
  well_formed queryData ->
  (forall k candidate,
     JsObject.get k cacheItems = Some candidate -> well_formed candidate) ->
  In r (findSimilar queryData cacheItems threshold maxResults excludeId mode) ->
  0 <= score r.
Proof.
  intros Hq Hpool Hr.
  apply findSimilar_sound in Hr as [_ [candidate [[Hget _] Hs]]].
  rewrite Hs. apply combinedScore_bounds; [exact Hq|].
  now apply (Hpool (id r)).
Qed.

Lemma findSimilar_scores_nonnegative_witness :
  0 <= combinedScore
         (HashData.mk (Some "ab"%string) (Some [0.5; 0.5]) None None)
         (HashData.mk (Some "ab"%string) (Some [1; 0]) None None)
         (Some MODE_PHASH).
Proof.
  set (q := HashData.mk (Some "ab"%string) (Some [0.5; 0.5]) None None).
  set (c := HashData.mk (Some "ab"%string) (Some [1; 0]) None None).
  assert (Hq : well_formed q).
  { split; [simpl; lia|].
    intros h E. injection E as <-. repeat constructor; lra. }
  assert (Hc : well_formed c).
  { split; [simpl; lia|].
    intros h E. injection E as <-. repeat constructor; lra. }
  apply (findSimilar_scores_nonnegative q [("y"%string, c)] 0 1 None None
           (mkResult "y" (combinedScore q c (Some MODE_PHASH)))).
  - exact Hq.
  - intros k candidate Hget. simpl in Hget.
    destruct (String.eqb k "y"); [|discriminate Hget].
    now injection Hget as <-.
  - apply (findSimilar_keeps_qualifying q [("y"%string, c)] 0 1 None None
             "y" c).
    + simpl. lia.
    + left. reflexivity.
    + split; [reflexivity|]. split; [discriminate|].
      split; [discriminate|]. split; [reflexivity|].
      pose proof (combinedScore_bounds q c (Some (search_mode None)) Hq Hc)
        as [H0 _].
      lra.
Defined.

End FindSimilarRanking.

(* ------------------------------------------------------------------ *)
(** ** Embeddings *)

Section EmbedderFacts.
Import Similarity Spec.
Local Open Scope R_scope.







End EmbedderFacts.

(* ------------------------------------------------------------------ *)
(** ** The cache as a store *)

Section CacheStore.
Import Cache.

Lemma keys_delete (k : string) (o : JsObject.t HashData.t) :
  JsObject.keys (JsObject.delete k o)
  = filter (fun k' => negb (String.eqb k k')) (JsObject.keys o).
Proof.
  induction o as [|[k' v'] o' IH]; simpl; [reflexivity|].
  destruct (String.eqb k k'); simpl; now rewrite IH.
Qed.

Lemma keys_set (k : string) (v : HashData.t) (o : JsObject.t HashData.t) :
  JsObject.keys (JsObject.set k v o)
  = match JsObject.get k o with
    | Some _ => JsObject.keys o
    | None => JsObject.keys o ++ [k]
    end.
Proof.
  induction o as [|[k' v'] o' IH]; simpl; [reflexivity|].
  destruct (String.eqb k k') eqn:E; simpl.
  - apply String.eqb_eq in E. now subst.
  - rewrite IH. now destruct (JsObject.get k o').
Qed.

Lemma filter_filter {A : Type} (f g : A -> bool) (l : list A) :
  filter f (filter g l) = filter (fun x => g x && f x) l.
Proof.
  induction l as [|x l' IH]; simpl; [reflexivity|].
  destruct (g x); simpl; [destruct (f x)|]; now rewrite IH.
Qed.

Lemma filter_ext_in {A : Type} (f g : A -> bool) (l : list A) :
  (forall x, In x l -> f x = g x) -> filter f l = filter g l.
Proof.
  induction l as [|x l' IH]; intros H; simpl; [reflexivity|].
  rewrite (H x (or_introl eq_refl)), IH; [reflexivity|].
  intros y Hy. apply H. now right.
Qed.

(** The keys left by the pruning loop, and how many deletions it counted. *)
Lemma removeOrphans_loop_keys (validSet : list string)
    (cacheIds : list string) :
  forall o removed,
    JsObject.keys (fst (removeOrphans_loop validSet cacheIds o removed))
    = filter (fun k => negb (existsb (String.eqb k) cacheIds
                             && negb (has validSet k)))
             (JsObject.keys o)
    /\ snd (removeOrphans_loop validSet cacheIds o removed)
       = (removed
          + Z.of_nat (List.length
                        (filter (fun k => negb (has validSet k)) cacheIds)))%Z.
Proof.
  induction cacheIds as [|i ids IH]; intros o removed;
    cbn [removeOrphans_loop].
  - simpl. split; [|lia].
    induction (JsObject.keys o) as [|k ks IHk]; simpl; [reflexivity|].
    now rewrite <- IHk.
  - destruct (has validSet i) eqn:Hi; cbn [negb filter].
    + destruct (IH o removed) as [Hk Hn]. rewrite Hk, Hn. rewrite Hi.
      split; [|reflexivity].
      apply filter_ext_in. intros k _. cbn [existsb].
      destruct (String.eqb k i) eqn:E; [|reflexivity].
      apply String.eqb_eq in E. subst k. rewrite Hi.
      cbn [orb negb]. now rewrite !andb_false_r.
    + destruct (IH (JsObject.delete i o) (removed + 1)%Z) as [Hk Hn].
      rewrite Hk, Hn, Hi, keys_delete, filter_filter. cbn [negb List.length].
      split; [|lia].
      apply filter_ext_in. intros k _. cbn [existsb].
      rewrite (String.eqb_sym i k).
      destruct (String.eqb k i) eqn:E; cbn [negb orb andb]; [|reflexivity].
      apply String.eqb_eq in E. subst k. now rewrite Hi.
Qed.

Lemma filter_all {A : Type} (f : A -> bool) (l : list A) :
  (forall x, In x l -> f x = true) -> filter f l = l.
Proof.
  induction l as [|x l' IH]; intros H; simpl; [reflexivity|].
  rewrite (H x (or_introl eq_refl)), IH; [reflexivity|].
  intros y Hy. apply H. now right.
Qed.

Lemma existsb_eqb_in (k : string) (l : list string) :
  In k l -> existsb (String.eqb k) l = true.
Proof.
  intros H. apply existsb_exists. exists k.
  split; [exact H|apply String.eqb_refl].
Qed.

Lemma delete_none (k : string) (o : JsObject.t HashData.t) :
  ~ In k (JsObject.keys o) -> JsObject.delete k o = o.
Proof.
  induction o as [|[k' v'] o' IH]; intros H; simpl; [reflexivity|].
  destruct (String.eqb k k') eqn:E.
  - apply String.eqb_eq in E. subst. exfalso. apply H. now left.
  - rewrite IH; [reflexivity|]. intros Hin. apply H. now right.
Qed.

Lemma removeOrphans_loop_all_valid (validSet : list string)
    (cacheIds : list string) :
  forall o removed,
    (forall k, In k cacheIds -> has validSet k = true) ->
    removeOrphans_loop validSet cacheIds o removed = (o, removed).
Proof.
  induction cacheIds as [|i ids IH]; intros o removed H;
    cbn [removeOrphans_loop]; [reflexivity|].
  rewrite (H i (or_introl eq_refl)). cbn [negb].
  apply IH. intros k Hk. apply H. now right.
Qed.

(** X18. [removeOrphans] removes exactly the records whose id is not among
    the valid ids and leaves every other record as it is, in the same key
    order, without touching the cache file: afterwards [getHash] reads a
    valid id as before and, for any other id, what the items object
    inherits under that name, nothing when the name is not inherited.  It
    schedules a save when it removed something, and leaves the whole state
    as it is when every record is valid. *)
Theorem removeOrphans_exact (validIds : list string) (st : State)
    (d : CacheDocument) :
  _data st = Some d ->
  (forall k, getHash k (removeOrphans validIds st)
             = if has validIds k then getHash k st
               else if Js.inherited k then Some HashData.inherited
                    else None) /\
  (forall k, JsObject.get k (getAllItems (removeOrphans validIds st))
             = if has validIds k then JsObject.get k (getAllItems st)
               else None) /\
  JsObject.keys (getAllItems (removeOrphans validIds st))
  = filter (has validIds) (JsObject.keys (items d)) /\
  file (removeOrphans validIds st) = file st /\
  ((forall k, In k (JsObject.keys (items d)) -> has validIds k = true) ->
   removeOrphans validIds st = st) /\
  ((exists k, In k (JsObject.keys (items d)) /\ has validIds k = false) ->
   _dirty (removeOrphans validIds st) = true
   /\ _saveTimer (removeOrphans validIds st) = true).
Proof.
  intros Hd.
  split; [intros k; now rewrite getHash_removeOrphans, Hd|].
  split; [intros k; apply own_removeOrphans|].
  pose proof (removeOrphans_loop_keys validIds (JsObject.keys (items d))
                (items d) 0) as [Hkeys Hcount].
  unfold removeOrphans, getAllItems. rewrite Hd.
  destruct (removeOrphans_loop validIds (JsObject.keys (items d)) (items d) 0)
    as [o removed] eqn:L.
  cbn [fst snd] in Hkeys, Hcount.
  split; [|split; [|split]].
  - replace (match _data (if (0 <? removed)%Z
                          then save false (with_data st (Some (with_items d o)))
                          else with_data st (Some (with_items d o))) with
             | Some d0 => items d0
             | None => JsObject.empty
             end) with o by (destruct (0 <? removed)%Z; reflexivity).
    rewrite Hkeys. apply filter_ext_in. intros k Hk.
    rewrite (existsb_eqb_in k _ Hk). cbn [andb]. apply negb_involutive.
  - destruct (0 <? removed)%Z; reflexivity.
  - intros Hall.
    rewrite (removeOrphans_loop_all_valid validIds _ (items d) 0 Hall) in L.
    injection L as <- <-. simpl.
    destruct st as [data timer dirty f w]. simpl in Hd. subst data.
    destruct d. reflexivity.
  - intros [k [Hk Hinv]].
    assert (Hpos : (0 < removed)%Z).
    { rewrite Hcount.
      assert (Hin : In k (filter (fun k => negb (has validIds k))
                                 (JsObject.keys (items d)))).
      { apply filter_In. split; [exact Hk|]. now rewrite Hinv. }
      destruct (filter (fun k => negb (has validIds k))
                       (JsObject.keys (items d))); [contradiction|].
      simpl List.length. lia. }
    apply Z.ltb_lt in Hpos. rewrite Hpos. split; reflexivity.
Qed.

Lemma removeOrphans_exact_witness :
  let record := HashData.mk (Some "00ff"%string) None None None in
  let st :=
    mkState (Some (mkDoc CACHE_VERSION "/library"
                         [("a"%string, record); ("gone"%string, record);
                          ("b"%string, record)]))
            false false None true in
  JsObject.keys (getAllItems (removeOrphans ["b"; "a"; "c"]%string st))
  = ["a"; "b"]%string
  /\ _dirty (removeOrphans ["b"; "a"; "c"]%string st) = true.
Proof.
  intros record st.
  pose proof (removeOrphans_exact ["b"; "a"; "c"]%string st
                (mkDoc CACHE_VERSION "/library"
                       [("a"%string, record); ("gone"%string, record);
                        ("b"%string, record)]) eq_refl)
    as (_ & _ & Hkeys & _ & _ & Hdirty).
  split; [exact Hkeys|].
  apply Hdirty. exists "gone"%string. split; [simpl; tauto|reflexivity].
Defined.

(** An orphan stored under an inherited name is removed like any other, and
    its id then reads the inherited value again. *)
Example removeOrphans_inherited_name :
  let record := HashData.mk (Some "00ff"%string) None None None in
  let st :=
    mkState (Some (mkDoc CACHE_VERSION "/library"
                         [("constructor"%string, record)]))
            false false None true in
  getHash "constructor" st = Some record /\
  getAllItems (removeOrphans ["a"]%string st) = JsObject.empty /\
  getHash "constructor" (removeOrphans ["a"]%string st)
  = Some HashData.inherited.
Proof. repeat split. Qed.

(** The document a list of puts leads to. *)
Lemma setHash_open (itemId : string) (r : HashData.t) (st : State)
    (d : CacheDocument) :
  _data st = Some d ->
  setHash itemId r st
  = mkState (Some (with_items d (JsObject.set itemId r (items d))))
            true true (file st) (writable st).
Proof. intros Hd. unfold setHash. rewrite Hd. reflexivity. Qed.

(** X19. A put that was flushed survives a re-open for the same library:
    with a cache open on a document of the current version, after
    [setHash] under an id other than ['__proto__'], a [flush] whose write
    succeeds and [_load] with the same library path, the cache holds the
    document as it was after the put, so [getHash] returns the record. *)
Theorem put_flush_reopen (st : State) (d : CacheDocument) (itemId : string)
    (r : HashData.t) :
  itemId <> "__proto__"%string ->
  _data st = Some d -> version d = CACHE_VERSION -> writable st = true ->
  _data (_load (libraryPath d) (flush (setHash itemId r st)))
  = _data (setHash itemId r st) /\
  getHash itemId (_load (libraryPath d) (flush (setHash itemId r st)))
  = Some r.
Proof.
  intros _ Hd Hv Hw.
  assert (E : _data (_load (libraryPath d) (flush (setHash itemId r st)))
              = _data (setHash itemId r st)).
  { rewrite (setHash_open itemId r st d Hd).
    unfold flush, _doSave, _load. simpl. rewrite Hw. simpl.
    rewrite Hv, Z.eqb_refl, String.eqb_refl. reflexivity. }
  split; [exact E|].
  unfold getHash. rewrite E. fold (getHash itemId (setHash itemId r st)).
  apply getHash_setHash_same. rewrite Hd. discriminate.
Qed.

Lemma put_flush_reopen_witness :
  let record := HashData.mk (Some "00ff"%string) None None None in
  let opened := _load "/library" (mkState None false false None true) in
  getHash "a" (_load "/library" (flush (setHash "a" record opened)))
  = Some record.
Proof.
  intros record opened.
  apply (put_flush_reopen opened
           (mkDoc CACHE_VERSION "/library" JsObject.empty) "a" record);
    [discriminate|reflexivity|reflexivity|reflexivity].
Defined.

(** Any number of puts in a row. *)
Lemma puts_open (puts : list (string * HashData.t)) :
  forall st d,
    _data st = Some d -> puts <> [] ->
    exists d',
      fold_left (fun st p => setHash (fst p) (snd p) st) puts st
      = mkState (Some d') true true (file st) (writable st)
      /\ version d' = version d /\ libraryPath d' = libraryPath d.
Proof.
  induction puts as [|[k r] puts' IH]; intros st d Hd Hne; [contradiction|].
  cbn [fold_left fst snd]. rewrite (setHash_open k r st d Hd).
  destruct puts' as [|p puts''].
  - simpl. eexists. split; [reflexivity|]. split; reflexivity.
  - edestruct (IH (mkState (Some (with_items d (JsObject.set k r (items d))))
                           true true (file st) (writable st))) as [d' [E [Ev El]]];
      [reflexivity|discriminate|].
    exists d'. split; [exact E|]. split; [exact Ev|exact El].
Qed.

(** X20. Puts are debounced: any number of [setHash] calls on an open cache
    leaves the cache file as it was and one pending timer; when the timer
    fires, one write stores the whole current document; and a re-load
    before that reads the old file, so the puts are gone. *)
Theorem puts_are_debounced (puts : list (string * HashData.t)) (st : State)
    (d : CacheDocument) (libraryPath' : string) :
  _data st = Some d -> puts <> [] ->
  let st' := fold_left (fun st p => setHash (fst p) (snd p) st) puts st in
  file st' = file st /\ _saveTimer st' = true /\ _dirty st' = true /\
  (writable st = true ->
   exists d', _data st' = Some d'
              /\ file (timer_fires st') = Some (Json d')
              /\ _dirty (timer_fires st') = false
              /\ _saveTimer (timer_fires st') = false) /\
  _data (_load libraryPath' st') = _data (_load libraryPath' st).
Proof.
  intros Hd Hne st'.
  destruct (puts_open puts st d Hd Hne) as [d' [E _]].
  fold st' in E. rewrite E. simpl.
  repeat split.
  - intros Hw. exists d'. unfold timer_fires, _doSave. simpl. rewrite Hw.
    repeat split.
  - unfold _load. simpl.
    destruct (file st) as [[|parsed]|]; try reflexivity.
    destruct (_ && _); reflexivity.
Qed.

Lemma puts_are_debounced_witness :
  let record := HashData.mk (Some "00ff"%string) None None None in
  let opened := _load "/library" (mkState None false false None true) in
  file (setHash "b" record (setHash "a" record opened)) = None
  /\ getHash "a" (_load "/library"
                        (setHash "b" record (setHash "a" record opened)))
     = None.
Proof.
  intros record opened.
  pose proof (puts_are_debounced
                [("a"%string, record); ("b"%string, record)] opened
                (mkDoc CACHE_VERSION "/library" JsObject.empty) "/library"
                eq_refl ltac:(discriminate))
    as (Hfile & _ & _ & _ & Hload).
  split; [exact Hfile|].
  unfold getHash. cbn [fold_left fst snd] in Hload. rewrite Hload.
  reflexivity.
Defined.

(** X21. [getCachedCount] after a put under an id other than ['__proto__']:
    an id without an own record adds one record, an id that has one adds
    none. *)
Theorem getCachedCount_after_put (st : State) (d : CacheDocument)
    (itemId : string) (r : HashData.t) :
  itemId <> "__proto__"%string ->
  _data st = Some d ->
  getCachedCount (setHash itemId r st)
  = match JsObject.get itemId (getAllItems st) with
    | Some _ => getCachedCount st
    | None => S (getCachedCount st)
    end.
Proof.
  intros _ Hd. rewrite (setHash_open itemId r st d Hd).
  unfold getCachedCount, getAllItems. rewrite Hd. simpl.
  rewrite keys_set.
  destruct (JsObject.get itemId (items d)); [reflexivity|].
  rewrite length_app. simpl. lia.
Qed.

Lemma getCachedCount_after_put_witness :
  let record := HashData.mk (Some "00ff"%string) None None None in
  let opened := _load "/library" (mkState None false false None true) in
  getCachedCount (setHash "a" record (setHash "a" record opened)) = 1%nat.
Proof.
  intros record opened.
  rewrite (getCachedCount_after_put (setHash "a" record opened)
             (mkDoc CACHE_VERSION "/library" [("a"%string, record)])
             "a" record ltac:(discriminate) eq_refl).
  reflexivity.
Defined.

(** X22. [clear] empties the cache at once and for good: no own record is
    left, so [getHash] returns nothing for every id that is not a property
    name inherited from [Object.prototype]; the count is 0; and when the
    write succeeds a re-open for the same library finds the empty
    document. *)
Theorem clear_is_durable (st : State) (d : CacheDocument) :
  _data st = Some d ->
  getAllItems (clear st) = JsObject.empty /\
  (forall k, Js.inherited k = false -> getHash k (clear st) = None) /\
  getCachedCount (clear st) = 0%nat /\
  (writable st = true -> version d = CACHE_VERSION ->
   getAllItems (_load (libraryPath d) (clear st)) = JsObject.empty /\
   forall k, Js.inherited k = false ->
             getHash k (_load (libraryPath d) (clear st)) = None) /\
  (writable st = true ->
   file (clear st) = Some (Json (with_items d JsObject.empty))
   /\ _dirty (clear st) = false).
Proof.
  intros Hd. unfold clear. rewrite Hd.
  unfold save, _doSave, getHash, getCachedCount, getAllItems, lookup,
    JsObject.read. simpl.
  split; [|split; [|split; [|split]]].
  - destruct (writable st); reflexivity.
  - intros k Hk. destruct (writable st); simpl; now rewrite Hk.
  - destruct (writable st); reflexivity.
  - intros Hw Hv. rewrite Hw. unfold _load. simpl.
    rewrite Hv, Z.eqb_refl, String.eqb_refl. simpl.
    split; [reflexivity|]. intros k Hk. now rewrite Hk.
  - intros Hw. rewrite Hw. split; reflexivity.
Qed.

Lemma clear_is_durable_witness :
  let record := HashData.mk (Some "00ff"%string) None None None in
  let st :=
    mkState (Some (mkDoc CACHE_VERSION "/library" [("a"%string, record)]))
            false false None true in
  getHash "a" (_load "/library" (clear st)) = None.
Proof.
  intros record st.
  destruct (clear_is_durable st
              (mkDoc CACHE_VERSION "/library" [("a"%string, record)])
              eq_refl) as (_ & _ & _ & H & _).
  destruct (H eq_refl eq_refl) as [_ Hget].
  apply Hget. reflexivity.
Defined.

(** Before [init] has run, [Cache._data] is null: every read answers
    as for an empty cache and a put, a prune or a clear changes nothing. *)
Theorem cache_not_opened (st : State) (itemId : string) (r : HashData.t)
    (validIds : list string) :
  _data st = None ->
  getHash itemId st = None /\ hasValidHash itemId st = false /\
  getCachedCount st = 0%nat /\ getAllItems st = JsObject.empty /\
  setHash itemId r st = st /\ removeOrphans validIds st = st /\
  clear st = st /\ file (flush st) = file st.
Proof.
  intros Hd.
  unfold getHash, hasValidHash, getCachedCount, getAllItems, setHash,
    removeOrphans, clear, flush, _doSave.
  simpl. rewrite Hd. repeat split.
Qed.

Lemma cache_not_opened_witness :
  setHash "a" HashData.empty (mkState None false false None true)
  = mkState None false false None true.
Proof.
  apply (cache_not_opened (mkState None false false None true) "a"
           HashData.empty []).
  reflexivity.
Defined.

End CacheStore.

(* ------------------------------------------------------------------ *)
(** ** Cache file names and image extensions *)

Section NameFacts.
Import Cache Indexer.







Lemma toLowerCase_char_idempotent (c : ascii) :
  Js.toLowerCase_char (Js.toLowerCase_char c) = Js.toLowerCase_char c.
Proof. destruct c as [[] [] [] [] [] [] [] []]; reflexivity. Qed.

Lemma toLowerCase_idempotent (s : string) :
  Js.toLowerCase (Js.toLowerCase s) = Js.toLowerCase s.
Proof.
  induction s as [|c s' IH]; simpl; [reflexivity|].
  now rewrite toLowerCase_char_idempotent, IH.
Qed.

(** X24. [isImageType] ignores the letter case of the extension: it accepts
    exactly the extensions whose lower-case form is one of the eleven
    listed, and it rejects a missing or empty extension. *)
Theorem isImageType_case_insensitive (ext : string) :
  isImageType (Some (Js.toLowerCase ext)) = isImageType (Some ext) /\
  (isImageType (Some ext) = true <-> In (Js.toLowerCase ext) IMAGE_EXTENSIONS) /\
  isImageType None = false /\ isImageType (Some EmptyString) = false.
Proof.
  assert (Hiff : forall e, isImageType (Some e) = true
                           <-> In (Js.toLowerCase e) IMAGE_EXTENSIONS).
  { intros e. unfold isImageType.
    destruct e as [|c s].
    - simpl. split; [discriminate|].
      intros H. repeat (destruct H as [H|H]; [discriminate H|]). contradiction.
    - cbn [Js.falsy_string]. rewrite existsb_exists. split.
      + intros [x [Hin E]]. apply String.eqb_eq in E. now subst.
      + intros Hin. eexists. split; [exact Hin|apply String.eqb_refl]. }
  split; [|split; [exact (Hiff ext)|split; reflexivity]].
  destruct (isImageType (Some ext)) eqn:E.
  - apply Hiff. rewrite toLowerCase_idempotent. now apply Hiff.
  - destruct (isImageType (Some (Js.toLowerCase ext))) eqn:E'; [|reflexivity].
    apply Hiff in E'. rewrite toLowerCase_idempotent in E'.
    apply Hiff in E'. congruence.
Qed.

Lemma isImageType_case_insensitive_witness :
  isImageType (Some "PNG"%string) = true.
Proof.
  apply (isImageType_case_insensitive "PNG"%string).
  right. right. left. reflexivity.
Defined.

Example isImageType_examples :
  isImageType (Some "JPG"%string) = true
  /\ isImageType (Some "Avif"%string) = true
  /\ isImageType (Some "mp4"%string) = false
  /\ isImageType (Some ".png"%string) = false.
Proof. repeat split. Qed.

End NameFacts.

(* ------------------------------------------------------------------ *)
(** ** Complete indexing runs *)

Section IndexerCompletion.
Import Cache Indexer.

Variable computeHashes : string -> option (string * list R).
Variable Embedder_isReady : bool.
Variable computeEmbedding : string -> option (list R).
Variable _shouldStop : string -> nat -> bool.

Lemma hasValidHash_getHash (k : string) (st : State) :
  hasValidHash k st =
  match getHash k st with
  | None => false
  | Some cached =>
      negb (Js.falsy_string (HashData.pHash cached))
      && match HashData.colorHistogram cached with
         | Some h => (0 <? List.length h)%nat
         | None => false
         end
  end.
Proof. unfold hasValidHash, getHash. now destruct (_data st). Qed.

Lemma hasValidHash_ext (k : string) (st st' : State) :
  getHash k st = getHash k st' -> hasValidHash k st = hasValidHash k st'.
Proof. intros E. now rewrite !hasValidHash_getHash, E. Qed.

Lemma hasValidHash_open (k : string) (st : State) :
  hasValidHash k st = true -> _data st <> None.
Proof.
  unfold hasValidHash. destruct (_data st); intros H; [discriminate|discriminate H].
Qed.

Lemma setHash_keeps_open (k : string) (r : HashData.t) (st : State) :
  _data st <> None -> _data (setHash k r st) <> None.
Proof.
  unfold setHash. destruct (_data st) as [d|]; intros H; [|contradiction].
  simpl. discriminate.
Qed.

Lemma removeOrphans_keeps_open (validIds : list string) (st : State) :
  _data st <> None -> _data (removeOrphans validIds st) <> None.
Proof.
  unfold removeOrphans. destruct (_data st) as [d|]; intros H; [|contradiction].
  destruct (removeOrphans_loop validIds _ _ _) as [o removed].
  destruct (0 <? removed)%Z; simpl; discriminate.
Qed.

Lemma phash_item_open (st : State) (item : Item.t) :
  _data st <> None -> _data (phash_item computeHashes st item) <> None.
Proof.
  intros H. unfold phash_item.
  destruct (getHashPath item) as [p|]; [|exact H].
  destruct (computeHashes p) as [[pHash h]|]; [|exact H].
  now apply setHash_keeps_open.
Qed.

Lemma hasValidHash_written (k : string) (pHash : string) (h : list R)
    (ext : option string) (st : State) :
  _data st <> None -> pHash <> EmptyString -> h <> [] ->
  hasValidHash k (setHash k (HashData.mk (Some pHash) (Some h) None ext) st)
  = true.
Proof.
  intros Ho Hp Hh. rewrite hasValidHash_getHash, getHash_setHash_same by exact Ho.
  destruct pHash as [|c p]; [contradiction|].
  destruct h as [|x h]; [contradiction|]. reflexivity.
Qed.

Lemma phash_item_mono (k : string) (st : State) (item : Item.t) :
  Spec.hasher_sound computeHashes ->
  hasValidHash k st = true ->
  hasValidHash k (phash_item computeHashes st item) = true.
Proof.
  intros Hs Hv. unfold phash_item.
  destruct (getHashPath item) as [p|]; [|exact Hv].
  destruct (computeHashes p) as [[pHash h]|] eqn:E; [|exact Hv].
  destruct (Hs _ _ _ E) as [Hp Hh].
  destruct (String.eqb k (Item.id item)) eqn:Ek.
  - apply String.eqb_eq in Ek. subst k.
    apply hasValidHash_written; [eapply hasValidHash_open; eauto|exact Hp|exact Hh].
  - apply String.eqb_neq in Ek. rewrite <- Hv. apply hasValidHash_ext.
    now apply getHash_setHash_other.
Qed.

Lemma phash_item_writes (st : State) (item : Item.t) :
  _data st <> None ->
  Spec.hasher_sound computeHashes ->
  Spec.resolves computeHashes item ->
  hasValidHash (Item.id item) (phash_item computeHashes st item) = true.
Proof.
  intros Ho Hs [p [Hp Hc]]. unfold phash_item. rewrite Hp.
  destruct (computeHashes p) as [[pHash h]|] eqn:E; [|contradiction].
  destruct (Hs _ _ _ E) as [Hp' Hh]. now apply hasValidHash_written.
Qed.

Lemma phash_fold_open (l : list Item.t) :
  forall st, _data st <> None ->
             _data (fold_left (phash_item computeHashes) l st) <> None.
Proof.
  induction l as [|item l' IH]; intros st H; simpl; [exact H|].
  apply IH. now apply phash_item_open.
Qed.

Lemma phash_fold_mono (k : string) (l : list Item.t) :
  Spec.hasher_sound computeHashes ->
  forall st, hasValidHash k st = true ->
             hasValidHash k (fold_left (phash_item computeHashes) l st) = true.
Proof.
  intros Hs. induction l as [|item l' IH]; intros st H; simpl; [exact H|].
  apply IH. now apply phash_item_mono.
Qed.

Lemma phash_fold_writes (l : list Item.t) (item : Item.t) :
  Spec.hasher_sound computeHashes ->
  Spec.resolves computeHashes item ->
  In item l ->
  forall st, _data st <> None ->
    hasValidHash (Item.id item) (fold_left (phash_item computeHashes) l st)
    = true.
Proof.
  intros Hs Hr. induction l as [|x l' IH]; intros Hin st Ho; [contradiction|].
  simpl. destruct Hin as [->|Hin].
  - apply phash_fold_mono; [exact Hs|]. now apply phash_item_writes.
  - apply IH; [exact Hin|]. now apply phash_item_open.
Qed.

Lemma phash_loop_done (toIndex : list Item.t) (alreadyCached totalImages : Z)
    (fuel i : nat) (processed : Z) (st : State) (log : list Progress) :
  (List.length toIndex <= i)%nat ->
  phash_loop computeHashes _shouldStop fuel toIndex alreadyCached totalImages
             i processed st log = (st, log).
Proof.
  intros H. destruct fuel as [|fuel]; cbn [phash_loop]; [reflexivity|].
  assert (E : (i <? List.length toIndex)%nat = false) by (apply Nat.ltb_ge; lia).
  now rewrite E.
Qed.

(** A run that is never stopped hashes every item of [toIndex], in order. *)
Lemma phash_loop_unstopped (toIndex : list Item.t)
    (alreadyCached totalImages : Z) (fuel : nat) :
  (forall j, _shouldStop "phash" j = false) ->
  forall i processed st log,
    (List.length toIndex <= i + fuel)%nat ->
    fst (phash_loop computeHashes _shouldStop fuel toIndex alreadyCached
                    totalImages i processed st log)
    = fold_left (phash_item computeHashes) (skipn i toIndex) st.
Proof.
  intros Hns. induction fuel as [|fuel IH]; intros i processed st log Hlen.
  - rewrite phash_loop_done by lia. rewrite skipn_all2 by lia. reflexivity.
  - destruct (Nat.ltb i (List.length toIndex)) eqn:E.
    + cbn [phash_loop]. rewrite E, Hns. cbn [negb].
      rewrite IH by (unfold CHUNK_SIZE; lia).
      unfold Js.slice. rewrite <- fold_left_app. f_equal.
      replace (skipn (i + CHUNK_SIZE) toIndex)
        with (skipn CHUNK_SIZE (skipn i toIndex))
        by (rewrite skipn_skipn; f_equal; lia).
      apply firstn_skipn.
    + apply Nat.ltb_ge in E.
      rewrite phash_loop_done by lia. rewrite skipn_all2 by lia. reflexivity.
Qed.

Lemma filter_nil_inv {A : Type} (f : A -> bool) (l : list A) (x : A) :
  filter f l = [] -> In x l -> f x = false.
Proof.
  intros E Hin. destruct (f x) eqn:Hf; [|reflexivity].
  assert (H : In x (filter f l)) by (apply filter_In; auto).
  rewrite E in H. contradiction.
Qed.

(** The state after a fingerprint phase that is never stopped. *)
Lemma indexPhash_unstopped (items : list Item.t) (st : State) :
  (forall j, _shouldStop "phash" j = false) ->
  let toIndex :=
    filter (fun item =>
              if negb (isImageType (Item.ext item)) then false
              else negb (hasValidHash (Item.id item) st)) items in
  toIndex <> [] ->
  fst (_indexPhash computeHashes _shouldStop items st)
  = flush (fold_left (phash_item computeHashes) toIndex
                     (removeOrphans (map Item.id items) st)).
Proof.
  intros Hns toIndex Hne. unfold _indexPhash. fold toIndex.
  destruct toIndex as [|item1 rest] eqn:E; [contradiction|].
  rewrite <- E.
  destruct (phash_loop computeHashes _shouldStop (List.length toIndex) toIndex
              _ _ 0 0 _ _) as [st2 log2] eqn:L.
  cbn [fst]. f_equal.
  change st2 with (fst (st2, log2)). rewrite <- L.
  rewrite phash_loop_unstopped by (auto; lia). reflexivity.
Qed.

Lemma indexPhash_valid_after (items : list Item.t) (st : State)
    (item : Item.t) :
  _data st <> None ->
  (forall i, _shouldStop "phash" i = false) ->
  Spec.hasher_sound computeHashes ->
  In item items -> isImageType (Item.ext item) = true ->
  hasValidHash (Item.id item) st = true \/ Spec.resolves computeHashes item ->
  hasValidHash (Item.id item)
               (fst (_indexPhash computeHashes _shouldStop items st)) = true.
Proof.
  intros Ho Hns Hs Hin Himg Hcase.
  pose proof (indexPhash_unstopped items st Hns) as Hrun. cbv zeta in Hrun.
  set (toIndex := filter _ items) in Hrun.
  destruct toIndex as [|item1 rest] eqn:E.
  - clear Hrun. unfold _indexPhash. fold toIndex in E.
    unfold toIndex in E. rewrite E. cbn [fst].
    destruct Hcase as [Hv|_]; [exact Hv|].
    pose proof (filter_nil_inv _ _ item E Hin) as Hf. cbv beta in Hf.
    rewrite Himg in Hf. cbn [negb] in Hf. now apply negb_false_iff in Hf.
  - rewrite Hrun by discriminate. rewrite <- E. clear Hrun.
    unfold flush.
    rewrite (hasValidHash_ext _ _ _ (getHash_doSave _ _)).
    destruct (hasValidHash (Item.id item) st) eqn:Hv.
    + apply phash_fold_mono; [exact Hs|].
      rewrite <- Hv. apply hasValidHash_ext.
      rewrite getHash_removeOrphans.
      assert (Hh : has (map Item.id items) (Item.id item) = true)
        by (apply has_true_iff; now apply in_map).
      now rewrite Hh.
    + destruct Hcase as [Hc|Hr]; [discriminate Hc|].
      apply phash_fold_writes; [exact Hs|exact Hr| |].
      * unfold toIndex. apply filter_In. split; [exact Hin|].
        now rewrite Himg, Hv.
      * now apply removeOrphans_keeps_open.
Qed.

(** X25. A fingerprint phase that is never stopped, on an open cache and
    with a hasher whose answers are usable, leaves every image of the
    library fingerprint-complete if it was so before or if its hashing
    resolves; and when that holds of every image, running the phase again
    changes nothing and reports nothing. *)
Theorem indexPhash_completes (items : list Item.t) (st : State) :
  _data st <> None ->
  (forall i, _shouldStop "phash" i = false) ->
  Spec.hasher_sound computeHashes ->
  let st' := fst (_indexPhash computeHashes _shouldStop items st) in
  (forall item,
     In item items -> isImageType (Item.ext item) = true ->
     hasValidHash (Item.id item) st = true
     \/ Spec.resolves computeHashes item ->
     hasValidHash (Item.id item) st' = true) /\
  ((forall item, In item items -> isImageType (Item.ext item) = true ->
                 Spec.resolves computeHashes item) ->
   _indexPhash computeHashes _shouldStop items st' = (st', [])).
Proof.
  intros Ho Hns Hs st'. split.
  - intros item Hin Himg Hcase. now apply indexPhash_valid_after.
  - intros Hall. apply indexPhash_all_indexed.
    intros item Hin Himg. apply indexPhash_valid_after; auto.
Qed.

Lemma filter_length_sub {A : Type} (f g : A -> bool) (l : list A) :
  (forall x, g x = true -> f x = true) ->
  (List.length (filter g l) <= List.length (filter f l))%nat.
Proof.
  intros H. induction l as [|x l' IH]; simpl; [lia|].
  destruct (g x) eqn:Eg.
  - rewrite (H x Eg). simpl. lia.
  - destruct (f x); simpl; lia.
Qed.

Lemma filter_length_lt {A : Type} (f : A -> bool) (l : list A) (x : A) :
  In x l -> f x = false -> (List.length (filter f l) < List.length l)%nat.
Proof.
  induction l as [|y l' IH]; intros Hin Hf; [contradiction|].
  simpl. pose proof (filter_length_le f l') as Hle.
  destruct Hin as [->|Hin].
  - rewrite Hf. lia.
  - specialize (IH Hin Hf). destruct (f y); simpl; lia.
Qed.

Lemma filter_all_length {A : Type} (f : A -> bool) (l : list A) :
  (forall x, In x l -> f x = true) -> List.length (filter f l) = List.length l.
Proof.
  induction l as [|y l' IH]; intros H; simpl; [reflexivity|].
  rewrite (H y (or_introl eq_refl)). simpl. f_equal. apply IH.
  intros x Hx. apply H. now right.
Qed.

Lemma slice_length {A : Type} (l : list A) (i n : nat) :
  List.length (Js.slice l i n) = Nat.min n (List.length l - i).
Proof. unfold Js.slice. now rewrite length_firstn, length_skipn. Qed.

(** Every report of the chunk loop carries the count of the items handled
    so far. *)
Lemma phash_loop_reports (toIndex : list Item.t) (alreadyCached totalImages : Z)
    (P : Progress -> Prop) (fuel : nat) :
  (forall n : nat, (n <= List.length toIndex)%nat ->
     P (mkProgress (alreadyCached + Z.of_nat n) totalImages "phash")) ->
  forall i processed st log,
    processed = Z.of_nat (Nat.min i (List.length toIndex)) ->
    Forall P log ->
    Forall P (snd (phash_loop computeHashes _shouldStop fuel toIndex
                              alreadyCached totalImages i processed st log)).
Proof.
  intros HP. induction fuel as [|fuel IH]; intros i processed st log Hp Hlog;
    cbn [phash_loop]; [exact Hlog|].
  destruct (Nat.ltb i (List.length toIndex)) eqn:E; [|exact Hlog].
  apply Nat.ltb_lt in E. cbn [negb].
  destruct (_shouldStop "phash" i); [exact Hlog|].
  rewrite slice_length.
  apply IH.
  - subst processed. unfold CHUNK_SIZE. lia.
  - apply Forall_app. split; [exact Hlog|]. constructor; [|constructor].
    replace (processed + Z.of_nat (Nat.min CHUNK_SIZE (List.length toIndex - i)))%Z
      with (Z.of_nat (Nat.min (i + CHUNK_SIZE) (List.length toIndex)))
      by (subst processed; unfold CHUNK_SIZE; lia).
    apply HP. lia.
Qed.

(** The last report of a chunk loop that is never stopped counts every item
    of [toIndex]. *)
Lemma phash_loop_final (toIndex : list Item.t) (alreadyCached totalImages : Z)
    (fuel : nat) :
  (forall j, _shouldStop "phash" j = false) ->
  forall i processed st front,
    (List.length toIndex <= i + fuel)%nat ->
    processed = Z.of_nat (Nat.min i (List.length toIndex)) ->
    exists front',
      snd (phash_loop computeHashes _shouldStop fuel toIndex alreadyCached
             totalImages i processed st
             (front ++ [mkProgress (alreadyCached + processed) totalImages "phash"]))
      = front' ++ [mkProgress (alreadyCached + Z.of_nat (List.length toIndex))
                              totalImages "phash"].
Proof.
  intros Hns. induction fuel as [|fuel IH]; intros i processed st front Hlen Hp.
  - rewrite phash_loop_done by lia. exists front. cbn [snd].
    subst processed. now rewrite Nat.min_r by lia.
  - destruct (Nat.ltb i (List.length toIndex)) eqn:E.
    + cbn [phash_loop]. rewrite E, Hns. cbn [negb]. rewrite slice_length.
      apply IH; [unfold CHUNK_SIZE; lia|].
      subst processed. unfold CHUNK_SIZE. lia.
    + apply Nat.ltb_ge in E. rewrite phash_loop_done by lia.
      exists front. cbn [snd]. subst processed. now rewrite Nat.min_r by lia.
Qed.

(** The chunk loop only appends to the reports. *)
Lemma phash_loop_extends (toIndex : list Item.t) (alreadyCached totalImages : Z)
    (fuel : nat) :
  forall i processed st log,
    exists mid,
      snd (phash_loop computeHashes _shouldStop fuel toIndex alreadyCached
                      totalImages i processed st log) = log ++ mid.
Proof.
  induction fuel as [|fuel IH]; intros i processed st log; cbn [phash_loop].
  - exists []. now rewrite app_nil_r.
  - destruct (negb (i <? List.length toIndex)%nat);
      [exists []; now rewrite app_nil_r|].
    destruct (_shouldStop "phash" i); [exists []; now rewrite app_nil_r|].
    match goal with
    | |- context [phash_loop _ _ fuel _ _ _ ?i' ?p' ?s' (log ++ [?r])] =>
        destruct (IH i' p' s' (log ++ [r])) as [mid Hm]; exists (r :: mid);
        rewrite Hm, <- app_assoc; reflexivity
    end.
Qed.

(** X26. The progress reports of the fingerprint phase: each one names the
    number of images of the library as its total and a count between 0 and
    that total; nothing is reported exactly when every image is already
    fingerprint-complete; and the last report of a run that is never
    stopped has the count at the total. *)
Theorem indexPhash_progress (items : list Item.t) (st : State) :
  let totalImages := Z.of_nat (List.length (Spec.images items)) in
  let log := snd (_indexPhash computeHashes _shouldStop items st) in
  Forall (fun p => total p = totalImages /\ phase p = "phash"%string
                   /\ (0 <= processed p <= totalImages)%Z) log /\
  (log = [] <->
   forall item, In item items -> isImageType (Item.ext item) = true ->
                hasValidHash (Item.id item) st = true) /\
  ((forall i, _shouldStop "phash" i = false) -> log <> [] ->
   exists front, log = front ++ [mkProgress totalImages totalImages "phash"]).
Proof.
  intros totalImages log. unfold log, _indexPhash.
  fold (Spec.images items). fold totalImages.
  set (toIndex := filter _ items).
  assert (Hle : (List.length toIndex <= List.length (Spec.images items))%nat).
  { unfold toIndex, Spec.images. apply filter_length_sub.
    intros x Hx. destruct (isImageType (Item.ext x)); [reflexivity|discriminate Hx]. }
  destruct toIndex as [|item1 rest] eqn:E.
  - cbn [snd]. split; [constructor|]. split; [|intros _ H; now contradiction H].
    split; [|reflexivity]. intros _ item Hin Himg.
    pose proof (filter_nil_inv _ _ item E Hin) as Hf. cbv beta in Hf.
    rewrite Himg in Hf. cbn [negb] in Hf. now apply negb_false_iff in Hf.
  - rewrite <- E in *.
    set (alreadyCached := (totalImages - Z.of_nat (List.length toIndex))%Z).
    set (st1 := removeOrphans _ st).
    assert (Hnil : [mkProgress alreadyCached totalImages "phash"]
                   = [] ++ [mkProgress (alreadyCached + 0) totalImages "phash"])
      by (now rewrite Z.add_0_r).
    pose proof (phash_loop_reports toIndex alreadyCached totalImages
                  (fun p => total p = totalImages /\ phase p = "phash"%string
                            /\ (0 <= processed p <= totalImages)%Z)
                  (List.length toIndex)) as Hrep.
    assert (HP : forall n : nat, (n <= List.length toIndex)%nat ->
               total (mkProgress (alreadyCached + Z.of_nat n) totalImages "phash")
               = totalImages
               /\ phase (mkProgress (alreadyCached + Z.of_nat n) totalImages "phash")
                  = "phash"%string
               /\ (0 <= processed (mkProgress (alreadyCached + Z.of_nat n)
                                              totalImages "phash")
                    <= totalImages)%Z).
    { intros n Hn. cbn [total phase processed].
      unfold alreadyCached, totalImages. repeat split; lia. }
    specialize (Hrep HP).
    specialize (Hrep 0%nat 0%Z st1 [mkProgress alreadyCached totalImages "phash"]
                     eq_refl).
    assert (Hne : forall st2 log2,
               phash_loop computeHashes _shouldStop (List.length toIndex) toIndex
                 alreadyCached totalImages 0 0 st1
                 [mkProgress alreadyCached totalImages "phash"] = (st2, log2) ->
               log2 <> []).
    { intros st2 log2 L.
      destruct (phash_loop_extends toIndex alreadyCached totalImages
                  (List.length toIndex) 0%nat 0%Z st1
                  [mkProgress alreadyCached totalImages "phash"]) as [mid Hm].
      rewrite L in Hm. cbn [snd] in Hm. rewrite Hm. discriminate. }
    destruct (phash_loop computeHashes _shouldStop (List.length toIndex) toIndex
                alreadyCached totalImages 0 0 st1
                [mkProgress alreadyCached totalImages "phash"])
      as [st2 log2] eqn:L.
    cbn [snd] in *. split; [|split].
    + apply Hrep. constructor; [|constructor].
      repeat split; cbn [processed]; unfold alreadyCached, totalImages; lia.
    + split; [intros H; now apply (Hne st2 log2) in H|].
      intros Hall. exfalso.
      assert (Hin : In item1 toIndex) by (rewrite E; now left).
      unfold toIndex in Hin. apply filter_In in Hin as [Hin Hf].
      destruct (isImageType (Item.ext item1)) eqn:Himg; [|discriminate Hf].
      cbn [negb] in Hf. rewrite (Hall item1 Hin Himg) in Hf. discriminate Hf.
    + intros Hns _.
      destruct (phash_loop_final toIndex alreadyCached totalImages
                  (List.length toIndex) Hns 0%nat 0%Z st1 [] ltac:(lia) eq_refl)
        as [front' Hf].
      rewrite <- Hnil in Hf. rewrite L in Hf. cbn [snd] in Hf.
      exists front'. rewrite Hf. unfold alreadyCached.
      now replace (totalImages - Z.of_nat (List.length toIndex)
                   + Z.of_nat (List.length toIndex))%Z with totalImages by lia.
Qed.

(** The embedding loop writes records of the items to embed only. *)
Lemma clip_loop_other (k : string) (alreadyEmbedded totalImages : Z) :
  forall toEmbed i processed st log,
    (forall item, In item toEmbed -> Item.id item <> k) ->
    getHash k (fst (clip_loop computeEmbedding _shouldStop toEmbed
                              alreadyEmbedded totalImages i processed st log))
    = getHash k st.
Proof.
  induction toEmbed as [|item toEmbed' IH]; intros i processed st log H;
    cbn [clip_loop]; [reflexivity|].
  destruct (_shouldStop "clip" i); [reflexivity|].
  assert (Hrest : forall x, In x toEmbed' -> Item.id x <> k)
    by (intros x Hx; apply H; now right).
  destruct (getHashPath item) as [hashPath|]; rewrite IH by exact Hrest;
    [|reflexivity].
  destruct (computeEmbedding hashPath) as [embedding|]; [|reflexivity].
  apply getHash_setHash_other. intros E. apply (H item); [now left|congruence].
Qed.

(** An embedding loop that is never stopped leaves an embedding in the
    record of every item whose embedding resolves. *)
Lemma clip_loop_embeds (alreadyEmbedded totalImages : Z) (item : Item.t) :
  (forall j, _shouldStop "clip" j = false) ->
  Spec.resolves computeEmbedding item ->
  forall toEmbed i processed st log,
    In item toEmbed -> _data st <> None ->
    exists r',
      getHash (Item.id item)
              (fst (clip_loop computeEmbedding _shouldStop toEmbed
                              alreadyEmbedded totalImages i processed st log))
      = Some r'
      /\ HashData.embedding r' <> None.
Proof.
  intros Hns [p [Hp Hc]].
  induction toEmbed as [|x toEmbed' IH]; intros i processed st log Hin Ho;
    [contradiction|].
  cbn [clip_loop]. rewrite Hns. destruct Hin as [->|Hin].
  - rewrite Hp. destruct (computeEmbedding p) as [embedding|]; [|contradiction].
    match goal with
    | |- context [clip_loop _ _ toEmbed' _ _ ?i' ?p' ?s' ?l'] =>
        destruct (clip_loop_preserves computeEmbedding _shouldStop toEmbed'
                    alreadyEmbedded totalImages i' p' s' l' (Item.id item) _
                    (getHash_setHash_same _ _ _ Ho)) as [r' [G K]]
    end.
    exists r'. split; [exact G|]. apply K. discriminate.
  - destruct (getHashPath x) as [px|]; [|now apply IH].
    apply IH; [exact Hin|].
    destruct (computeEmbedding px); [now apply setHash_keeps_open|exact Ho].
Qed.

(** The embedding phase creates no record. *)
Lemma indexClip_no_new (items : list Item.t) (st : State) (k : string) :
  getHash k st = None ->
  getHash k (fst (_indexClip Embedder_isReady computeEmbedding _shouldStop
                             items st)) = None.
Proof.
  intros H. unfold _indexClip.
  destruct (negb Embedder_isReady); [exact H|].
  set (toEmbed := filter _ items).
  assert (Hne : forall item, In item toEmbed -> Item.id item <> k).
  { intros item Hi E. unfold toEmbed in Hi. apply filter_In in Hi as [_ Hf].
    subst k. rewrite H in Hf.
    destruct (negb (isImageType (Item.ext item))); discriminate Hf. }
  destruct toEmbed as [|item1 rest] eqn:E; [exact H|].
  rewrite <- E in *.
  destruct (clip_loop computeEmbedding _shouldStop toEmbed _ _ 0 0 st _)
    as [st2 log2] eqn:L.
  cbn [fst]. unfold flush. rewrite getHash_doSave.
  change st2 with (fst (st2, log2)). rewrite <- L.
  rewrite clip_loop_other by exact Hne. exact H.
Qed.

(** After an embedding phase that is never stopped, the record of an image
    has an embedding if it had one or if the embedding of the image
    resolves, and it has the fingerprint it had. *)
Lemma indexClip_embedded (items : list Item.t) (st : State) (item : Item.t)
    (cached : HashData.t) :
  Embedder_isReady = true ->
  (forall i, _shouldStop "clip" i = false) ->
  In item items -> isImageType (Item.ext item) = true ->
  getHash (Item.id item) st = Some cached ->
  HashData.embedding cached <> None \/ Spec.resolves computeEmbedding item ->
  exists r',
    getHash (Item.id item)
            (fst (_indexClip Embedder_isReady computeEmbedding _shouldStop
                             items st)) = Some r'
    /\ HashData.embedding r' <> None
    /\ HashData.pHash r' = HashData.pHash cached
    /\ HashData.colorHistogram r' = HashData.colorHistogram cached.
Proof.
  intros Hready Hns Hin Himg Hget Hcase.
  destruct (indexClip_preserves Embedder_isReady computeEmbedding _shouldStop
              items st _ _ Hget) as [r' [G (K1 & K2 & K3 & K4)]].
  exists r'. split; [exact G|]. split; [|split; assumption].
  destruct (Js.falsy_array (HashData.embedding cached)) eqn:Ef.
  - destruct Hcase as [Hc|Hr].
    { destruct (HashData.embedding cached); [discriminate Ef|contradiction]. }
    assert (Hemb : exists r'',
               getHash (Item.id item)
                 (fst (_indexClip Embedder_isReady computeEmbedding _shouldStop
                                  items st)) = Some r''
               /\ HashData.embedding r'' <> None).
    { clear G. unfold _indexClip. rewrite Hready. cbn [negb].
      set (toEmbed := filter _ items).
      assert (Hi : In item toEmbed).
      { unfold toEmbed. apply filter_In. split; [exact Hin|].
        now rewrite Himg, Hget. }
      destruct toEmbed as [|item1 rest] eqn:E; [contradiction|].
      rewrite <- E in *.
      destruct (clip_loop computeEmbedding _shouldStop toEmbed _ _ 0 0 st _)
        as [st2 log2] eqn:L.
      cbn [fst]. unfold flush. rewrite getHash_doSave.
      change st2 with (fst (st2, log2)). rewrite <- L.
      apply clip_loop_embeds; auto.
      unfold getHash in Hget. destruct (_data st); [discriminate|discriminate Hget]. }
    destruct Hemb as [r'' [G' He]]. congruence.
  - apply K4. destruct (HashData.embedding cached); [discriminate|discriminate Ef].
Qed.

(** X27. Under every id that is not a property name inherited from
    [Object.prototype] the embedding phase creates no record and deletes
    none (for an inherited name the filter reads the inherited value, and
    the phase can store a record that holds an embedding only); and when
    the embedder is ready and the phase is never stopped, what [getHash]
    reads for an image ends with an embedding if it had one or if the
    embedding of the image resolves, with its fingerprint unchanged. *)
Theorem indexClip_embeds (items : list Item.t) (st : State) :
  let st' := fst (_indexClip Embedder_isReady computeEmbedding _shouldStop
                             items st) in
  (forall k, Js.inherited k = false ->
             (JsObject.get k (getAllItems st') = None
              <-> JsObject.get k (getAllItems st) = None)) /\
  (Embedder_isReady = true ->
   (forall i, _shouldStop "clip" i = false) ->
   forall item cached,
     In item items -> isImageType (Item.ext item) = true ->
     getHash (Item.id item) st = Some cached ->
     HashData.embedding cached <> None \/ Spec.resolves computeEmbedding item ->
     exists r',
       getHash (Item.id item) st' = Some r'
       /\ HashData.embedding r' <> None
       /\ HashData.pHash r' = HashData.pHash cached
       /\ HashData.colorHistogram r' = HashData.colorHistogram cached).
Proof.
  intros st'. split.
  - intros k Hk. rewrite <- !(getHash_own k _ Hk). split.
    + intros H. destruct (getHash k st) as [r|] eqn:E; [|reflexivity].
      destruct (indexClip_preserves Embedder_isReady computeEmbedding
                  _shouldStop items st _ _ E) as [r' [G _]].
      unfold st' in H. congruence.
    + apply indexClip_no_new.
  - intros Hready Hns item cached Hin Himg Hget Hcase.
    now apply indexClip_embedded.
Qed.

(** Every report of the embedding loop counts the items with a path that
    were handled so far. *)
Lemma clip_loop_reports (alreadyEmbedded totalImages : Z)
    (P : Progress -> Prop) :
  forall toEmbed i processed st log,
    (forall n : nat,
       (1 <= n <= List.length (filter Spec.has_path toEmbed))%nat ->
       P (mkProgress (alreadyEmbedded + (processed + Z.of_nat n))
                     totalImages "clip")) ->
    Forall P log ->
    Forall P (snd (clip_loop computeEmbedding _shouldStop toEmbed
                             alreadyEmbedded totalImages i processed st log)).
Proof.
  induction toEmbed as [|item toEmbed' IH]; intros i processed st log HP Hlog;
    cbn [clip_loop]; [exact Hlog|].
  destruct (_shouldStop "clip" i); [exact Hlog|].
  cbn [filter] in HP. unfold Spec.has_path at 1 in HP.
  destruct (getHashPath item) as [hashPath|].
  - cbn [List.length] in HP. apply IH.
    + intros n Hn.
      replace (processed + 1 + Z.of_nat n)%Z
        with (processed + Z.of_nat (S n))%Z by lia.
      apply HP. lia.
    + apply Forall_app. split; [exact Hlog|]. constructor; [|constructor].
      replace (processed + 1)%Z with (processed + Z.of_nat 1)%Z by lia.
      apply HP. lia.
  - apply IH; [exact HP|exact Hlog].
Qed.

(** The last report of an embedding loop that is never stopped counts the
    items with a path. *)
Lemma clip_loop_final (alreadyEmbedded totalImages : Z) :
  (forall j, _shouldStop "clip" j = false) ->
  forall toEmbed i processed st front,
    exists front',
      snd (clip_loop computeEmbedding _shouldStop toEmbed alreadyEmbedded
             totalImages i processed st
             (front ++ [mkProgress (alreadyEmbedded + processed) totalImages "clip"]))
      = front' ++
        [mkProgress
           (alreadyEmbedded
            + (processed
               + Z.of_nat (List.length (filter Spec.has_path toEmbed))))
           totalImages "clip"].
Proof.
  intros Hns.
  induction toEmbed as [|item toEmbed' IH]; intros i processed st front;
    cbn [clip_loop].
  - exists front. cbn [snd filter List.length]. now rewrite Z.add_0_r.
  - rewrite Hns. cbn [filter]. unfold Spec.has_path at 1.
    destruct (getHashPath item) as [hashPath|].
    + cbn [List.length].
      match goal with
      | |- context [clip_loop _ _ toEmbed' _ _ ?i' _ ?s' (?l' ++ [_])] =>
          destruct (IH i' (processed + 1)%Z s' l') as [front' Hf]
      end.
      exists front'. rewrite Hf. do 2 f_equal. f_equal. lia.
    + apply IH.
Qed.

(** X28. The progress reports of the embedding phase: each one names the
    number of images of the library as its total and a count between 0 and
    that total; the last report of a run that is never stopped has the
    count at the total when every image has a path; and when an image that
    waits for its embedding has no path, no report reaches the total. *)
Theorem indexClip_progress (items : list Item.t) (st : State) :
  let totalImages := Z.of_nat (List.length (Spec.images items)) in
  let log := snd (_indexClip Embedder_isReady computeEmbedding _shouldStop
                             items st) in
  Forall (fun p => total p = totalImages /\ phase p = "clip"%string
                   /\ (0 <= processed p <= totalImages)%Z) log /\
  ((forall i, _shouldStop "clip" i = false) -> log <> [] ->
   (forall item, In item items -> isImageType (Item.ext item) = true ->
                 getHashPath item <> None) ->
   exists front, log = front ++ [mkProgress totalImages totalImages "clip"]) /\
  ((exists item cached,
      In item items /\ isImageType (Item.ext item) = true
      /\ getHash (Item.id item) st = Some cached
      /\ HashData.embedding cached = None
      /\ getHashPath item = None) ->
   Forall (fun p => (processed p < totalImages)%Z) log).
Proof.
  intros totalImages log. unfold log, _indexClip.
  fold (Spec.images items). fold totalImages.
  destruct (negb Embedder_isReady).
  { cbn [snd]. split; [constructor|]. split; [intros _ H; now contradiction H|].
    intros _. constructor. }
  set (toEmbed := filter _ items).
  assert (Hle : (List.length toEmbed <= List.length (Spec.images items))%nat).
  { unfold toEmbed, Spec.images. apply filter_length_sub.
    intros x Hx. destruct (isImageType (Item.ext x)); [reflexivity|discriminate Hx]. }
  assert (Hsub : forall item, In item toEmbed ->
             In item items /\ isImageType (Item.ext item) = true).
  { intros item Hi. unfold toEmbed in Hi. apply filter_In in Hi as [Hin Hf].
    split; [exact Hin|].
    destruct (isImageType (Item.ext item)); [reflexivity|discriminate Hf]. }
  assert (Hlack : forall item cached,
             In item items -> isImageType (Item.ext item) = true ->
             getHash (Item.id item) st = Some cached ->
             HashData.embedding cached = None -> In item toEmbed).
  { intros item cached Hin Himg Hget He. unfold toEmbed. apply filter_In.
    split; [exact Hin|]. now rewrite Himg, Hget, He. }
  destruct toEmbed as [|item1 rest] eqn:E.
  { cbn [snd]. split; [constructor|]. split; [intros _ H; now contradiction H|].
    intros _. constructor. }
  rewrite <- E in *.
  set (alreadyEmbedded := (totalImages - Z.of_nat (List.length toEmbed))%Z).
  pose proof (filter_length_le Spec.has_path toEmbed) as Hpath.
  set (P := fun p => total p = totalImages /\ phase p = "clip"%string
                     /\ (alreadyEmbedded <= processed p
                         <= alreadyEmbedded
                            + Z.of_nat (List.length (filter Spec.has_path toEmbed)))%Z).
  assert (Hrep : Forall P
            (snd (clip_loop computeEmbedding _shouldStop toEmbed alreadyEmbedded
                    totalImages 0 0 st
                    [mkProgress alreadyEmbedded totalImages "clip"]))).
  { apply clip_loop_reports.
    - intros n Hn. unfold P. cbn [total phase processed]. repeat split; lia.
    - constructor; [|constructor]. unfold P. cbn [total phase processed].
      repeat split; lia. }
  pose proof (clip_loop_final alreadyEmbedded totalImages) as Hfin.
  destruct (clip_loop computeEmbedding _shouldStop toEmbed alreadyEmbedded
              totalImages 0 0 st [mkProgress alreadyEmbedded totalImages "clip"])
    as [st2 log2] eqn:L.
  cbn [snd] in *. split; [|split].
  - eapply Forall_impl; [|exact Hrep]. unfold P.
    intros p (Ht & Hp & Hr). repeat split; try assumption;
      unfold alreadyEmbedded, totalImages in *; lia.
  - intros Hns _ Hall.
    destruct (Hfin Hns toEmbed 0%nat 0%Z st []) as [front' Hf].
    rewrite Z.add_0_r in Hf.
    change ([] ++ [mkProgress alreadyEmbedded totalImages "clip"])
      with [mkProgress alreadyEmbedded totalImages "clip"] in Hf.
    rewrite L in Hf. cbn [snd] in Hf. exists front'. rewrite Hf.
    rewrite filter_all_length.
    + now replace (alreadyEmbedded + (0 + Z.of_nat (List.length toEmbed)))%Z
        with totalImages by (unfold alreadyEmbedded; lia).
    + intros x Hx. destruct (Hsub x Hx) as [Hin Himg].
      specialize (Hall x Hin Himg). unfold Spec.has_path.
      destruct (getHashPath x); [reflexivity|contradiction].
  - intros [item [cached (Hin & Himg & Hget & He & Hnp)]].
    assert (Hlt : (List.length (filter Spec.has_path toEmbed)
                   < List.length toEmbed)%nat).
    { apply filter_length_lt with (x := item).
      - eapply Hlack; eauto.
      - unfold Spec.has_path. now rewrite Hnp. }
    eapply Forall_impl; [|exact Hrep]. unfold P.
    intros p (Ht & Hp & Hr). unfold alreadyEmbedded, totalImages in *. lia.
Qed.

(** X29. [indexLibrary] does nothing while a run is active.  Otherwise it
    ends with the flags cleared; and when the cache is open, nothing stops
    the run, the embedder is ready and the hasher's answers are usable,
    every image whose hashing and whose embedding resolve ends
    fingerprint-complete and with an embedding. *)
Theorem indexLibrary_indexes (ix : Flags) (items : list Item.t) (st : State) :
  let run := indexLibrary computeHashes Embedder_isReady computeEmbedding
                          _shouldStop ix items st in
  (_isRunning ix = true -> run = (ix, st, [])) /\
  (_isRunning ix = false ->
   fst (fst run) = mkFlags false None /\
   (_data st <> None ->
    (forall phase i, _shouldStop phase i = false) ->
    Embedder_isReady = true ->
    Spec.hasher_sound computeHashes ->
    forall item,
      In item items -> isImageType (Item.ext item) = true ->
      Spec.resolves computeHashes item ->
      Spec.resolves computeEmbedding item ->
      hasValidHash (Item.id item) (snd (fst run)) = true /\
      exists r, getHash (Item.id item) (snd (fst run)) = Some r
                /\ HashData.embedding r <> None)).
Proof.
  intros run. unfold run, indexLibrary. split.
  - intros Hr. now rewrite Hr.
  - intros Hr. rewrite Hr.
    destruct (_indexPhash computeHashes _shouldStop items st)
      as [st1 log1] eqn:L1.
    split.
    + destruct (negb (_shouldStop "indexLibrary" 0)).
      * now destruct (_indexClip Embedder_isReady computeEmbedding _shouldStop
                                 items st1).
      * reflexivity.
    + intros Ho Hns Hready Hs item Hin Himg Hrh Hre.
      rewrite Hns. cbn [negb].
      assert (Hv : hasValidHash (Item.id item) st1 = true).
      { change st1 with (fst (st1, log1)). rewrite <- L1.
        apply indexPhash_valid_after; auto. }
      rewrite hasValidHash_getHash in Hv.
      destruct (getHash (Item.id item) st1) as [cached|] eqn:Hget;
        [|discriminate Hv].
      destruct (indexClip_embedded items st1 item cached Hready (Hns "clip"%string)
                  Hin Himg Hget (or_intror Hre))
        as [r' (G & He & Kp & Kc)].
      destruct (_indexClip Embedder_isReady computeEmbedding _shouldStop
                           items st1) as [st2 log2].
      cbn [fst snd] in *. split.
      * rewrite hasValidHash_getHash, G, Kp, Kc. exact Hv.
      * exists r'. split; [exact G|exact He].
Qed.

End IndexerCompletion.

Section IndexerCompletionRuns.
Import Cache Indexer.

Lemma indexPhash_completes_witness :
  let computeHashes := fun _ : string => Some ("00ff"%string, [1%R]) in
  let _shouldStop := fun (_ : string) (_ : nat) => false in
  let st := _load "/library" (mkState None false false None true) in
  let a := Item.mk "a" (Some "png"%string) None (Some "/library/a.png"%string) in
  let b := Item.mk "b" (Some "JPG"%string) (Some "/thumbs/b.png"%string) None in
  hasValidHash "b" (fst (_indexPhash computeHashes _shouldStop [a; b] st)) = true.
Proof.
  intros computeHashes _shouldStop st a b.
  assert (Hs : Spec.hasher_sound computeHashes).
  { intros p pHash h E. inversion E. subst. split; discriminate. }
  assert (Ho : _data st <> None) by discriminate.
  pose proof (indexPhash_completes computeHashes _shouldStop [a; b] st Ho
                (fun _ => eq_refl) Hs) as H.
  cbv zeta in H. destruct H as [H _].
  apply (H b).
  - right. left. reflexivity.
  - reflexivity.
  - right. exists "/thumbs/b.png"%string. split; [reflexivity|discriminate].
Defined.

Lemma indexPhash_progress_witness :
  let computeHashes := fun _ : string => Some ("00ff"%string, [1%R]) in
  let _shouldStop := fun (_ : string) (_ : nat) => false in
  let st := _load "/library" (mkState None false false None true) in
  let a := Item.mk "a" (Some "png"%string) None (Some "/library/a.png"%string) in
  let b := Item.mk "b" (Some "txt"%string) None (Some "/library/b.txt"%string) in
  exists front,
    snd (_indexPhash computeHashes _shouldStop [a; b] st)
    = front ++ [mkProgress 1 1 "phash"].
Proof.
  intros computeHashes _shouldStop st a b.
  pose proof (indexPhash_progress computeHashes _shouldStop [a; b] st) as H.
  cbv zeta in H. destruct H as (_ & _ & H).
  apply H.
  - reflexivity.
  - discriminate.
Defined.

Lemma indexClip_embeds_witness :
  let computeEmbedding := fun _ : string => Some [0.5%R; 0.5%R] in
  let _shouldStop := fun (_ : string) (_ : nat) => false in
  let cached :=
    HashData.mk (Some "00ff"%string) (Some [1%R]) None (Some "png"%string) in
  let st :=
    mkState (Some (mkDoc CACHE_VERSION "/library" [("a"%string, cached)]))
            false false None true in
  let a := Item.mk "a" (Some "png"%string) None (Some "/library/a.png"%string) in
  exists r',
    getHash "a" (fst (_indexClip true computeEmbedding _shouldStop [a] st))
    = Some r'
    /\ HashData.embedding r' <> None
    /\ HashData.pHash r' = Some "00ff"%string
    /\ HashData.colorHistogram r' = Some [1%R].
Proof.
  intros computeEmbedding _shouldStop cached st a.
  pose proof (indexClip_embeds true computeEmbedding _shouldStop [a] st) as H.
  cbv zeta in H. destruct H as [_ H].
  apply (H eq_refl (fun _ => eq_refl) a cached).
  - left. reflexivity.
  - reflexivity.
  - reflexivity.
  - right. exists "/library/a.png"%string. split; [reflexivity|discriminate].
Defined.

(** An image whose id is an inherited name and that has no record: the
    filter of the embedding phase reads the inherited value, and the phase
    stores a record that holds the embedding only. *)
Example indexClip_inherited_name :
  let computeEmbedding := fun _ : string => Some [0.5%R; 0.5%R] in
  let _shouldStop := fun (_ : string) (_ : nat) => false in
  let st := _load "/library" (mkState None false false None true) in
  let c :=
    Item.mk "constructor" (Some "png"%string) None
            (Some "/library/c.png"%string) in
  getCachedCount st = 0%nat /\
  getHash "constructor" st = Some HashData.inherited /\
  getAllItems (fst (_indexClip true computeEmbedding _shouldStop [c] st))
  = [("constructor"%string,
      HashData.mk None None (Some [0.5%R; 0.5%R]) None)].
Proof. repeat split. Qed.

Lemma indexClip_progress_witness :
  let computeEmbedding := fun _ : string => Some [0.5%R; 0.5%R] in
  let _shouldStop := fun (_ : string) (_ : nat) => false in
  let cached :=
    HashData.mk (Some "00ff"%string) (Some [1%R]) None (Some "png"%string) in
  let st :=
    mkState (Some (mkDoc CACHE_VERSION "/library"
                         [("a"%string, cached); ("b"%string, cached)]))
            false false None true in
  let a := Item.mk "a" (Some "png"%string) None (Some "/library/a.png"%string) in
  let b := Item.mk "b" (Some "png"%string) None None in
  (exists front,
     snd (_indexClip true computeEmbedding _shouldStop [a] st)
     = front ++ [mkProgress 1 1 "clip"])
  /\ Forall (fun p => (processed p < 2)%Z)
            (snd (_indexClip true computeEmbedding _shouldStop [a; b] st)).
Proof.
  intros computeEmbedding _shouldStop cached st a b. split.
  - pose proof (indexClip_progress true computeEmbedding _shouldStop [a] st)
      as H.
    cbv zeta in H. destruct H as (_ & H & _).
    apply H.
    + reflexivity.
    + discriminate.
    + intros item [<-|[]] _. discriminate.
  - pose proof (indexClip_progress true computeEmbedding _shouldStop [a; b] st)
      as H.
    cbv zeta in H. destruct H as (_ & _ & H).
    apply H. exists b, cached. repeat split. right. left. reflexivity.
Defined.

Lemma indexLibrary_indexes_witness :
  let computeHashes := fun _ : string => Some ("00ff"%string, [1%R]) in
  let computeEmbedding := fun _ : string => Some [0.5%R; 0.5%R] in
  let _shouldStop := fun (_ : string) (_ : nat) => false in
  let st := _load "/library" (mkState None false false None true) in
  let a := Item.mk "a" (Some "png"%string) None (Some "/library/a.png"%string) in
  let run := indexLibrary computeHashes true computeEmbedding _shouldStop
                          (mkFlags false None) [a] st in
  hasValidHash "a" (snd (fst run)) = true /\
  exists r, getHash "a" (snd (fst run)) = Some r
            /\ HashData.embedding r <> None.
Proof.
  intros computeHashes computeEmbedding _shouldStop st a run.
  assert (Hs : Spec.hasher_sound computeHashes).
  { intros p pHash h E. inversion E. subst. split; discriminate. }
  assert (Ho : _data st <> None) by discriminate.
  pose proof (indexLibrary_indexes computeHashes true computeEmbedding
                _shouldStop (mkFlags false None) [a] st) as H.
  cbv zeta in H. destruct H as [_ H]. destruct (H eq_refl) as [_ H'].
  apply (H' Ho (fun _ _ => eq_refl) eq_refl Hs a).
  - left. reflexivity.
  - reflexivity.
  - exists "/library/a.png"%string. split; [reflexivity|discriminate].
  - exists "/library/a.png"%string. split; [reflexivity|discriminate].
Defined.

End IndexerCompletionRuns.

(* ------------------------------------------------------------------ *)
(** ** Searching for an item *)

Section SearchFacts.
Import Similarity Spec.
Local Open Scope R_scope.

Variable computeHashes : string -> option (string * list R).
Variable computeEmbedding : string -> option (list R).





End SearchFacts.

